(** * BenchMyDNS: the probing and aggregation engine of [bench_my_dns.py]

    A shallow embedding of [BenchThread] (run, test_single_server),
    [SecurityThread.run] and [MainWindow.start_benchmark], and the
    properties of the engine stated over it.

    Numbers.  Python computes on binary64 floats.
    - The progress percentage [int((idx / total) * 100)] is computed from
      two small integers, so it is embedded bit for bit with Rocq's
      primitive binary64 floats ([progress_val]).
    - Latencies are arbitrary measurements.  Every finite float is a
      rational and [statistics.mean] sums exact fractions, so samples and
      the statistics derived from them are embedded as rationals ([Q]);
      the final rounding of each float operation is not represented.
    - The scale and the bars of the chart multiply and divide averages by
      constants; there the rounding of each operation is a parameter
      [fl] of the definitions ([max_val_after], [bar_width]), and the
      literal [1.2] is the float it denotes.

    Environment.  The DNS client, the clock, the random generator and the
    thread that calls [stop] are outside the engine.  They are an oracle
    [Env]; the engine itself is a state-passing program over [World]. *)

From Stdlib Require Import ZArith QArith Lia Lqa Bool List String Ascii.
From Stdlib Require Import Floats Uint63 Sorted Permutation Qround.
Import ListNotations.

Local Open Scope string_scope.
Local Open Scope list_scope.
Local Open Scope Q_scope.

(** ** Python numerics *)

Module Py.

(** [float(n)] for a non-negative machine-size integer. *)
Definition float_of_nat (n : nat) : float :=
  PrimFloat.of_uint63 (Uint63.of_Z (Z.of_nat n)).

(** [a / b] on integers: true division, [ZeroDivisionError] when
    [b = 0]. *)
Definition truediv (a b : nat) : option float :=
  match b with
  | O => None
  | S _ => Some (PrimFloat.div (float_of_nat a) (float_of_nat b))
  end.

(** [int(x)]: truncation toward zero; raises on infinities and NaN. *)
Definition int_of_float (x : float) : option Z :=
  match Prim2SF x with
  | S754_zero _ => Some 0%Z
  | S754_finite s m e =>
      let mag := if (0 <=? e)%Z
                 then Z.shiftl (Z.pos m) e
                 else Z.shiftr (Z.pos m) (- e) in
      Some (if s then (- mag)%Z else mag)
  | S754_infinity _ => None
  | S754_nan => None
  end.

(** Truth value of a number: everything but zero. *)
Definition truthy (x : Q) : bool := negb (Qeq_bool x 0).

(** [max(a, b)]: the first argument unless the second is greater. *)
Definition max2 (a b : Q) : Q := if Qlt_le_dec a b then b else a.

Definition sum (l : list Q) : Q := fold_right Qplus 0 l.

(** [statistics.mean(l)] of a non-empty list. *)
Definition mean (l : list Q) : Q := sum l / inject_Z (Z.of_nat (List.length l)).

(** [min(l)] / [max(l)] of a non-empty list [x :: l]: a left-to-right scan
    that replaces the candidate only by a strictly better element. *)
Fixpoint min_from (x : Q) (l : list Q) : Q :=
  match l with
  | [] => x
  | y :: l' => min_from (if Qlt_le_dec y x then y else x) l'
  end.

Fixpoint max_from (x : Q) (l : list Q) : Q :=
  match l with
  | [] => x
  | y :: l' => max_from (if Qlt_le_dec x y then y else x) l'
  end.

(** [len(l)] as a float operand. *)
Definition len (l : list Q) : Q := inject_Z (Z.of_nat (List.length l)).

End Py.

(** ** Data model *)

(** The [ServerResult] dataclass; every numeric field defaults to 0. *)
Record ServerResult := mkServerResult {
  name : string;
  ip : string;
  cached_avg : Q;
  uncached_avg : Q;
  overall_avg : Q;
  min_time : Q;
  max_time : Q;
  reliability : Q;
  total_queries : nat;
  successful : nat
}.

(** [ServerResult(name=name, ip=ip)]. *)
Definition default_result (name ip : string) : ServerResult :=
  mkServerResult name ip 0 0 0 0 0 0 0 0.

(** [int((idx / total) * 100)], evaluated in binary64. *)
Definition progress_val (idx total : nat) : option Z :=
  match Py.truediv idx total with
  | Some q => Py.int_of_float (PrimFloat.mul q (Py.float_of_nat 100))
  | None => None
  end.

(** [statistics.mean(times) if times else 0]. *)
Definition mean_or_zero (times : list Q) : Q :=
  match times with
  | [] => 0
  | _ :: _ => Py.mean times
  end.

(** The reduction at the end of [test_single_server] (from
    [all_times = ...] to the [return]). *)
Definition reduce (name ip : string) (query_count : nat)
    (cached_times uncached_times : list Q) : ServerResult :=
  let all_times := cached_times ++ uncached_times in
  let cached_avg := mean_or_zero cached_times in
  let uncached_avg := mean_or_zero uncached_times in
  let overall_avg :=
    if Py.truthy cached_avg && Py.truthy uncached_avg
    then (cached_avg + uncached_avg) / 2
    else Py.max2 cached_avg uncached_avg in
  {| name := name;
     ip := ip;
     cached_avg := cached_avg;
     uncached_avg := uncached_avg;
     overall_avg := overall_avg;
     min_time :=
       match all_times with [] => 0 | x :: l => Py.min_from x l end;
     max_time :=
       match all_times with [] => 0 | x :: l => Py.max_from x l end;
     reliability :=
       match query_count with
       | O => 0
       | S _ =>
           Py.len all_times / inject_Z (Z.of_nat (query_count * 2)) * 100
       end;
     total_queries := query_count * 2;
     successful := List.length all_times |}.

(** ** Environment, world and the state-passing monad *)

(** DNS record types ([dns.rdatatype]). *)
Module rdatatype.
Definition A : Z := 1%Z.
Definition RRSIG : Z := 46%Z.
Definition DNSKEY : Z := 48%Z.
End rdatatype.

(** One RRset of a response's answer section. *)
Record RRset := mkRRset {
  rr_name : string;
  rdtype : Z
}.

(** What a thread does that can be observed from outside, in order. *)
Inductive Event :=
| EvQuery (ip qname : string) (rdtype : Z) (want_dnssec : bool)
    (* dns.query.udp(query, ip, timeout=2.0) *)
| EvProgress (pct : Z) (msg : string)      (* BenchThread.progress.emit *)
| EvTested (result : ServerResult)         (* results.append(result) *)
| EvFinished (results : list ServerResult) (* BenchThread.finished_signal *)
| EvError (msg : string)                   (* BenchThread.error_signal *)
| EvSecResult (name status : string)       (* SecurityThread.result.emit *)
| EvSecProgress (pct : Z)                  (* SecurityThread.progress.emit *)
| EvSecFinished.                           (* SecurityThread.finished_signal *)

(** Everything the thread does not decide itself.
    - [cancel_at = Some k]: another thread calls [stop] after [k] reads of
      [_is_running]; the flag is never set back.  [None]: nobody calls it.
    - [udp i]: the [i]-th call of [dns.query.udp] either raises ([None]:
      timeout, transport error, malformed response) or returns a response
      with the given answer section.
    - [elapsed i]: [(time.perf_counter() - start) * 1000] around that call.
    - [choice i]: the index that the [i]-th draw of [random.choices]
      selects in its population. *)
Record Env := mkEnv {
  cancel_at : option nat;
  udp : nat -> option (list RRset);
  elapsed : nat -> Q;
  choice : nat -> nat
}.

Record World := mkWorld {
  polls : nat;         (* reads of _is_running so far *)
  queries : nat;       (* calls of dns.query.udp so far *)
  draws : nat;         (* letters drawn so far *)
  trace : list Event   (* oldest first *)
}.

Definition init_world : World := mkWorld 0 0 0 [].

Definition M (A : Type) : Type := Env -> World -> A * World.

Definition ret {A : Type} (a : A) : M A := fun _ w => (a, w).

Definition bind {A B : Type} (c : M A) (k : A -> M B) : M B :=
  fun e w => let (a, w') := c e w in k a e w'.

Notation "x <- c ;; k" := (bind c (fun x => k))
  (at level 61, c at next level, right associativity).
Notation "c ;; k" := (bind c (fun _ => k))
  (at level 61, right associativity).

(** Reading [self._is_running]. *)
Definition is_running : M bool := fun e w =>
  (match cancel_at e with
   | None => true
   | Some k => Nat.ltb (polls w) k
   end,
   mkWorld (S (polls w)) (queries w) (draws w) (trace w)).

Definition emit (ev : Event) : M unit := fun _ w =>
  (tt, mkWorld (polls w) (queries w) (draws w) (trace w ++ [ev])).

(** [dns.query.udp(make_query(qname, rdtype), ip, timeout=2.0)]. *)
Definition udp_query (ip qname : string) (rdtype : Z) (want_dnssec : bool)
    : M (option (list RRset)) := fun e w =>
  (udp e (queries w),
   mkWorld (polls w) (S (queries w)) (draws w)
           (trace w ++ [EvQuery ip qname rdtype want_dnssec])).

(** The timed query of the benchmark: [None] when the call raises,
    otherwise the elapsed milliseconds. *)
Definition timed_udp (ip qname : string) : M (option Q) := fun e w =>
  let i := queries w in
  let (r, w') := udp_query ip qname rdatatype.A false e w in
  (match r with Some _ => Some (elapsed e i) | None => None end, w').

(** [string.ascii_lowercase]. *)
Definition ascii_lowercase : list ascii :=
  list_ascii_of_string "abcdefghijklmnopqrstuvwxyz".

(** One element of [random.choices(population)]:
    [population[floor(random() * len(population))]]; the oracle supplies
    the index, reduced into range. *)
Definition random_choice : M ascii := fun e w =>
  (nth (choice e (draws w) mod 26) ascii_lowercase "a"%char,
   mkWorld (polls w) (queries w) (S (draws w)) (trace w)).

Fixpoint random_choices (k : nat) : M (list ascii) :=
  match k with
  | O => ret []
  | S k' => c <- random_choice ;; cs <- random_choices k' ;; ret (c :: cs)
  end.

(** [f"{''.join(random.choices(string.ascii_lowercase, k=8))}.com"]. *)
Definition random_domain : M string :=
  cs <- random_choices 8 ;;
  ret (string_of_list_ascii cs ++ ".com")%string.

(** ** BenchThread *)

(** One of the two [for i in range(self.query_count)] loops of
    [test_single_server]; they differ only in the queried name, [gen].
    A raised exception and a non-positive elapsed time leave [times]
    as it is. *)
Fixpoint probe_loop (gen : M string) (ip : string) (n : nat)
    (times : list Q) : M (list Q) :=
  match n with
  | O => ret times
  | S n' =>
      running <- is_running ;;
      if running : bool then
        domain <- gen ;;
        r <- timed_udp ip domain ;;
        probe_loop gen ip n'
          (match r with
           | Some t => if Qlt_le_dec 0 t then times ++ [t] else times
           | None => times
           end)
      else ret times
  end.

(** [BenchThread.test_single_server].  Each query sits in its own
    [try] with a bare [except], and nothing else in the body raises, so
    the outer handler (which would return [default_result]) is never
    taken. *)
Definition test_single_server (name ip : string) (query_count : nat)
    : M ServerResult :=
  cached_times <- probe_loop (ret "google.com") ip query_count [] ;;
  uncached_times <- probe_loop random_domain ip query_count [] ;;
  ret (reduce name ip query_count cached_times uncached_times).

(** The [for idx, (name, ip) in enumerate(self.servers.items())] loop of
    [BenchThread.run]; a failing [int(...)] is swallowed by its [try].
    [test_single_server] does not raise, so the handler that would append
    [default_result] is never taken. *)
Fixpoint run_loop (query_count total idx : nat)
    (servers : list (string * string)) (results : list ServerResult)
    : M (list ServerResult) :=
  match servers with
  | [] => ret results
  | (name, ip) :: rest =>
      running <- is_running ;;
      if running : bool then
        match progress_val idx total with
        | Some p => emit (EvProgress p ("Testing " ++ name ++ "...")%string)
        | None => ret tt
        end ;;
        result <- test_single_server name ip query_count ;;
        emit (EvTested result) ;;
        run_loop query_count total (S idx) rest (results ++ [result])
      else ret results
  end.

(** [BenchThread.run]; the value is the local list [results] when the
    method returns.  Emitting a signal does not raise, so neither handler
    emits [error_signal]. *)
Definition run (servers : list (string * string)) (query_count : nat)
    : M (list ServerResult) :=
  results <- run_loop query_count (List.length servers) 0 servers [] ;;
  running <- is_running ;;
  if running : bool then
    emit (EvProgress 100%Z "Complete!") ;;
    emit (EvFinished results) ;;
    ret results
  else ret results.

(** ** SecurityThread *)

Definition has_rdtype (t : Z) (answer : list RRset) : bool :=
  existsb (fun rrset => Z.eqb (rdtype rrset) t) answer.

(** The conditional expression that picks the status string. *)
Definition classify (answer : list RRset) : string :=
  let has_dnskey := has_rdtype rdatatype.DNSKEY answer in
  let has_rrsig := has_rdtype rdatatype.RRSIG answer in
  if has_rrsig then "valid" else if has_dnskey then "signed" else "unsigned".

(** The [try] block of one iteration of [SecurityThread.run]. *)
Definition check_server (ip : string) : M string :=
  r <- udp_query ip "cloudflare.com" rdatatype.DNSKEY true ;;
  ret (match r with
       | Some answer => classify answer
       | None => "error"
       end).

Fixpoint security_loop (total i : nat) (servers : list (string * string))
    : M unit :=
  match servers with
  | [] => ret tt
  | (name, ip) :: rest =>
      running <- is_running ;;
      if running : bool then
        status <- check_server ip ;;
        emit (EvSecResult name status) ;;
        match progress_val (S i) total with
        | Some p => emit (EvSecProgress p)
        | None => ret tt
        end ;;
        security_loop total (S i) rest
      else ret tt
  end.

(** [SecurityThread.run]. *)
Definition security_run (servers : list (string * string)) : M unit :=
  security_loop (List.length servers) 0 servers ;;
  emit EvSecFinished.

(** ** MainWindow.start_benchmark *)

(** The module-level table of resolvers. *)
Definition DNS_SERVERS : list (string * string) := [
  ("Google", "8.8.8.8");
  ("Google Secondary", "8.8.4.4");
  ("Cloudflare", "1.1.1.1");
  ("Cloudflare Secondary", "1.0.0.1");
  ("Cloudflare Malware", "1.1.1.2");
  ("Cloudflare Family", "1.1.1.3");
  ("Quad9", "9.9.9.9");
  ("Quad9 Secondary", "149.112.112.112");
  ("Quad9 Unsecured", "9.9.9.10");
  ("OpenDNS", "208.67.222.222");
  ("OpenDNS Secondary", "208.67.220.220");
  ("OpenDNS Family", "208.67.222.123");
  ("NextDNS", "45.90.28.0");
  ("NextDNS Secondary", "45.90.30.0");
  ("AdGuard", "94.140.14.14");
  ("AdGuard Secondary", "94.140.15.15");
  ("AdGuard Family", "94.140.14.15");
  ("CleanBrowsing", "185.228.168.9");
  ("CleanBrowsing Adult", "185.228.168.10");
  ("CleanBrowsing Family", "185.228.168.168");
  ("Level3", "4.2.2.1");
  ("Level3 Alt 1", "4.2.2.2");
  ("Level3 Alt 2", "4.2.2.3");
  ("Level3 Alt 3", "4.2.2.4");
  ("Verisign", "64.6.64.6");
  ("Verisign Secondary", "64.6.65.6");
  ("DNS.WATCH", "84.200.69.80");
  ("DNS.WATCH Secondary", "84.200.70.40");
  ("Comodo Secure", "8.26.56.26");
  ("Comodo Secondary", "8.20.247.20");
  ("Yandex", "77.88.8.8");
  ("Yandex Secondary", "77.88.8.1");
  ("Hurricane Electric", "74.82.42.42");
  ("Neustar", "156.154.70.1");
  ("Neustar Secondary", "156.154.71.1");
  ("Alternate DNS", "76.76.19.19");
  ("Alternate Secondary", "76.223.122.150");
  ("Control D", "76.76.2.0");
  ("Control D Secondary", "76.76.10.0");
  ("Mullvad", "194.242.2.2");
  ("Mullvad Secondary", "193.19.108.2");
  ("Oracle Dyn", "216.146.35.35");
  ("Dyn Secondary", "216.146.36.36")
].

(** [{n: ip for n, ip in DNS_SERVERS.items()
      if self.checkboxes[n].isChecked()}]. *)
Definition selection (checked : string -> bool) : list (string * string) :=
  filter (fun '(n, _) => checked n) DNS_SERVERS.

Inductive UiAction :=
| Warning (title text : string)     (* QMessageBox.warning *)
| StopThread                        (* bench_thread.stop(); wait(2000) *)
| StartThread (servers : list (string * string)) (query_count : nat).

(** [start_benchmark]: [checked n] is [self.checkboxes[n].isChecked()],
    [thread_running] is [self.bench_thread and
    self.bench_thread.isRunning()]. *)
Definition start_benchmark (checked : string -> bool) (query_spin : nat)
    (thread_running : bool) : list UiAction :=
  let servers := selection checked in
  match servers with
  | [] => [Warning "Warning" "Please select at least one server!"]
  | _ :: _ =>
      (if thread_running then [StopThread] else [])
      ++ [StartThread servers query_spin]
  end.

(** ** PopupList and SimpleCombo *)

(** [l[i]] for a Python list: negative indices count from the end,
    [None] stands for [IndexError]. *)
Definition py_index {A : Type} (l : list A) (i : Z) : option A :=
  let n := Z.of_nat (List.length l) in
  if (0 <=? i)%Z then nth_error l (Z.to_nat i)
  else if (- n <=? i)%Z then nth_error l (Z.to_nat (n + i))
  else None.

(** The state of a [PopupList] that the handlers below read or write. *)
Record PopupList := mkPopupList {
  _items : list string;
  _hover_index : Z;
  _vscroll : Z;          (* vertical pixel scroll offset *)
  fixed_height : Z;      (* the argument of the last setFixedHeight *)
  popup_visible : bool
}.

Definition _item_height : Z := 36%Z.
Definition _padding_v : Z := 6%Z.
Definition _max_visible_items : Z := 8%Z.

(** [PopupList.__init__]. *)
Definition new_popup : PopupList := mkPopupList [] (-1) 0 0 false.

(** [PopupList.addItems]. *)
Definition popup_addItems (items : list string) (p : PopupList)
    : PopupList :=
  let visible := Z.min (Z.of_nat (List.length items)) _max_visible_items in
  let total_h := (visible * _item_height + _padding_v * 2)%Z in
  mkPopupList items (-1) 0 total_h (popup_visible p).

(** [PopupList._index_at_pos], for a position with ordinate [pos_y]. *)
Definition _index_at_pos (pos_y : Z) (p : PopupList) : Z :=
  let content_top := _padding_v in
  let y := (pos_y + _vscroll p - content_top)%Z in
  if (y <? 0)%Z then (-1)%Z
  else
    let idx := (y / _item_height)%Z in
    if ((0 <=? idx) && (idx <? Z.of_nat (List.length (_items p))))%Z
    then idx else (-1)%Z.

(** [PopupList.wheelEvent], for a wheel turn of [angle_y] eighths of a
    degree on a popup that is [height] pixels high.  [int(angle_y / 8)]
    and [int(delta * 0.5)] truncate toward zero; both float operations
    are exact on these integers. *)
Definition wheelEvent (angle_y height : Z) (p : PopupList) : PopupList :=
  let delta := Z.quot angle_y 8 in
  let pixels := Z.quot delta 2 in
  let max_scroll :=
    Z.max 0 (Z.of_nat (List.length (_items p)) * _item_height
             - height + _padding_v * 2) in
  mkPopupList (_items p) (_hover_index p)
    (Z.max 0 (Z.min (_vscroll p - pixels) max_scroll))
    (fixed_height p) (popup_visible p).

(** [PopupList.mouseMoveEvent] and [leaveEvent]. *)
Definition mouseMoveEvent (pos_y : Z) (p : PopupList) : PopupList :=
  mkPopupList (_items p) (_index_at_pos pos_y p) (_vscroll p)
    (fixed_height p) (popup_visible p).

Definition leaveEvent (p : PopupList) : PopupList :=
  mkPopupList (_items p) (-1) (_vscroll p) (fixed_height p)
    (popup_visible p).

(** [PopupList.mousePressEvent]: the popup after the click and the index
    it sends with [activated], if any. *)
Definition mousePressEvent (pos_y : Z) (p : PopupList)
    : PopupList * option Z :=
  let idx := _index_at_pos pos_y p in
  if (idx =? -1)%Z then (p, None)
  else (mkPopupList (_items p) (_hover_index p) (_vscroll p)
          (fixed_height p) false,
        Some idx).

(** The rows [PopupList.paintEvent] draws: [first_index] and the top
    ordinate of row [i], for the popup's own rectangle (top 0). *)
Definition first_index (p : PopupList) : Z :=
  Z.max 0 (_vscroll p / _item_height).

Definition row_top (p : PopupList) (i : Z) : Z :=
  let y_offset := (- (_vscroll p mod _item_height))%Z in
  (0 + _padding_v + y_offset + (i - first_index p) * _item_height)%Z.

(** The state of a [SimpleCombo]. *)
Record SimpleCombo := mkSimpleCombo {
  items : list string;
  _index : Z;
  _popup : PopupList;
  button_text : string   (* the text of [_btn] *)
}.

(** [SimpleCombo.__init__]. *)
Definition new_combo (its : list string) : SimpleCombo :=
  mkSimpleCombo its 0
    (match its with
     | [] => new_popup
     | _ :: _ => popup_addItems its new_popup
     end)
    "".

(** [self.items[self._index] if self.items else ""]. *)
Definition currentText (c : SimpleCombo) : option string :=
  match items c with
  | [] => Some ""
  | _ :: _ => py_index (items c) (_index c)
  end.

Definition currentIndex (c : SimpleCombo) : Z := _index c.

(** [SimpleCombo._update_button_text]; [None] stands for [IndexError]. *)
Definition _update_button_text (c : SimpleCombo) : option SimpleCombo :=
  match currentText c with
  | Some text => Some (mkSimpleCombo (items c) (_index c) (_popup c) text)
  | None => None
  end.

(** [SimpleCombo.addItems]. *)
Definition addItems (its : list string) (c : SimpleCombo)
    : option SimpleCombo :=
  let index :=
    match its with
    | [] => _index c
    | _ :: _ =>
        if (Z.of_nat (List.length its) <=? _index c)%Z then 0%Z
        else _index c
    end in
  _update_button_text
    (mkSimpleCombo its index (popup_addItems its (_popup c))
       (button_text c)).

(** [SimpleCombo.setCurrentIndex]: the combo afterwards and the index
    sent with [currentIndexChanged], if any. *)
Definition setCurrentIndex (idx : Z) (c : SimpleCombo)
    : option (SimpleCombo * option Z) :=
  if ((0 <=? idx) && (idx <? Z.of_nat (List.length (items c))))%Z then
    match _update_button_text
            (mkSimpleCombo (items c) idx (_popup c) (button_text c)) with
    | Some c' => Some (c', Some idx)
    | None => None
    end
  else Some (c, None).

(** [SimpleCombo._toggle_popup]. *)
Definition _toggle_popup (c : SimpleCombo) : SimpleCombo :=
  let p := _popup c in
  let p' :=
    if popup_visible p
    then mkPopupList (_items p) (_hover_index p) (_vscroll p)
           (fixed_height p) false
    else let q := popup_addItems (items c) p in
         mkPopupList (_items q) (_hover_index q) (_vscroll q)
           (fixed_height q) true in
  mkSimpleCombo (items c) (_index c) p' (button_text c).

(** A click in the popup of a combo: [mousePressEvent], then
    [_on_activated] through the [activated] signal. *)
Definition popup_click (pos_y : Z) (c : SimpleCombo)
    : option (SimpleCombo * option Z) :=
  let (p', sent) := mousePressEvent pos_y (_popup c) in
  let c' := mkSimpleCombo (items c) (_index c) p' (button_text c) in
  match sent with
  | Some idx => setCurrentIndex idx c'
  | None => Some (c', None)
  end.

(** ** ResultsChart *)

(** The state of the chart that the handlers of the window write: the
    list it shows and its minimum height.  The scale [self.max_val] is a
    product in binary64; the value [set_results] gives it is
    [max_val_after] below. *)
Record ResultsChart := mkResultsChart {
  chart_results : list ServerResult;
  minimum_height : Z
}.

(** [ResultsChart.__init__]. *)
Definition new_chart : ResultsChart := mkResultsChart [] 500.

(** [ResultsChart.set_results], but for [self.max_val]. *)
Definition set_results (results : list ServerResult) (ch : ResultsChart)
    : ResultsChart :=
  mkResultsChart results
    (Z.max 600 (Z.of_nat (List.length results) * 65 + 100)).

(** The list [all_vals] of [set_results]. *)
Definition all_vals (results : list ServerResult) : list Q :=
  flat_map (fun r =>
              (if Qlt_le_dec 0 (cached_avg r) then [cached_avg r] else [])
              ++ (if Qlt_le_dec 0 (uncached_avg r)
                  then [uncached_avg r] else [])
              ++ (if Qlt_le_dec 0 (overall_avg r)
                  then [overall_avg r] else []))
           results.

(** The number that the literal [1.2] denotes in binary64. *)
Definition float_1_2 : Q := 5404319552844595 # 4503599627370496.

(** [self.max_val] after [set_results(results)], [max_val] being its
    value before.  The product is rounded to binary64; the rounding is
    the argument [fl], which takes the exact value of an operation to
    the float that the operation returns. *)
Definition max_val_after (fl : Q -> Q) (results : list ServerResult)
    (max_val : Q) : Q :=
  match results with
  | [] => max_val
  | _ :: _ =>
      match all_vals results with
      | [] => max_val
      | x :: l => Py.max2 (fl (Py.max_from x l * float_1_2)) 50
      end
  end.

(** [min(a, b)]: the first argument unless the second is smaller. *)
Definition py_min2 (a b : Q) : Q := if Qlt_le_dec b a then b else a.

(** The width [paintEvent] gives to the bar of a value [v] on a chart
    [chart_width] pixels wide, [min((v / self.max_val) * chart_width,
    chart_width)], before [int] truncates it. *)
Definition bar_width (fl : Q -> Q) (v max_val : Q) (chart_width : Z) : Q :=
  py_min2 (fl (fl (v / max_val) * inject_Z chart_width))
          (inject_Z chart_width).

(** ** The result handlers of MainWindow *)

(** A sort key: a float, or [float("inf")]. *)
Inductive Key :=
| Fin (q : Q)
| Inf.

(** [a < b] on keys. *)
Definition key_lt (a b : Key) : bool :=
  match a, b with
  | Fin x, Fin y => if Qlt_le_dec x y then true else false
  | Fin _, Inf => true
  | Inf, _ => false
  end.

(** One step of a stable ascending sort: [x] goes before the first
    element whose key is not smaller than its own. *)
Fixpoint insert_key {A : Type} (key : A -> Key) (x : A) (l : list A)
    : list A :=
  match l with
  | [] => [x]
  | y :: l' =>
      if key_lt (key y) (key x) then y :: insert_key key x l'
      else x :: y :: l'
  end.

(** [sorted(l, key=key, reverse=reverse)]: a stable sort that compares
    keys with [<] only; with [reverse] the list is reversed, sorted and
    reversed again, which keeps equal keys in their original order. *)
Definition sorted {A : Type} (key : A -> Key) (reverse : bool)
    (l : list A) : list A :=
  if reverse then rev (fold_right (insert_key key) [] (rev l))
  else fold_right (insert_key key) [] l.

(** The [key] functions of [apply_filter]. *)
Definition data_or_inf (v : Q) : Key :=
  if Qlt_le_dec 0 v then Fin v else Inf.

Definition data_or_zero (v : Q) : Key :=
  if Qlt_le_dec 0 v then Fin v else Fin 0.

(** The values that [benchmark_done] writes into the summary label
    (their layout as text, to one decimal, is not part of the record). *)
Record Summary := mkSummary {
  best : ServerResult;
  tested : nat;       (* len(valid_results) *)
  rate : Q
}.

(** The state of the window that the result handlers read or write. *)
Record Window := mkWindow {
  win_results : list ServerResult;            (* self.results *)
  win_filtered_results : list ServerResult;   (* self.filtered_results *)
  win_chart : ResultsChart;                   (* self.chart *)
  filter_combo : SimpleCombo;
  summary_label : option Summary;
  start_btn_enabled : bool;
  start_btn_text : string;
  tab_index : Z;
  status_message : string
}.

(** [MainWindow.apply_filter]. *)
Definition apply_filter (win : Window) : Window :=
  match win_results win with
  | [] => win
  | _ :: _ =>
      let sort_mode := currentIndex (filter_combo win) in
      let filtered :=
        if (sort_mode =? 0)%Z then
          sorted (fun x => data_or_inf (cached_avg x)) false
                 (win_results win)
        else if (sort_mode =? 1)%Z then
          sorted (fun x => data_or_inf (uncached_avg x)) false
                 (win_results win)
        else if (sort_mode =? 2)%Z then
          sorted (fun x => data_or_inf (overall_avg x)) false
                 (win_results win)
        else if (sort_mode =? 3)%Z then
          sorted (fun x => data_or_zero (overall_avg x)) true
                 (win_results win)
        else if (sort_mode =? 4)%Z then
          sorted (fun x => Fin (reliability x)) true (win_results win)
        else win_filtered_results win in
      mkWindow (win_results win) filtered
        (set_results filtered (win_chart win))
        (filter_combo win) (summary_label win)
        (start_btn_enabled win) (start_btn_text win)
        (tab_index win) (status_message win)
  end.

(** [min(valid_results, key=lambda x: x.overall_avg)] on [x :: l]: the
    first result with the least average. *)
Fixpoint min_by_overall (x : ServerResult) (l : list ServerResult)
    : ServerResult :=
  match l with
  | [] => x
  | y :: l' =>
      min_by_overall
        (if Qlt_le_dec (overall_avg y) (overall_avg x) then y else x) l'
  end.

Definition valid_results (results : list ServerResult)
    : list ServerResult :=
  filter (fun r => if Qlt_le_dec 0 (overall_avg r) then true else false)
         results.

(** The summary of [benchmark_done], when there is one to write. *)
Definition summarize (results : list ServerResult) : option Summary :=
  match valid_results results with
  | [] => None
  | x :: l =>
      let total_q :=
        fold_right Nat.add 0%nat (map total_queries (x :: l)) in
      let total_s :=
        fold_right Nat.add 0%nat (map successful (x :: l)) in
      Some (mkSummary (min_by_overall x l) (List.length (x :: l))
              (match total_q with
               | O => 0
               | S _ =>
                   inject_Z (Z.of_nat total_s)
                   / inject_Z (Z.of_nat total_q) * 100
               end))
  end.

(** [MainWindow.benchmark_done]. *)
Definition benchmark_done (results : list ServerResult) (win : Window)
    : Window :=
  let win1 :=
    mkWindow results results (win_chart win) (filter_combo win)
      (match summarize results with
       | Some s => Some s
       | None => summary_label win
       end)
      true "START BENCHMARK" (tab_index win) (status_message win) in
  let win2 := apply_filter win1 in
  mkWindow (win_results win2) (win_filtered_results win2) (win_chart win2)
    (filter_combo win2) (summary_label win2)
    (start_btn_enabled win2) (start_btn_text win2)
    1%Z "Benchmark complete!".

(** The combo of [create_results_tab] and the window around it when the
    program starts: [setCurrentIndex(0)] runs [apply_filter] through
    [currentIndexChanged], on an empty [self.results]. *)
Definition sort_labels : list string :=
  ["Fastest (Cached)"; "Fastest (Uncached)"; "Fastest (Overall)";
   "Slowest First"; "Most Reliable"].

(** The handler of [currentIndexChanged]: [lambda idx: self.apply_filter()]
    after a selection [idx] made in the combo, by [setCurrentIndex] or by
    a click in its popup. *)
Definition select_sort (idx : Z) (win : Window) : option Window :=
  match setCurrentIndex idx (filter_combo win) with
  | Some (c, sent) =>
      let win1 :=
        mkWindow (win_results win) (win_filtered_results win)
          (win_chart win) c (summary_label win)
          (start_btn_enabled win) (start_btn_text win)
          (tab_index win) (status_message win) in
      Some (match sent with
            | Some _ => apply_filter win1
            | None => win1
            end)
  | None => None
  end.

Definition new_window : option Window :=
  select_sort 0
    (mkWindow [] [] new_chart (new_combo sort_labels) None
       true "START BENCHMARK" 0 "Ready").

(** [MainWindow.start_benchmark], what it does to the window: with no
    server checked it only warns; otherwise it disables the button and
    empties [self.results], and leaves [self.filtered_results] and the
    chart as they are. *)
Definition start_benchmark_window (checked : string -> bool)
    (win : Window) : Window :=
  match selection checked with
  | [] => win
  | _ :: _ =>
      mkWindow [] (win_filtered_results win) (win_chart win)
        (filter_combo win) (summary_label win)
        false "Running..." (tab_index win) (status_message win)
  end.

(** [MainWindow.update_progress]; the progress bar and its label are not
    part of [Window]. *)
Definition update_progress (pct : Z) (msg : string) (win : Window)
    : Window :=
  mkWindow (win_results win) (win_filtered_results win) (win_chart win)
    (filter_combo win) (summary_label win)
    (start_btn_enabled win) (start_btn_text win) (tab_index win) msg.

(** [MainWindow.benchmark_error]. *)
Definition benchmark_error (error_msg : string) (win : Window) : Window :=
  mkWindow (win_results win) (win_filtered_results win) (win_chart win)
    (filter_combo win) (summary_label win)
    true "START BENCHMARK" (tab_index win) (status_message win).

(** The window with its sort combo replaced. *)
Definition with_filter_combo (c : SimpleCombo) (win : Window) : Window :=
  mkWindow (win_results win) (win_filtered_results win) (win_chart win)
    c (summary_label win)
    (start_btn_enabled win) (start_btn_text win)
    (tab_index win) (status_message win).

(** A click in the popup of the sort combo, at ordinate [pos_y]:
    [mousePressEvent], [_on_activated], [setCurrentIndex] and, when the
    index is sent, [apply_filter]. *)
Definition click_sort (pos_y : Z) (win : Window) : option Window :=
  match popup_click pos_y (filter_combo win) with
  | Some (c, sent) =>
      Some (match sent with
            | Some _ => apply_filter (with_filter_combo c win)
            | None => with_filter_combo c win
            end)
  | None => None
  end.

(** A click on one of the three tabs. *)
Definition select_tab (idx : Z) (win : Window) : Window :=
  if ((0 <=? idx) && (idx <? 3))%Z then
    mkWindow (win_results win) (win_filtered_results win) (win_chart win)
      (filter_combo win) (summary_label win)
      (start_btn_enabled win) (start_btn_text win) idx (status_message win)
  else win.

(** * Notions used in the statements *)

(** ** Campaigns *)

(** The samples [test_single_server] collects from world [w]. *)
Definition cached_samples (ip : string) (query_count : nat)
    (e : Env) (w : World) : list Q :=
  fst (probe_loop (ret "google.com") ip query_count [] e w).

Definition uncached_samples (ip : string) (query_count : nat)
    (e : Env) (w : World) : list Q :=
  fst (probe_loop random_domain ip query_count [] e
         (snd (probe_loop (ret "google.com") ip query_count [] e w))).

(** All samples of the campaign, [all_times]. *)
Definition all_samples (ip : string) (query_count : nat)
    (e : Env) (w : World) : list Q :=
  cached_samples ip query_count e w ++ uncached_samples ip query_count e w.

(** The [ServerResult] the campaign returns. *)
Definition campaign_result (name ip : string) (query_count : nat)
    (e : Env) (w : World) : ServerResult :=
  fst (test_single_server name ip query_count e w).

(** The same environment when nobody calls [stop]. *)
Definition never_cancelled (e : Env) : Env :=
  mkEnv None (udp e) (elapsed e) (choice e).

(** A name generator that neither polls the flag nor sends anything. *)
Definition quiet (gen : M string) : Prop :=
  forall e w,
    polls (snd (gen e w)) = polls w /\
    queries (snd (gen e w)) = queries w /\
    trace (snd (gen e w)) = trace w.

(** ** Names of the uncached loop *)

(** The names of the queries in a trace, oldest first. *)
Definition qnames (tr : list Event) : list string :=
  flat_map (fun ev => match ev with
                      | EvQuery _ qname _ _ => [qname]
                      | _ => []
                      end) tr.

(** What the second loop of [test_single_server] appends to the trace,
    and the names it queries. *)
Definition uncached_trace (ip : string) (query_count : nat)
    (e : Env) (w : World) : list Event :=
  let w1 := snd (probe_loop (ret "google.com") ip query_count [] e w) in
  let w2 := snd (probe_loop random_domain ip query_count [] e w1) in
  skipn (List.length (trace w1)) (trace w2).

Definition uncached_names (ip : string) (query_count : nat)
    (e : Env) (w : World) : list string :=
  qnames (uncached_trace ip query_count e w).

Definition lowercase (c : ascii) : Prop :=
  (97 <= nat_of_ascii c <= 122)%nat.

(** Eight lowercase letters followed by [".com"]. *)
Definition random_name (d : string) : Prop :=
  exists cs : list ascii,
    List.length cs = 8%nat /\ Forall lowercase cs /\
    d = (string_of_list_ascii cs ++ ".com")%string.

(** The name built from the eight draws numbered [d .. d + 7]. *)
Definition drawn_name (e : Env) (d : nat) : string :=
  (string_of_list_ascii
     (map (fun i => nth (choice e i mod 26) ascii_lowercase "a"%char)
          (seq d 8))
   ++ ".com")%string.

(** ** Check cycles *)

(** The answer section holds an RRset of type [t]. *)
Definition carries (t : Z) (answer : list RRset) : Prop :=
  Exists (fun rrset => rdtype rrset = t) answer.

(** The status a check must report for the outcome of its query. *)
Inductive status_spec : option (list RRset) -> string -> Prop :=
| status_error :
    status_spec None "error"
| status_valid answer :
    carries rdatatype.RRSIG answer ->
    status_spec (Some answer) "valid"
| status_signed answer :
    ~ carries rdatatype.RRSIG answer ->
    carries rdatatype.DNSKEY answer ->
    status_spec (Some answer) "signed"
| status_unsigned answer :
    ~ carries rdatatype.RRSIG answer ->
    ~ carries rdatatype.DNSKEY answer ->
    status_spec (Some answer) "unsigned".

(** A check cycle over [servers] whose first query is the [q]-th of the
    thread: per server one DNSKEY query for [cloudflare.com] with DNSSEC
    requested, then the server's status. *)
Inductive cycle (e : Env) : nat -> list (string * string) -> list Event
    -> Prop :=
| cycle_nil q : cycle e q [] []
| cycle_cons q sname sip rest status tr :
    status_spec (udp e q) status ->
    cycle e (S q) rest tr ->
    cycle e q ((sname, sip) :: rest)
      (EvQuery sip "cloudflare.com" rdatatype.DNSKEY true
       :: EvSecResult sname status :: tr).

Definition is_sec_progress (ev : Event) : bool :=
  match ev with EvSecProgress _ => true | _ => false end.

Definition without_progress (tr : list Event) : list Event :=
  filter (fun ev => negb (is_sec_progress ev)) tr.

(** How many servers a loop started in world [w] reaches before the
    flag is seen cleared. *)
Definition reached (e : Env) (w : World) (servers : list (string * string))
    : nat :=
  match cancel_at e with
  | None => List.length servers
  | Some k => Nat.min (k - polls w) (List.length servers)
  end.

(** ** Traces of a run *)

Definition is_query (ev : Event) : bool :=
  match ev with EvQuery _ _ _ _ => true | _ => false end.

(** A trace without its queries: signals and appended results only. *)
Definition skeleton (tr : list Event) : list Event :=
  filter (fun ev => negb (is_query ev)) tr.

(** The results delivered to the caller, by either terminal signal. *)
Definition is_delivery (ev : Event) : bool :=
  match ev with EvFinished _ => true | EvError _ => true | _ => false end.

(** The flag was seen cleared by the time the world is [w]. *)
Definition stop_seen (e : Env) (w : World) : Prop :=
  exists k, cancel_at e = Some k /\ (k < polls w)%nat.

(** The progress event announcing server number [idx]. *)
Definition announce_one (total idx : nat) (sname : string) : list Event :=
  match progress_val idx total with
  | Some p => [EvProgress p ("Testing " ++ sname ++ "...")%string]
  | None => []
  end.

(** Announcements and appended results of the servers that got a
    result, starting with server number [idx]. *)
Fixpoint announce (total idx : nat) (servers : list (string * string))
    (results : list ServerResult) : list Event :=
  match servers, results with
  | (sname, _) :: servers', r :: results' =>
      announce_one total idx sname
      ++ EvTested r :: announce total (S idx) servers' results'
  | _, _ => []
  end.

(** The percentages of the [progress] signals in a trace. *)
Definition progress_values (tr : list Event) : list Z :=
  flat_map (fun ev => match ev with
                      | EvProgress p _ => [p]
                      | _ => []
                      end) tr.

(** The percentages announced for servers [idx .. idx + n - 1]. *)
Definition percentages (total idx n : nat) : list Z :=
  flat_map (fun i => match progress_val i total with
                     | Some p => [p]
                     | None => []
                     end) (seq idx n).

Fixpoint increasing_b (l : list Z) : bool :=
  match l with
  | x :: ((y :: _) as l') => (x <? y)%Z && increasing_b l'
  | _ => true
  end.

(** For a run over [n] servers: every percentage is computed, they
    increase strictly up to the final 100 and lie in [0, 100]. *)
Definition good_total (n : nat) : bool :=
  let ps := percentages n 0 n ++ [100%Z] in
  (List.length ps =? S n)%nat
  && increasing_b ps
  && forallb (fun p => (0 <=? p)%Z && (p <=? 100)%Z) ps.

(** Reads of the flag in one iteration of the loop of [run] that nobody
    stops: the loop's own and one per query of the campaign. *)
Definition polls_per_server (query_count : nat) : nat :=
  (1 + 2 * query_count)%nat.

(** Progress reported after campaigns: a progress signal is emitted only
    once some campaign has finished. *)
Definition progress_after_campaigns (tr : list Event) : Prop :=
  forall pre p msg post,
    tr = pre ++ EvProgress p msg :: post ->
    exists r, In (EvTested r) pre.

(** ** The whole trace of a run that nobody stops *)

(** The queries of one campaign whose first random name is drawn after
    [d] draws: [query_count] for [google.com], then [query_count] for
    random names. *)
Definition campaign_queries (e : Env) (ip : string)
    (query_count d : nat) : list Event :=
  repeat (EvQuery ip "google.com" rdatatype.A false) query_count
  ++ map (fun j => EvQuery ip (drawn_name e (d + 8 * j)) rdatatype.A false)
         (seq 0 query_count).

(** What a run logs for its servers from number [idx] on: for each
    server the progress signal, then the queries of its campaign, then its
    result. *)
Fixpoint run_events (e : Env) (query_count total idx d : nat)
    (servers : list (string * string)) (results : list ServerResult)
    : list Event :=
  match servers, results with
  | (sname, sip) :: servers', r :: results' =>
      announce_one total idx sname
      ++ campaign_queries e sip query_count d
      ++ EvTested r
         :: run_events e query_count total (S idx) (d + 8 * query_count)
              servers' results'
  | _, _ => []
  end.

(** ** Shifts of a mantissa *)

(** Nothing was lost in the bits shifted out so far. *)
Definition shr_exact (mrs : shr_record) : Prop :=
  loc_of_shr_record mrs = loc_Exact.

(** [y] is [x] shifted right by [k] bits. *)
Definition shifted (k : Z) (x y : shr_record) : Prop :=
  (0 <= shr_m x ->
   shr_m y = shr_m x / 2 ^ k /\
   (shr_exact x -> shr_m x mod 2 ^ k = 0 -> shr_exact y))%Z.

(** ** Rounding a fraction to nearest, ties to even *)

(** Where the fraction [N / D] lies between its floor and the next
    integer. *)
Definition loc_of (N D : Z) : location :=
  (if N mod D =? 0 then loc_Exact else loc_Inexact (2 * (N mod D) ?= D))%Z.

(** The record [x] holds the floor of [N / D] and the place of the
    fraction above it. *)
Definition located (N D : Z) (x : shr_record) : Prop :=
  shr_m x = (N / D)%Z /\ loc_of_shr_record x = loc_of N D.

Definition rnd (N D : Z) : Z := round_nearest_even (N / D)%Z (loc_of N D).

(** The mantissa and the exponent of the float that a fraction [N / D]
    at exponent [e] rounds to. *)
Definition rounded (N D e : Z) : Z * Z :=
  (let g := Zdigits2 (N / D) + e - 53 in
   let R := rnd N (D * 2 ^ (g - e)) in
   if R <? 2 ^ 53 then (R, g) else (2 ^ 52, g + 1))%Z.

(** Order of two normal positive floats, mantissa and exponent. *)
Definition lex_le (x y : Z * Z) : Prop :=
  (snd x < snd y \/ (snd x = snd y /\ fst x <= fst y))%Z.

(** A fraction of at least 53 bits whose rounding is a normal float. *)
Definition normal_input (N D e : Z) : Prop :=
  (0 < D /\ 2 ^ 52 <= N / D /\
   -1074 <= Zdigits2 (N / D) + e - 53 < 971)%Z.

(** The float quotient of two normal floats, and a float times the float
    100 (mantissa [7036874417766400], exponent [-46]). *)
Definition quotient_of (m1 e1 m2 e2 : Z) : Z * Z :=
  rounded (m1 * 2 ^ 53) m2 (e1 - e2 - 53).

Definition times_100 (q : Z * Z) : Z * Z :=
  rounded (fst q * 7036874417766400) 1 (snd q + -46).

(** ** Sample environments *)

(** A resolver that answers every query, the [i]-th one after [20 + i]
    milliseconds, with an empty answer section. *)
Definition steady_env : Env :=
  mkEnv None (fun _ => Some []) (fun i => inject_Z (Z.of_nat (20 + i)))
        (fun i => i).

(** A resolver that never answers. *)
Definition dead_env : Env :=
  mkEnv None (fun _ => None) (fun _ => 0) (fun i => i).

(** [steady_env], with [stop] called after [k] reads of the flag. *)
Definition stopped_env (k : nat) : Env :=
  mkEnv (Some k) (udp steady_env) (elapsed steady_env) (choice steady_env).

(** A generator whose draws repeat with period eight. *)
Definition repeating_env : Env :=
  mkEnv None (fun _ => Some []) (fun _ => 20)
        (fun i => nth (i mod 8) [16; 23; 10; 25; 15; 12; 21; 22]%nat 0%nat).

Definition two_servers : list (string * string) :=
  [("Google", "8.8.8.8"); ("Cloudflare", "1.1.1.1")].

(** The result of the first campaign of a run in [steady_env] with
    [query_count = 1]. *)
Definition google_result : ServerResult :=
  mkServerResult "Google" "8.8.8.8" 20 21 (41 # 2) 20 21 (200 # 2) 2 2.

(** ** Further notions for the threads *)

(** What the [i]-th query contributes to a list of times: its elapsed
    time when the call returned and the time is positive. *)
Definition sample (e : Env) (i : nat) : list Q :=
  match udp e i with
  | Some _ => if Qlt_le_dec 0 (elapsed e i) then [elapsed e i] else []
  | None => []
  end.

(** An event a benchmark run over servers with addresses [ips] may log:
    a plain A query to one of them, for [google.com] or a random name, or
    one of the signals of [BenchThread] other than the error signal. *)
Definition bench_event_ok (ips : list string) (ev : Event) : Prop :=
  match ev with
  | EvQuery ip qname rdtype want_dnssec =>
      In ip ips /\ rdtype = rdatatype.A /\ want_dnssec = false /\
      (qname = "google.com" \/ random_name qname)
  | EvProgress _ _ => True
  | EvTested _ => True
  | EvFinished _ => True
  | EvError _ => False
  | EvSecResult _ _ => False
  | EvSecProgress _ => False
  | EvSecFinished => False
  end.

(** The percentages of the [progress] signals of a check cycle. *)
Definition sec_progress_values (tr : list Event) : list Z :=
  flat_map (fun ev => match ev with
                      | EvSecProgress p => [p]
                      | _ => []
                      end) tr.

(** For a check cycle over [n] servers: every percentage is computed,
    they increase strictly, lie in [1, 100] and end with 100. *)
Definition good_sec_total (n : nat) : bool :=
  let ps := percentages n 1 n in
  (List.length ps =? n)%nat
  && increasing_b ps
  && forallb (fun p => (1 <=? p)%Z && (p <=? 100)%Z) ps
  && match n with
     | O => true
     | S _ => (last ps 0 =? 100)%Z
     end.

(** ** Notions for the result handlers *)

(** [a] may stand before [b] in a list sorted fastest first on the
    value [v]: [b] has no data, or both have and [a] is not slower. *)
Definition not_slower (v : ServerResult -> Q) (a b : ServerResult) : Prop :=
  ~ 0 < v b \/ (0 < v a /\ v a <= v b).

(** The value "Slowest First" sorts on: the overall average, 0 when there
    is none. *)
Definition slowest_value (r : ServerResult) : Q :=
  if Qlt_le_dec 0 (overall_avg r) then overall_avg r else 0.

(** The key of [x] equals [c]: neither is smaller. *)
Definition same_key {A : Type} (key : A -> Key) (c : Key) (x : A) : bool :=
  negb (key_lt (key x) c) && negb (key_lt c (key x)).

(** The [key] and [reverse] arguments of the five sort modes. *)
Definition mode_key (sort_mode : Z) : ServerResult -> Key :=
  if (sort_mode =? 0)%Z then fun x => data_or_inf (cached_avg x)
  else if (sort_mode =? 1)%Z then fun x => data_or_inf (uncached_avg x)
  else if (sort_mode =? 2)%Z then fun x => data_or_inf (overall_avg x)
  else if (sort_mode =? 3)%Z then fun x => data_or_zero (overall_avg x)
  else fun x => Fin (reliability x).

Definition mode_reverse (sort_mode : Z) : bool :=
  (sort_mode =? 3)%Z || (sort_mode =? 4)%Z.

(** What can happen to a combo. *)
Inductive ComboOp :=
| OpAddItems (its : list string)
| OpSetCurrentIndex (idx : Z)
| OpToggle
| OpClick (pos_y : Z)
| OpWheel (angle_y height : Z)
| OpHover (pos_y : Z)
| OpLeave.

Definition with_popup (p : PopupList) (c : SimpleCombo) : SimpleCombo :=
  mkSimpleCombo (items c) (_index c) p (button_text c).

Definition combo_step (op : ComboOp) (c : SimpleCombo)
    : option SimpleCombo :=
  match op with
  | OpAddItems its => addItems its c
  | OpSetCurrentIndex idx => option_map fst (setCurrentIndex idx c)
  | OpToggle => Some (_toggle_popup c)
  | OpClick pos_y => option_map fst (popup_click pos_y c)
  | OpWheel angle_y height =>
      Some (with_popup (wheelEvent angle_y height (_popup c)) c)
  | OpHover pos_y => Some (with_popup (mouseMoveEvent pos_y (_popup c)) c)
  | OpLeave => Some (with_popup (leaveEvent (_popup c)) c)
  end.

Fixpoint combo_run (ops : list ComboOp) (c : SimpleCombo)
    : option SimpleCombo :=
  match ops with
  | [] => Some c
  | op :: ops' =>
      match combo_step op c with
      | Some c' => combo_run ops' c'
      | None => None
      end
  end.

(** What every reachable combo satisfies. *)
Definition combo_ok (c : SimpleCombo) : Prop :=
  (0 <= _index c)%Z /\
  (items c = [] \/ (_index c < Z.of_nat (List.length (items c)))%Z) /\
  _items (_popup c) = items c /\
  (0 <= _vscroll (_popup c))%Z.

(** Qt hides a popup on a click outside it or on Escape. *)
Definition popup_close (p : PopupList) : PopupList :=
  mkPopupList (_items p) (_hover_index p) (_vscroll p) (fixed_height p)
    false.

(** Everything that writes to the state [Window] once the window
    exists: the handlers of the benchmark thread's signals, the start
    button, the sort combo and its popup, and the tabs.  The operations
    can come in any order, whether or not the program allows it at that
    moment. *)
Inductive WindowOp :=
| OpStartBenchmark (checked : string -> bool)
| OpUpdateProgress (pct : Z) (msg : string)
| OpBenchmarkDone (results : list ServerResult)
| OpBenchmarkError (error_msg : string)
| OpSelectSort (idx : Z)
| OpToggleSort
| OpClickSort (pos_y : Z)
| OpWheelSort (angle_y height : Z)
| OpHoverSort (pos_y : Z)
| OpLeaveSort
| OpCloseSort
| OpSelectTab (idx : Z).

Definition window_step (op : WindowOp) (win : Window) : option Window :=
  let c := filter_combo win in
  match op with
  | OpStartBenchmark checked => Some (start_benchmark_window checked win)
  | OpUpdateProgress pct msg => Some (update_progress pct msg win)
  | OpBenchmarkDone results => Some (benchmark_done results win)
  | OpBenchmarkError error_msg => Some (benchmark_error error_msg win)
  | OpSelectSort idx => select_sort idx win
  | OpToggleSort => Some (with_filter_combo (_toggle_popup c) win)
  | OpClickSort pos_y => click_sort pos_y win
  | OpWheelSort angle_y height =>
      Some (with_filter_combo
              (with_popup (wheelEvent angle_y height (_popup c)) c) win)
  | OpHoverSort pos_y =>
      Some (with_filter_combo
              (with_popup (mouseMoveEvent pos_y (_popup c)) c) win)
  | OpLeaveSort =>
      Some (with_filter_combo (with_popup (leaveEvent (_popup c)) c) win)
  | OpCloseSort =>
      Some (with_filter_combo (with_popup (popup_close (_popup c)) c) win)
  | OpSelectTab idx => Some (select_tab idx win)
  end.

Fixpoint window_run (ops : list WindowOp) (win : Window) : option Window :=
  match ops with
  | [] => Some win
  | op :: ops' =>
      match window_step op win with
      | Some win' => window_run ops' win'
      | None => None
      end
  end.

(** The list on display is the results in the order of the sort mode,
    and the chart shows it. *)
Definition shows_sorted (win : Window) : Prop :=
  win_filtered_results win =
    sorted (mode_key (currentIndex (filter_combo win)))
           (mode_reverse (currentIndex (filter_combo win)))
           (win_results win) /\
  chart_results (win_chart win) = win_filtered_results win.

(** What every reachable window satisfies. *)
Definition window_ok (win : Window) : Prop :=
  combo_ok (filter_combo win) /\
  items (filter_combo win) = sort_labels /\
  (win_results win = [] \/ shows_sorted win).

(** ** Sample results and widgets *)

Definition cloudflare_result : ServerResult :=
  mkServerResult "Cloudflare" "1.1.1.1" 12 30 21 12 30 100 2 2.

(** Two servers that answered and one that never did. *)
Definition sample_results : list ServerResult :=
  [google_result; default_result "Silent" "192.0.2.1"; cloudflare_result].

(** A rounding: down to a multiple of 1/1024.  It is monotone and
    leaves the integers as they are. *)
Definition round_down_1024 (x : Q) : Q :=
  inject_Z (Qfloor (x * 1024)) / 1024.

(** A server whose averages are all 57 ms. *)
Definition slow_result : ServerResult :=
  mkServerResult "Slow" "192.0.2.7" 57 57 57 57 57 100 2 2.

(** The window once [sample_results] have arrived, with the sort mode at
    [sort_mode]. *)
Definition sample_window (sort_mode : Z) : Window :=
  mkWindow sample_results sample_results new_chart
    (mkSimpleCombo sort_labels sort_mode
       (popup_addItems sort_labels new_popup) "Fastest (Cached)")
    None true "START BENCHMARK" 1 "Benchmark complete!".

(** A popup of ten rows, eight of them visible, scrolled by 40 pixels. *)
Definition sample_popup : PopupList :=
  mkPopupList ["a"; "b"; "c"; "d"; "e"; "f"; "g"; "h"; "i"; "j"]
    (-1) 40 300 true.

(** * Properties *)

(** ** Arithmetic of the reduction *)

Section Statistics.

Lemma len_cons (x : Q) (l : list Q) : Py.len (x :: l) == Py.len l + 1.
Proof.
  unfold Py.len. cbn [List.length].
  rewrite Nat2Z.inj_succ, <- Z.add_1_r, inject_Z_plus. reflexivity.
Qed.

Lemma len_nonneg (l : list Q) : 0 <= Py.len l.
Proof.
  unfold Py.len. change 0 with (inject_Z 0).
  rewrite <- Zle_Qle. lia.
Qed.

Lemma len_pos (x : Q) (l : list Q) : 0 < Py.len (x :: l).
Proof. rewrite len_cons. pose proof (len_nonneg l). lra. Qed.

Lemma sum_bounds (lo hi : Q) (l : list Q) :
  Forall (fun t => lo <= t <= hi) l ->
  lo * Py.len l <= Py.sum l <= hi * Py.len l.
Proof.
  induction 1 as [|x l Hx _ IH].
  - change (Py.len []) with 0. change (Py.sum []) with 0. lra.
  - rewrite len_cons. change (Py.sum (x :: l)) with (x + Py.sum l).
    cbv beta in Hx. lra.
Qed.

Lemma mean_bounds (lo hi : Q) (l : list Q) :
  l <> [] ->
  Forall (fun t => lo <= t <= hi) l ->
  lo <= Py.mean l <= hi.
Proof.
  intros Hne HF. destruct l as [|x l]; [congruence|].
  pose proof (sum_bounds lo hi (x :: l) HF) as [Hlo Hhi].
  pose proof (len_pos x l) as Hpos.
  unfold Py.mean. fold (Py.len (x :: l)). split.
  - apply Qle_shift_div_l; assumption.
  - apply Qle_shift_div_r; assumption.
Qed.

Lemma sum_pos (x : Q) (l : list Q) :
  Forall (fun t => 0 < t) (x :: l) -> 0 < Py.sum (x :: l).
Proof.
  revert x. induction l as [|y l IH]; intros x HF.
  - inversion HF; subst. cbn. lra.
  - inversion HF as [|? ? Hx HF']; subst.
    specialize (IH y HF'). cbn [Py.sum fold_right] in *. lra.
Qed.

Lemma mean_pos (l : list Q) :
  l <> [] -> Forall (fun t => 0 < t) l -> 0 < Py.mean l.
Proof.
  intros Hne HF. destruct l as [|x l]; [congruence|].
  unfold Py.mean. fold (Py.len (x :: l)).
  apply Qlt_shift_div_l; [apply len_pos|].
  rewrite Qmult_0_l. apply sum_pos; assumption.
Qed.

Lemma min_from_le_start (x : Q) (l : list Q) : Py.min_from x l <= x.
Proof.
  revert x. induction l as [|y l IH]; intros x; cbn.
  - lra.
  - destruct (Qlt_le_dec y x) as [H|H].
    + specialize (IH y). lra.
    + apply IH.
Qed.

Lemma min_from_lower (x : Q) (l : list Q) :
  Forall (fun t => Py.min_from x l <= t) (x :: l).
Proof.
  revert x. induction l as [|y l IH]; intros x; cbn.
  - constructor; [lra | constructor].
  - destruct (Qlt_le_dec y x) as [H|H].
    + specialize (IH y). inversion IH as [|? ? Hy Hl]; subst.
      constructor; [lra | constructor; assumption].
    + specialize (IH x). inversion IH as [|? ? Hx Hl]; subst.
      constructor; [assumption | constructor; [lra | assumption]].
Qed.

Lemma min_from_In (x : Q) (l : list Q) : In (Py.min_from x l) (x :: l).
Proof.
  revert x. induction l as [|y l IH]; intros x; cbn.
  - left; reflexivity.
  - destruct (Qlt_le_dec y x).
    + right. apply IH.
    + destruct (IH x) as [H|H]; [left | right; right]; assumption.
Qed.

Lemma max_from_ge_start (x : Q) (l : list Q) : x <= Py.max_from x l.
Proof.
  revert x. induction l as [|y l IH]; intros x; cbn.
  - lra.
  - destruct (Qlt_le_dec x y) as [H|H].
    + specialize (IH y). lra.
    + apply IH.
Qed.

Lemma max_from_upper (x : Q) (l : list Q) :
  Forall (fun t => t <= Py.max_from x l) (x :: l).
Proof.
  revert x. induction l as [|y l IH]; intros x; cbn.
  - constructor; [lra | constructor].
  - destruct (Qlt_le_dec x y) as [H|H].
    + specialize (IH y). inversion IH as [|? ? Hy Hl]; subst.
      constructor; [lra | constructor; assumption].
    + specialize (IH x). inversion IH as [|? ? Hx Hl]; subst.
      constructor; [assumption | constructor; [lra | assumption]].
Qed.

Lemma max_from_In (x : Q) (l : list Q) : In (Py.max_from x l) (x :: l).
Proof.
  revert x. induction l as [|y l IH]; intros x; cbn.
  - left; reflexivity.
  - destruct (Qlt_le_dec x y).
    + right. apply IH.
    + destruct (IH x) as [H|H]; [left | right; right]; assumption.
Qed.

Lemma truthy_true (x : Q) : Py.truthy x = true <-> ~ x == 0.
Proof.
  unfold Py.truthy. rewrite negb_true_iff.
  split; intros H.
  - intros Heq. apply Qeq_bool_iff in Heq. congruence.
  - destruct (Qeq_bool x 0) eqn:E; [|reflexivity].
    apply Qeq_bool_iff in E. contradiction.
Qed.

Lemma truthy_pos (x : Q) : 0 < x -> Py.truthy x = true.
Proof. intros H. apply truthy_true. lra. Qed.

Lemma truthy_zero (x : Q) : x == 0 -> Py.truthy x = false.
Proof.
  intros H. unfold Py.truthy. apply negb_false_iff.
  apply Qeq_bool_iff. assumption.
Qed.

End Statistics.

(** ** The two probe loops *)

Section ProbeLoop.

Variable gen : M string.
Variable ip : string.
Variable e : Env.

Lemma test_single_server_reduce (name : string) (query_count : nat)
    (w : World) :
  fst (test_single_server name ip query_count e w) =
  reduce name ip query_count
    (cached_samples ip query_count e w)
    (uncached_samples ip query_count e w).
Proof.
  unfold test_single_server, cached_samples, uncached_samples, bind.
  destruct (probe_loop (ret "google.com") ip query_count [] e w) as [c w1].
  cbn [fst snd].
  destruct (probe_loop random_domain ip query_count [] e w1) as [u w2].
  reflexivity.
Qed.

Lemma probe_loop_S (n : nat) (times : list Q) (w : World) :
  probe_loop gen ip (S n) times e w =
  let (running, w1) := is_running e w in
  if running : bool then
    let (domain, w2) := gen e w1 in
    let (r, w3) := timed_udp ip domain e w2 in
    probe_loop gen ip n
      (match r with
       | Some t => if Qlt_le_dec 0 t then times ++ [t] else times
       | None => times
       end) e w3
  else (times, w1).
Proof.
  cbn [probe_loop]. unfold bind.
  destruct (is_running e w) as [[|] w1]; [|reflexivity].
  destruct (gen e w1) as [d w2]. reflexivity.
Qed.

Lemma probe_loop_positive (n : nat) :
  forall times w,
    Forall (fun t => 0 < t) times ->
    Forall (fun t => 0 < t) (fst (probe_loop gen ip n times e w)).
Proof.
  induction n as [|n IH]; intros times w Hpos.
  - exact Hpos.
  - rewrite probe_loop_S.
    destruct (is_running e w) as [[|] w1]; [|exact Hpos].
    destruct (gen e w1) as [d w2].
    destruct (timed_udp ip d e w2) as [[t|] w3]; apply IH; [|exact Hpos].
    destruct (Qlt_le_dec 0 t); [|exact Hpos].
    apply Forall_app; split; [exact Hpos|].
    constructor; [assumption | constructor].
Qed.

Lemma probe_loop_length (n : nat) :
  forall times w,
    (List.length (fst (probe_loop gen ip n times e w))
     <= List.length times + n)%nat.
Proof.
  induction n as [|n IH]; intros times w.
  - cbn. lia.
  - rewrite probe_loop_S.
    destruct (is_running e w) as [[|] w1]; [|cbn; lia].
    destruct (gen e w1) as [d w2].
    destruct (timed_udp ip d e w2) as [[t|] w3];
      (etransitivity; [apply IH|]); [|lia].
    destruct (Qlt_le_dec 0 t); [rewrite length_app; cbn|]; lia.
Qed.

Hypothesis gen_quiet : quiet gen.

Lemma gen_queries (w : World) : queries (snd (gen e w)) = queries w.
Proof. apply gen_quiet. Qed.

Lemma probe_loop_queries (n : nat) :
  forall times w,
    (queries w <= queries (snd (probe_loop gen ip n times e w))
     <= queries w + n)%nat.
Proof.
  induction n as [|n IH]; intros times w.
  - cbn. lia.
  - rewrite probe_loop_S.
    destruct (is_running e w) as [[|] w1] eqn:E1;
      injection E1 as _ <-; [|cbn; lia].
    match goal with |- context [gen e ?w1] =>
      pose proof (gen_queries w1) as Hq;
      destruct (gen e w1) as [d w2] end.
    unfold timed_udp, udp_query.
    match goal with |- context [probe_loop gen ip n ?t e ?w3] =>
      specialize (IH t w3) end.
    cbn [snd queries] in *. lia.
Qed.

(** When every call raises, no sample is recorded. *)
Lemma probe_loop_all_fail (n : nat) :
  forall times w,
    (forall i, (queries w <= i < queries w + n)%nat -> udp e i = None) ->
    fst (probe_loop gen ip n times e w) = times.
Proof.
  induction n as [|n IH]; intros times w Hfail.
  - reflexivity.
  - rewrite probe_loop_S.
    destruct (is_running e w) as [[|] w1] eqn:E1;
      injection E1 as _ <-; [|reflexivity].
    match goal with |- context [gen e ?w1] =>
      pose proof (gen_queries w1) as Hq;
      destruct (gen e w1) as [d w2] end.
    cbn [snd queries] in Hq.
    unfold timed_udp, udp_query.
    rewrite (Hfail (queries w2)) by lia.
    apply IH. intros i Hi. cbn [queries] in Hi. apply Hfail. lia.
Qed.

End ProbeLoop.

Lemma quiet_ret (d : string) : quiet (ret d).
Proof. intros e w. cbn. auto. Qed.

Lemma quiet_random_domain : quiet random_domain.
Proof. intros e w. cbn. auto. Qed.

(** ** One campaign: [test_single_server] *)

Section Campaign.

Variable e : Env.
Variable w : World.
Variables sname sip : string.
Variable query_count : nat.

Lemma campaign_result_reduce :
  campaign_result sname sip query_count e w =
  reduce sname sip query_count
    (cached_samples sip query_count e w)
    (uncached_samples sip query_count e w).
Proof. apply test_single_server_reduce. Qed.

Lemma cached_positive :
  Forall (fun t => 0 < t) (cached_samples sip query_count e w).
Proof. apply probe_loop_positive. constructor. Qed.

Lemma uncached_positive :
  Forall (fun t => 0 < t) (uncached_samples sip query_count e w).
Proof. apply probe_loop_positive. constructor. Qed.

Lemma cached_length :
  (List.length (cached_samples sip query_count e w) <= query_count)%nat.
Proof. apply (probe_loop_length _ _ _ query_count []). Qed.

Lemma uncached_length :
  (List.length (uncached_samples sip query_count e w) <= query_count)%nat.
Proof. apply (probe_loop_length _ _ _ query_count []). Qed.

Lemma successful_le :
  (List.length (all_samples sip query_count e w) <= query_count * 2)%nat.
Proof.
  unfold all_samples. rewrite length_app.
  pose proof cached_length. pose proof uncached_length. lia.
Qed.

End Campaign.

Lemma mean_or_zero_pos (l : list Q) :
  l <> [] -> Forall (fun t => 0 < t) l -> 0 < mean_or_zero l.
Proof.
  intros Hne HF. destruct l as [|x l]; [congruence|].
  apply (mean_pos (x :: l)); assumption.
Qed.

Lemma mean_or_zero_bounds (lo hi : Q) (l : list Q) :
  l <> [] -> Forall (fun t => lo <= t <= hi) l ->
  lo <= mean_or_zero l <= hi.
Proof.
  intros Hne HF. destruct l as [|x l]; [congruence|].
  apply (mean_bounds lo hi (x :: l)); assumption.
Qed.

(** The value of [overall_avg], by which phases have samples. *)
Lemma overall_avg_reduce (sname sip : string) (query_count : nat)
    (c u : list Q) :
  Forall (fun t => 0 < t) c ->
  Forall (fun t => 0 < t) u ->
  overall_avg (reduce sname sip query_count c u) ==
  match c, u with
  | [], [] => 0
  | _ :: _, [] => mean_or_zero c
  | [], _ :: _ => mean_or_zero u
  | _ :: _, _ :: _ => (mean_or_zero c + mean_or_zero u) / 2
  end.
Proof.
  intros Hc Hu. cbn [reduce overall_avg].
  destruct c as [|x c], u as [|y u].
  - reflexivity.
  - assert (H : 0 < mean_or_zero (y :: u))
      by (apply mean_or_zero_pos; [discriminate | assumption]).
    change (mean_or_zero []) with 0.
    rewrite (truthy_zero 0) by reflexivity. cbn [andb].
    unfold Py.max2. destruct (Qlt_le_dec 0 (mean_or_zero (y :: u))); lra.
  - assert (H : 0 < mean_or_zero (x :: c))
      by (apply mean_or_zero_pos; [discriminate | assumption]).
    change (mean_or_zero []) with 0.
    rewrite (truthy_zero 0) by reflexivity. rewrite andb_false_r.
    unfold Py.max2. destruct (Qlt_le_dec (mean_or_zero (x :: c)) 0); lra.
  - rewrite !truthy_pos
      by (apply mean_or_zero_pos; [discriminate | assumption]).
    reflexivity.
Qed.

(** C1.  [overall_avg] of the result of a campaign: the mean of
    [cached_avg] and [uncached_avg] when both phases recorded samples,
    the non-zero one of the two when exactly one phase did, 0 when none
    did; and whenever both averages are positive it is exactly their
    half-sum. *)
Theorem overall_avg_by_phase (e : Env) (w : World) (sname sip : string)
    (query_count : nat) :
  let r := campaign_result sname sip query_count e w in
  let c := cached_samples sip query_count e w in
  let u := uncached_samples sip query_count e w in
  (c <> [] -> u <> [] ->
     overall_avg r == (cached_avg r + uncached_avg r) / 2) /\
  (c <> [] -> u = [] ->
     ~ cached_avg r == 0 /\ uncached_avg r == 0 /\
     overall_avg r == cached_avg r) /\
  (c = [] -> u <> [] ->
     cached_avg r == 0 /\ ~ uncached_avg r == 0 /\
     overall_avg r == uncached_avg r) /\
  (c = [] -> u = [] -> overall_avg r == 0) /\
  (0 < cached_avg r -> 0 < uncached_avg r ->
     overall_avg r == (cached_avg r + uncached_avg r) / 2).
Proof.
  intros r c u.
  pose proof (cached_positive e w sip query_count) as Hc.
  pose proof (uncached_positive e w sip query_count) as Hu.
  pose proof (overall_avg_reduce sname sip query_count c u Hc Hu) as Ho.
  assert (Hr : r = reduce sname sip query_count c u)
    by apply test_single_server_reduce.
  fold c in Hc. fold u in Hu. clearbody r c u. subst r.
  cbn [cached_avg uncached_avg reduce] in *.
  split; [|split; [|split; [|split]]].
  - intros Hc0 Hu0. destruct c, u; first [congruence | exact Ho].
  - intros Hc0 ->. pose proof (mean_or_zero_pos c Hc0 Hc).
    destruct c; [congruence|]. change (mean_or_zero []) with 0 in *.
    split; [lra | split; [reflexivity | exact Ho]].
  - intros -> Hu0. pose proof (mean_or_zero_pos u Hu0 Hu).
    destruct u; [congruence|]. change (mean_or_zero []) with 0 in *.
    split; [reflexivity | split; [lra | exact Ho]].
  - intros -> ->. exact Ho.
  - intros Hc0 Hu0. destruct c as [|x c]; [cbn in Hc0; lra|].
    destruct u as [|y u]; [cbn in Hu0; lra|]. exact Ho.
Qed.

(** C3.  Reliability of the result of a campaign, whatever the probes did
    and whenever the stop came: between 0 and 100, at most [total_queries]
    successes, the ratio of successes times 100, and 0 when
    [total_queries] is 0. *)
Theorem reliability_invariant (e : Env) (w : World) (sname sip : string)
    (query_count : nat) :
  let r := campaign_result sname sip query_count e w in
  0 <= reliability r <= 100 /\
  (successful r <= total_queries r)%nat /\
  (total_queries r = 0%nat -> reliability r == 0) /\
  (total_queries r <> 0%nat ->
     reliability r ==
     inject_Z (Z.of_nat (successful r))
     / inject_Z (Z.of_nat (total_queries r)) * 100).
Proof.
  intros r.
  pose proof (successful_le e w sip query_count) as Hle.
  assert (Hr : r = reduce sname sip query_count
                 (cached_samples sip query_count e w)
                 (uncached_samples sip query_count e w))
    by apply test_single_server_reduce.
  clearbody r. subst r.
  cbn [reliability successful total_queries reduce].
  fold (all_samples sip query_count e w).
  set (all := all_samples sip query_count e w) in *. clearbody all.
  destruct query_count as [|q].
  - split; [lra | split; [exact Hle | split; [reflexivity|]]].
    intros H. cbn in H. congruence.
  - set (tot := (S q * 2)%nat) in *.
    assert (Htot : 0 < inject_Z (Z.of_nat tot)).
    { change 0 with (inject_Z 0). rewrite <- Zlt_Qlt. lia. }
    assert (Hlen : Py.len all <= inject_Z (Z.of_nat tot)).
    { unfold Py.len. rewrite <- Zle_Qle. lia. }
    pose proof (len_nonneg all) as H0.
    assert (Hdiv0 : 0 <= Py.len all / inject_Z (Z.of_nat tot)).
    { apply Qle_shift_div_l; [assumption | lra]. }
    assert (Hdiv1 : Py.len all / inject_Z (Z.of_nat tot) <= 1).
    { apply Qle_shift_div_r; [assumption | lra]. }
    split; [lra | split; [exact Hle | split]].
    + intros H. subst tot. lia.
    + intros _. reflexivity.
Qed.

(** The fallback result [ServerResult(name=name, ip=ip)] meets the same
    bounds. *)
Lemma default_result_invariant (sname sip : string) :
  let r := default_result sname sip in
  0 <= reliability r <= 100 /\
  (successful r <= total_queries r)%nat /\
  reliability r == 0 /\ total_queries r = 0%nat.
Proof.
  cbn. split; [lra|]. split; [lia|]. split; reflexivity.
Qed.

Lemma test_single_server_world (e : Env) (w : World) (sname sip : string)
    (query_count : nat) :
  snd (test_single_server sname sip query_count e w) =
  snd (probe_loop random_domain sip query_count [] e
         (snd (probe_loop (ret "google.com") sip query_count [] e w))).
Proof.
  unfold test_single_server, bind.
  destruct (probe_loop (ret "google.com") sip query_count [] e w) as [c w1].
  cbn [snd].
  destruct (probe_loop random_domain sip query_count [] e w1) as [u w2].
  reflexivity.
Qed.

Lemma test_single_server_queries (e : Env) (w : World) (sname sip : string)
    (query_count : nat) :
  (queries w
   <= queries (snd (test_single_server sname sip query_count e w))
   <= queries w + 2 * query_count)%nat.
Proof.
  rewrite test_single_server_world.
  pose proof (probe_loop_queries (ret "google.com") sip e
                (quiet_ret _) query_count [] w) as H1.
  pose proof (probe_loop_queries random_domain sip e
                quiet_random_domain query_count []
                (snd (probe_loop (ret "google.com") sip query_count [] e w)))
    as H2.
  lia.
Qed.

Lemma extremes_bound (x : Q) (l : list Q) :
  Forall (fun t => Py.min_from x l <= t <= Py.max_from x l) (x :: l).
Proof.
  pose proof (min_from_lower x l) as Hlo.
  pose proof (max_from_upper x l) as Hhi.
  rewrite Forall_forall in *. intros t Ht. split; auto.
Qed.

Lemma half_sum_between (lo hi a b : Q) :
  lo <= a <= hi -> lo <= b <= hi -> lo <= (a + b) / 2 <= hi.
Proof.
  intros Ha Hb. unfold Qdiv. change (/ 2) with (1 # 2). lra.
Qed.

Section CampaignClaims.

Variable e : Env.
Variable w : World.
Variables sname sip : string.
Variable query_count : nat.

Local Abbreviation r := (campaign_result sname sip query_count e w).
Local Abbreviation all := (all_samples sip query_count e w).

(** C6.  When a campaign recorded at least one sample, [min_time] and
    [max_time] are the least and the greatest of the cached and uncached
    samples taken together, and [overall_avg] lies between them. *)
Theorem overall_avg_between_extremes :
  (0 < successful (campaign_result sname sip query_count e w))%nat ->
  min_time r <= overall_avg r <= max_time r /\
  In (min_time r) all /\
  In (max_time r) all /\
  Forall (fun t => min_time r <= t <= max_time r) all.
Proof.
  unfold all_samples.
  pose proof (cached_positive e w sip query_count) as Hc.
  pose proof (uncached_positive e w sip query_count) as Hu.
  pose proof (overall_avg_reduce sname sip query_count _ _ Hc Hu) as Ho.
  rewrite campaign_result_reduce.
  set (c := cached_samples sip query_count e w) in *.
  set (u := uncached_samples sip query_count e w) in *. clearbody c u.
  cbn [successful min_time max_time reduce]. intros Hsucc.
  destruct (c ++ u) as [|x l] eqn:Eall; [cbn in Hsucc; lia|].
  pose proof (extremes_bound x l) as Hall.
  split; [|split; [apply min_from_In | split;
                   [apply max_from_In | exact Hall]]].
  set (lo := Py.min_from x l) in *. set (hi := Py.max_from x l) in *.
  rewrite <- Eall in Hall. apply Forall_app in Hall as [Hcb Hub].
  rewrite Ho. destruct c as [|x1 c], u as [|y1 u].
  - discriminate.
  - apply mean_or_zero_bounds; [discriminate | assumption].
  - apply mean_or_zero_bounds; [discriminate | assumption].
  - pose proof (mean_or_zero_bounds lo hi (x1 :: c)
                  ltac:(discriminate) Hcb).
    pose proof (mean_or_zero_bounds lo hi (y1 :: u)
                  ltac:(discriminate) Hub).
    apply half_sum_between; assumption.
Qed.

(** C8.  When every query of the campaign raises, the campaign still
    returns a result for the server, with no success, reliability 0 and
    all three averages 0. *)
Theorem failing_server_result :
  (forall i, (queries w <= i < queries w + 2 * query_count)%nat ->
             udp e i = None) ->
  name (campaign_result sname sip query_count e w) = sname /\
  ip r = sip /\
  reliability r == 0 /\
  cached_avg r == 0 /\ uncached_avg r == 0 /\ overall_avg r == 0 /\
  min_time r == 0 /\ max_time r == 0 /\
  successful r = 0%nat /\ total_queries r = (2 * query_count)%nat.
Proof.
  intros Hfail.
  assert (Hc : cached_samples sip query_count e w = []).
  { apply probe_loop_all_fail; [apply quiet_ret|].
    intros i Hi. apply Hfail. lia. }
  assert (Hu : uncached_samples sip query_count e w = []).
  { apply probe_loop_all_fail; [apply quiet_random_domain|].
    pose proof (probe_loop_queries (ret "google.com") sip e
                  (quiet_ret _) query_count [] w).
    intros i Hi. apply Hfail. lia. }
  rewrite campaign_result_reduce, Hc, Hu.
  cbn [name ip reliability cached_avg uncached_avg overall_avg min_time
       max_time successful total_queries reduce app mean_or_zero
       List.length].
  repeat (split; [reflexivity|]).
  split.
  - destruct query_count; [reflexivity|].
    change (Py.len []) with 0. unfold Qdiv. rewrite !Qmult_0_l.
    reflexivity.
  - repeat (split; [reflexivity|]). lia.
Qed.

(** C10.  With a positive [query_count] the result always records
    [total_queries = 2 * query_count], and the reliability is the number
    of successes over that constant, however few queries the campaign
    sent before it was stopped. *)
Theorem total_queries_ignores_cancellation :
  (0 < query_count)%nat ->
  total_queries (campaign_result sname sip query_count e w)
    = (2 * query_count)%nat /\
  reliability r ==
    inject_Z (Z.of_nat (successful r))
    / inject_Z (Z.of_nat (2 * query_count)) * 100 /\
  (queries (snd (test_single_server sname sip query_count e w)) - queries w
   <= total_queries r)%nat.
Proof.
  intros Hq. pose proof (test_single_server_queries e w sname sip query_count).
  rewrite campaign_result_reduce.
  cbn [total_queries reliability successful reduce].
  destruct query_count as [|q]; [lia|].
  replace (2 * S q)%nat with (S q * 2)%nat by lia.
  split; [reflexivity | split; [reflexivity | lia]].
Qed.

End CampaignClaims.

(** ** Names queried by the uncached loop *)

Lemma ascii_lowercase_lowercase : Forall lowercase ascii_lowercase.
Proof. unfold lowercase. repeat constructor. Qed.

Lemma random_choice_lowercase (e : Env) (w : World) :
  lowercase (fst (random_choice e w)).
Proof.
  pose proof ascii_lowercase_lowercase as H.
  rewrite Forall_forall in H. apply H.
  unfold random_choice. cbn [fst]. apply nth_In.
  change (List.length ascii_lowercase) with 26%nat.
  apply Nat.mod_upper_bound. discriminate.
Qed.

Lemma random_choices_spec (k : nat) :
  forall e w,
    List.length (fst (random_choices k e w)) = k /\
    Forall lowercase (fst (random_choices k e w)) /\
    polls (snd (random_choices k e w)) = polls w /\
    queries (snd (random_choices k e w)) = queries w /\
    trace (snd (random_choices k e w)) = trace w.
Proof.
  induction k as [|k IH]; intros e w.
  - cbn. auto.
  - cbn [random_choices]. unfold bind.
    pose proof (random_choice_lowercase e w) as Hc.
    destruct (random_choice e w) as [c w1] eqn:E1.
    assert (Hw1 : polls w1 = polls w /\ queries w1 = queries w
                  /\ trace w1 = trace w)
      by (unfold random_choice in E1; injection E1 as _ <-; cbn; auto).
    destruct Hw1 as (Hp & Hq & Ht).
    specialize (IH e w1). destruct (random_choices k e w1) as [cs w2].
    cbn [fst snd ret] in *. destruct IH as (Hl & HF & Hp' & Hq' & Ht').
    split; [cbn; congruence|].
    split; [constructor; assumption|].
    repeat split; congruence.
Qed.

Lemma random_domain_spec (e : Env) (w : World) :
  random_name (fst (random_domain e w)) /\
  trace (snd (random_domain e w)) = trace w.
Proof.
  unfold random_domain, bind.
  pose proof (random_choices_spec 8 e w) as (Hl & HF & _ & _ & Ht).
  destruct (random_choices 8 e w) as [cs w1]. cbn [fst snd ret] in *.
  split; [|exact Ht]. exists cs. auto.
Qed.

(** What a probe loop appends to the trace: one query per generated
    name. *)
Lemma probe_loop_trace (gen : M string) (P : string -> Prop)
    (ip : string) (e : Env) :
  (forall w, P (fst (gen e w)) /\ trace (snd (gen e w)) = trace w) ->
  forall n times w,
  exists names,
    trace (snd (probe_loop gen ip n times e w)) =
      trace w ++ map (fun d => EvQuery ip d rdatatype.A false) names /\
    Forall P names /\ (List.length names <= n)%nat.
Proof.
  intros Hgen. induction n as [|n IH]; intros times w.
  - exists []. cbn. rewrite app_nil_r.
    split; [reflexivity | split; [constructor | lia]].
  - rewrite probe_loop_S.
    destruct (is_running e w) as [[|] w1] eqn:E1; injection E1 as _ <-.
    + match goal with |- context [gen e ?w1] =>
        destruct (Hgen w1) as [HP Ht];
        destruct (gen e w1) as [d w2] end.
      cbn [fst snd trace] in HP, Ht.
      unfold timed_udp, udp_query.
      match goal with |- context [probe_loop gen ip n ?t e ?w3] =>
        destruct (IH t w3) as (names & Htr & HF & Hlen) end.
      exists (d :: names). cbn [trace] in Htr. rewrite Htr, Ht.
      cbn [map List.length]. rewrite <- app_assoc.
      split; [reflexivity | split; [constructor; assumption | lia]].
    + exists []. cbn. rewrite app_nil_r.
      split; [reflexivity | split; [constructor | lia]].
Qed.

Lemma qnames_queries (ip : string) (names : list string) :
  qnames (map (fun d => EvQuery ip d rdatatype.A false) names) = names.
Proof.
  induction names as [|d names IH]; [reflexivity|].
  cbn. f_equal. exact IH.
Qed.

Lemma skipn_length_app {A : Type} (l l' : list A) :
  skipn (List.length l) (l ++ l') = l'.
Proof. induction l as [|x l IH]; [reflexivity | exact IH]. Qed.

Lemma random_domain_draws (e : Env) (w : World) :
  random_domain e w =
  (drawn_name e (draws w),
   mkWorld (polls w) (queries w) (8 + draws w) (trace w)).
Proof. reflexivity. Qed.

Lemma cached_loop_draws (d ip : string) (e : Env) (n : nat) :
  forall times w,
    draws (snd (probe_loop (ret d) ip n times e w)) = draws w.
Proof.
  induction n as [|n IH]; intros times w; [reflexivity|].
  rewrite probe_loop_S. unfold is_running, ret, timed_udp, udp_query.
  destruct (match cancel_at e with
            | Some k => (polls w <? k)%nat
            | None => true
            end); [|reflexivity].
  rewrite IH. reflexivity.
Qed.

(** Each query of the uncached loop uses eight draws of its own. *)
Lemma uncached_loop_names (ip : string) (e : Env) (n : nat) :
  forall times w,
  exists m,
    (m <= n)%nat /\
    trace (snd (probe_loop random_domain ip n times e w)) =
      trace w
      ++ map (fun j => EvQuery ip (drawn_name e (draws w + 8 * j))
                         rdatatype.A false)
             (seq 0 m).
Proof.
  induction n as [|n IH]; intros times w.
  - exists 0%nat. cbn. rewrite app_nil_r. split; [lia | reflexivity].
  - rewrite probe_loop_S. unfold is_running.
    destruct (match cancel_at e with
              | Some k => (polls w <? k)%nat
              | None => true
              end).
    + rewrite random_domain_draws. unfold timed_udp, udp_query.
      cbn [polls queries draws trace].
      match goal with |- context [probe_loop _ ip n ?t e ?w3] =>
        destruct (IH t w3) as (m & Hm & Htr) end.
      exists (S m). split; [lia|].
      rewrite Htr. cbn [trace draws]. rewrite <- app_assoc.
      cbn [seq map app]. rewrite Nat.mul_0_r, Nat.add_0_r.
      do 2 f_equal. rewrite <- seq_shift, map_map.
      apply map_ext. intros j. do 2 f_equal. lia.
    + exists 0%nat. cbn. rewrite app_nil_r. split; [lia | reflexivity].
Qed.

(** C9 (as the code has it).  Every query of the uncached loop asks for a
    name made of eight lowercase letters and [".com"], built from eight
    draws of its own: the [j]-th name of the campaign comes from the draws
    [8 * j .. 8 * j + 7] after those already made.  The letters are
    whatever the generator draws, with replacement. *)
Theorem uncached_names_shape (e : Env) (w : World) (sip : string)
    (query_count : nat) :
  Forall random_name (uncached_names sip query_count e w) /\
  uncached_trace sip query_count e w =
    map (fun d => EvQuery sip d rdatatype.A false)
        (uncached_names sip query_count e w) /\
  (exists m,
     (m <= query_count)%nat /\
     uncached_names sip query_count e w =
       map (fun j => drawn_name e (draws w + 8 * j)) (seq 0 m)).
Proof.
  unfold uncached_names, uncached_trace.
  pose proof (cached_loop_draws "google.com" sip e query_count [] w) as Hd.
  set (w1 := snd (probe_loop (ret "google.com") sip query_count [] e w))
    in *.
  destruct (probe_loop_trace random_domain random_name sip e
              (random_domain_spec e) query_count [] w1)
    as (names & Htr & HF & Hlen).
  destruct (uncached_loop_names sip e query_count [] w1)
    as (m & Hm & Htr').
  rewrite Htr' in Htr. apply app_inv_head in Htr.
  assert (Hnames : names =
            map (fun j => drawn_name e (draws w1 + 8 * j)) (seq 0 m)).
  { rewrite <- (qnames_queries sip names), <- Htr.
    rewrite <- (map_map (fun j => drawn_name e (draws w1 + 8 * j))
                  (fun d => EvQuery sip d rdatatype.A false)).
    apply qnames_queries. }
  rewrite Htr', skipn_length_app, Htr, qnames_queries.
  split; [exact HF|]. split; [reflexivity|].
  exists m. split; [exact Hm|]. rewrite <- Hd. exact Hnames.
Qed.

(** ** SecurityThread: one probe and one status per server *)

Lemma has_rdtype_carries (t : Z) (answer : list RRset) :
  has_rdtype t answer = true <-> carries t answer.
Proof.
  unfold has_rdtype, carries. rewrite existsb_exists, Exists_exists.
  split; intros (rr & Hin & H); exists rr; split; auto;
    apply Z.eqb_eq; assumption.
Qed.

Lemma classify_spec (answer : list RRset) :
  status_spec (Some answer) (classify answer).
Proof.
  unfold classify.
  destruct (has_rdtype rdatatype.RRSIG answer) eqn:Hsig.
  - apply status_valid, has_rdtype_carries, Hsig.
  - assert (~ carries rdatatype.RRSIG answer)
      by (rewrite <- has_rdtype_carries; congruence).
    destruct (has_rdtype rdatatype.DNSKEY answer) eqn:Hkey.
    + apply status_signed; [assumption|].
      apply has_rdtype_carries, Hkey.
    + apply status_unsigned; [assumption|].
      rewrite <- has_rdtype_carries. congruence.
Qed.

Lemma security_loop_cons (total i : nat) (sname sip : string)
    (rest : list (string * string)) (e : Env) (w : World) :
  security_loop total i ((sname, sip) :: rest) e w =
  let (running, w1) := is_running e w in
  if running : bool then
    let (r, w2) := udp_query sip "cloudflare.com" rdatatype.DNSKEY true e w1 in
    let status := match r with
                  | Some answer => classify answer
                  | None => "error"
                  end in
    let (_, w3) := emit (EvSecResult sname status) e w2 in
    let (_, w4) := match progress_val (S i) total with
                   | Some p => emit (EvSecProgress p)
                   | None => ret tt
                   end e w3 in
    security_loop total (S i) rest e w4
  else (tt, w1).
Proof.
  cbn [security_loop]. unfold bind, check_server, bind, ret.
  destruct (is_running e w) as [[|] w1]; [|reflexivity].
  destruct (udp_query sip "cloudflare.com" rdatatype.DNSKEY true e w1)
    as [r w2].
  reflexivity.
Qed.

Lemma security_loop_cycle (e : Env) (total : nat)
    (servers : list (string * string)) :
  forall i w,
  exists body,
    without_progress (trace (snd (security_loop total i servers e w))) =
      without_progress (trace w) ++ body /\
    cycle e (queries w) (firstn (reached e w servers) servers) body.
Proof.
  induction servers as [|[sname sip] rest IH]; intros i w.
  - exists []. cbn [security_loop ret snd]. rewrite app_nil_r.
    split; [reflexivity|]. rewrite firstn_nil. constructor.
  - rewrite security_loop_cons.
    destruct (is_running e w) as [running w1] eqn:E1.
    unfold is_running in E1. injection E1 as Hrun <-.
    destruct running.
    + unfold udp_query. cbv beta iota zeta.
      cbn [polls queries draws trace].
      set (status := match udp e (queries w) with
                     | Some answer => classify answer
                     | None => "error"
                     end).
      assert (Hst : status_spec (udp e (queries w)) status).
      { subst status. destruct (udp e (queries w));
          [apply classify_spec | constructor]. }
      clearbody status. cbv beta iota zeta. unfold emit at 1.
      cbn [polls queries draws trace].
      set (w3 := mkWorld _ _ _ _).
      destruct (match progress_val (S i) total with
                | Some p => emit (EvSecProgress p)
                | None => ret tt
                end e w3) as [[] w4] eqn:E4.
      assert (Hw4 : polls w4 = S (polls w) /\ queries w4 = S (queries w)
                    /\ without_progress (trace w4) =
                       without_progress (trace w)
                       ++ [EvQuery sip "cloudflare.com"
                             rdatatype.DNSKEY true;
                           EvSecResult sname status]).
      { destruct (progress_val (S i) total); injection E4 as <-;
          (split; [reflexivity | split; [reflexivity|]]);
          subst w3; cbn [trace]; unfold without_progress;
          rewrite !filter_app; cbn; rewrite <- ?app_assoc, ?app_nil_r;
          reflexivity. }
      clearbody w3. clear E4. destruct Hw4 as (Hp & Hq & Ht).
      destruct (IH (S i) w4) as (body & Htr & Hcy).
      exists (EvQuery sip "cloudflare.com" rdatatype.DNSKEY true
              :: EvSecResult sname status :: body).
      split.
      * rewrite Htr, Ht, <- app_assoc. reflexivity.
      * assert (Hreach : reached e w ((sname, sip) :: rest)
                         = S (reached e w4 rest)).
        { unfold reached in *. rewrite Hp.
          destruct (cancel_at e) as [k|]; [|reflexivity].
          apply Nat.ltb_lt in Hrun. cbn [List.length]. lia. }
        rewrite Hreach. cbn [firstn]. rewrite Hq in Hcy.
        constructor; assumption.
    + exists []. cbn [snd trace polls]. rewrite app_nil_r.
      split; [reflexivity|].
      assert (Hreach : reached e w ((sname, sip) :: rest) = 0%nat).
      { unfold reached. destruct (cancel_at e) as [k|]; [|discriminate].
        apply Nat.ltb_ge in Hrun. lia. }
      rewrite Hreach. constructor.
Qed.

(** C5.  In a check cycle every server reached before a stop receives
    exactly one query (DNSKEY of cloudflare.com, DNSSEC requested),
    followed at once by its status: "error" when the query raised,
    otherwise "valid" when the answer section carries an RRSIG, else
    "signed" when it carries a DNSKEY, else "unsigned".  Nothing is sent
    twice, and the cycle ends with the finished signal.  Without a stop
    every server is reached. *)
Theorem security_cycle_one_probe_each (e : Env)
    (servers : list (string * string)) :
  exists body,
    without_progress (trace (snd (security_run servers e init_world))) =
      body ++ [EvSecFinished] /\
    cycle e 0 (firstn (reached e init_world servers) servers) body /\
    (cancel_at e = None -> reached e init_world servers = List.length servers).
Proof.
  unfold security_run, bind.
  destruct (security_loop_cycle e (List.length servers) servers 0 init_world)
    as (body & Htr & Hcy).
  destruct (security_loop (List.length servers) 0 servers e init_world)
    as [[] w1].
  cbn [snd emit trace] in *. exists body.
  split; [|split].
  - unfold without_progress in *. rewrite filter_app, Htr. reflexivity.
  - exact Hcy.
  - intros Hc. unfold reached. rewrite Hc. reflexivity.
Qed.

(** ** BenchThread.run: what a campaign does to the world *)

Lemma skeleton_app (tr tr' : list Event) :
  skeleton (tr ++ tr') = skeleton tr ++ skeleton tr'.
Proof. apply filter_app. Qed.

Lemma skeleton_queries (ip : string) (names : list string) :
  skeleton (map (fun d => EvQuery ip d rdatatype.A false) names) = [].
Proof. induction names as [|d names IH]; [reflexivity | exact IH]. Qed.

Section ProbeLoopPolls.

Variable gen : M string.
Variable ip : string.
Variable e : Env.
Hypothesis gen_quiet : quiet gen.
Hypothesis gen_blind : forall w, gen e w = gen (never_cancelled e) w.

Lemma probe_loop_polls (n : nat) :
  forall times w,
    (polls w <= polls (snd (probe_loop gen ip n times e w))
     <= polls w + n)%nat /\
    (polls (snd (probe_loop gen ip n times e w)) = (polls w + n)%nat \/
     stop_seen e (snd (probe_loop gen ip n times e w))).
Proof.
  induction n as [|n IH]; intros times w.
  - cbn. split; [lia | left; lia].
  - rewrite probe_loop_S.
    destruct (is_running e w) as [running w1] eqn:E1.
    unfold is_running in E1. injection E1 as Hrun <-.
    destruct running.
    + match goal with |- context [gen e ?w1] =>
        pose proof (gen_quiet e w1) as (Hp & _);
        destruct (gen e w1) as [d w2] end.
      unfold timed_udp, udp_query. cbn [snd polls] in Hp.
      match goal with |- context [probe_loop gen ip n ?t e ?w3] =>
        destruct (IH t w3) as (Hb & Hd);
        set (w' := snd (probe_loop gen ip n t e w3)) in * end.
      clearbody w'. cbn [polls] in Hb, Hd.
      split; [lia|]. destruct Hd as [Hd|Hd]; [left; lia | right; exact Hd].
    + cbn [snd polls]. split; [lia|]. right.
      destruct (cancel_at e) as [k|] eqn:Hk; [|discriminate].
      exists k. apply Nat.ltb_ge in Hrun. cbn [polls]. split; [exact Hk | lia].
Qed.

(** A loop whose every poll comes before the stop runs as if nobody
    stopped it. *)
Lemma probe_loop_agree (k n : nat) :
  cancel_at e = Some k ->
  forall times w,
    (polls w + n <= k)%nat ->
    probe_loop gen ip n times e w =
    probe_loop gen ip n times (never_cancelled e) w.
Proof.
  intros Hk. induction n as [|n IH]; intros times w Hle.
  - reflexivity.
  - cbn [probe_loop]. unfold bind, is_running. rewrite Hk.
    cbn [cancel_at never_cancelled].
    replace (polls w <? k)%nat with true
      by (symmetry; apply Nat.ltb_lt; lia).
    match goal with |- context [gen e ?w1] =>
      rewrite <- (gen_blind w1);
      pose proof (gen_quiet e w1) as (Hp & _);
      destruct (gen e w1) as [d w2] end.
    cbn [snd polls] in Hp.
    unfold timed_udp, udp_query. cbn [udp elapsed never_cancelled].
    apply IH. cbn [polls]. lia.
Qed.

End ProbeLoopPolls.

Lemma random_domain_blind (e : Env) (w : World) :
  random_domain e w = random_domain (never_cancelled e) w.
Proof. reflexivity. Qed.

Section OneCampaign.

Variable e : Env.
Variables sname sip : string.
Variable query_count : nat.
Variable w : World.

Lemma test_single_server_polls :
  (polls w <= polls (snd (test_single_server sname sip query_count e w))
   <= polls w + 2 * query_count)%nat /\
  (polls (snd (test_single_server sname sip query_count e w))
     = (polls w + 2 * query_count)%nat \/
   stop_seen e (snd (test_single_server sname sip query_count e w))).
Proof.
  rewrite test_single_server_world.
  destruct (probe_loop_polls (ret "google.com") sip e (quiet_ret _)
              query_count [] w) as (Ha & Hda).
  set (w1 := snd (probe_loop (ret "google.com") sip query_count [] e w))
    in *.
  destruct (probe_loop_polls random_domain sip e quiet_random_domain
              query_count [] w1) as (Hb & Hdb).
  split; [lia|].
  destruct Hdb as [Hdb|Hdb]; [|right; exact Hdb].
  destruct Hda as [Hda|(k & Hk & Hlt)]; [left; lia|].
  right. exists k. split; [exact Hk | lia].
Qed.

Lemma test_single_server_skeleton :
  skeleton (trace (snd (test_single_server sname sip query_count e w)))
  = skeleton (trace w).
Proof.
  rewrite test_single_server_world.
  destruct (probe_loop_trace (ret "google.com") (fun _ => True) sip e
              (fun w0 => conj I eq_refl) query_count [] w)
    as (na & Ha & _).
  set (w1 := snd (probe_loop (ret "google.com") sip query_count [] e w))
    in *.
  destruct (probe_loop_trace random_domain random_name sip e
              (random_domain_spec e) query_count [] w1)
    as (nb & Hb & _).
  rewrite Hb, Ha, !skeleton_app, !skeleton_queries, !app_nil_r.
  reflexivity.
Qed.

Lemma test_single_server_identity :
  name (fst (test_single_server sname sip query_count e w)) = sname /\
  ip (fst (test_single_server sname sip query_count e w)) = sip.
Proof. rewrite test_single_server_reduce. split; reflexivity. Qed.

Lemma test_single_server_agree (k : nat) :
  cancel_at e = Some k ->
  (polls w + 2 * query_count <= k)%nat ->
  test_single_server sname sip query_count e w =
  test_single_server sname sip query_count (never_cancelled e) w.
Proof.
  intros Hk Hle. unfold test_single_server, bind.
  rewrite <- (probe_loop_agree (ret "google.com") sip e (quiet_ret _)
                (fun _ => eq_refl) k query_count Hk [] w) by lia.
  destruct (probe_loop_polls (ret "google.com") sip e (quiet_ret _)
              query_count [] w) as (Ha & _).
  destruct (probe_loop (ret "google.com") sip query_count [] e w)
    as [c w1].
  cbn [snd] in Ha.
  rewrite <- (probe_loop_agree random_domain sip e quiet_random_domain
                (random_domain_blind e) k query_count Hk [] w1) by lia.
  reflexivity.
Qed.

End OneCampaign.

(** ** BenchThread.run: the loop over the servers *)

Section RunLoop.

Variable e : Env.
Variable query_count : nat.
Variable total : nat.

Lemma run_loop_cons (idx : nat) (sname sip : string)
    (rest : list (string * string)) (results : list ServerResult)
    (w : World) :
  run_loop query_count total idx ((sname, sip) :: rest) results e w =
  let (running, w1) := is_running e w in
  if running : bool then
    let w2 := mkWorld (polls w1) (queries w1) (draws w1)
                      (trace w1 ++ announce_one total idx sname) in
    let (result, w3) := test_single_server sname sip query_count e w2 in
    let (_, w4) := emit (EvTested result) e w3 in
    run_loop query_count total (S idx) rest (results ++ [result]) e w4
  else (results, w1).
Proof.
  cbn [run_loop]. unfold bind at 1.
  destruct (is_running e w) as [[|] w1]; [|reflexivity].
  unfold bind at 1, announce_one.
  destruct (progress_val idx total) as [p|].
  - reflexivity.
  - unfold ret at 1. rewrite app_nil_r. destruct w1. reflexivity.
Qed.

(** Results, announcements and appends of a loop, stopped or not. *)
Lemma run_loop_skeleton (servers : list (string * string)) :
  forall idx results w,
  exists new,
    fst (run_loop query_count total idx servers results e w)
      = results ++ new /\
    (List.length new <= List.length servers)%nat /\
    (cancel_at e = None -> List.length new = List.length servers) /\
    map name new = map fst (firstn (List.length new) servers) /\
    map ip new = map snd (firstn (List.length new) servers) /\
    skeleton (trace (snd (run_loop query_count total idx servers results
                            e w)))
      = skeleton (trace w) ++ announce total idx servers new.
Proof.
  induction servers as [|[sname sip] rest IH]; intros idx results w.
  - exists []. cbn. rewrite !app_nil_r. auto 6.
  - rewrite run_loop_cons.
    destruct (is_running e w) as [running w1] eqn:E1.
    unfold is_running in E1. injection E1 as Hrun <-.
    destruct running.
    + cbv zeta. cbn [polls queries draws trace].
      set (w2 := mkWorld _ _ _ _).
      pose proof (test_single_server_skeleton e sname sip query_count w2)
        as Hsk.
      pose proof (test_single_server_identity e sname sip query_count w2)
        as (Hn & Hi).
      destruct (test_single_server sname sip query_count e w2) as [r w3].
      cbn [fst snd] in Hsk, Hn, Hi. unfold emit.
      match goal with |- context [run_loop _ _ _ rest _ e ?w4] =>
        destruct (IH (S idx) (results ++ [r]) w4)
          as (new & Hres & Hlen & Hall & Hnames & Hips & Htr) end.
      exists (r :: new). cbn [trace] in Htr.
      rewrite Hres, Htr, skeleton_app, Hsk. subst w2. cbn [trace].
      rewrite skeleton_app, <- !app_assoc.
      cbn [List.length firstn map fst snd announce].
      split; [reflexivity|]. split; [lia|].
      split; [intros Hc; rewrite (Hall Hc); reflexivity|].
      split; [congruence|]. split; [congruence|].
      f_equal. unfold announce_one.
      destruct (progress_val idx total); reflexivity.
    + exists []. cbn [fst snd trace List.length]. rewrite !app_nil_r.
      split; [reflexivity|]. split; [lia|].
      split; [intros Hc; rewrite Hc in Hrun; discriminate|].
      auto.
Qed.

End RunLoop.

(** ** A campaign that nobody stops *)

Section UnstoppedLoop.

Variable e : Env.
Hypothesis never_stopped : cancel_at e = None.
Variable ip : string.

(** A name generator that reads [d] draws and nothing else. *)
Variable gen : M string.
Variable name_at : nat -> string.
Variable d : nat.
Hypothesis gen_draws :
  forall w, gen e w =
            (name_at (draws w),
             mkWorld (polls w) (queries w) (d + draws w) (trace w)).

Lemma probe_loop_unstopped (n : nat) :
  forall times w,
    probe_loop gen ip n times e w =
    (times ++ flat_map (sample e) (seq (queries w) n),
     mkWorld (polls w + n) (queries w + n) (draws w + d * n)
       (trace w
        ++ map (fun j => EvQuery ip (name_at (draws w + d * j))
                           rdatatype.A false)
               (seq 0 n))).
Proof.
  induction n as [|n IH]; intros times w.
  - cbn [probe_loop ret seq flat_map map]. rewrite !app_nil_r.
    rewrite Nat.mul_0_r, !Nat.add_0_r. destruct w; reflexivity.
  - rewrite probe_loop_S. unfold is_running. rewrite never_stopped.
    rewrite gen_draws. unfold timed_udp, udp_query.
    cbn [polls queries draws trace]. rewrite IH.
    cbn [polls queries draws trace seq flat_map map].
    rewrite Nat.mul_0_r, Nat.add_0_r.
    f_equal.
    + unfold sample at 2.
      destruct (udp e (queries w)); [destruct (Qlt_le_dec 0 _)|];
        cbn [app]; rewrite <- ?app_assoc; reflexivity.
    + f_equal; try lia.
      rewrite <- app_assoc. cbn [app]. do 2 f_equal.
      rewrite <- seq_shift, map_map. apply map_ext.
      intros j. do 2 f_equal. lia.
Qed.

End UnstoppedLoop.

Lemma ret_draws (d0 : string) (e : Env) (w : World) :
  ret d0 e w =
  (d0, mkWorld (polls w) (queries w) (0 + draws w) (trace w)).
Proof. destruct w; reflexivity. Qed.

Lemma map_const_repeat {A B : Type} (b : B) (l : list A) :
  map (fun _ => b) l = repeat b (List.length l).
Proof. induction l as [|x l IH]; [reflexivity | cbn; f_equal; exact IH]. Qed.

(** The whole of an unstopped campaign, as one equation. *)
Lemma test_single_server_unstopped (e : Env) (sname sip : string)
    (query_count : nat) (w : World) :
  cancel_at e = None ->
  test_single_server sname sip query_count e w =
  (reduce sname sip query_count
     (flat_map (sample e) (seq (queries w) query_count))
     (flat_map (sample e) (seq (queries w + query_count) query_count)),
   mkWorld (polls w + 2 * query_count) (queries w + 2 * query_count)
     (draws w + 8 * query_count)
     (trace w
      ++ repeat (EvQuery sip "google.com" rdatatype.A false) query_count
      ++ map (fun j => EvQuery sip (drawn_name e (draws w + 8 * j))
                         rdatatype.A false)
             (seq 0 query_count))).
Proof.
  intros Hc. unfold test_single_server, bind.
  rewrite (probe_loop_unstopped e Hc sip (ret "google.com")
             (fun _ => "google.com") 0 (ret_draws "google.com" e)).
  rewrite (probe_loop_unstopped e Hc sip random_domain (drawn_name e) 8
             (random_domain_draws e)).
  cbn [polls queries draws trace].
  rewrite map_const_repeat, length_seq, <- app_assoc.
  rewrite Nat.mul_0_l, Nat.add_0_r. unfold ret.
  f_equal. f_equal; lia.
Qed.

(** ** The progress percentage in binary64 *)

Section Binary64.

Local Open Scope Z_scope.

Lemma digits2_pos_size (p : positive) : digits2_pos p = Pos.size p.
Proof. induction p; cbn; congruence. Qed.

Lemma Zdigits2_log2 (p : positive) :
  Zdigits2 (Zpos p) = Z.log2 (Zpos p) + 1.
Proof.
  cbn [Zdigits2]. rewrite digits2_pos_size.
  destruct p; cbn [Z.log2 Pos.size]; lia.
Qed.

Lemma Zdigits2_le (m k : Z) :
  0 <= k -> 0 <= m < 2 ^ k -> Zdigits2 m <= k.
Proof.
  intros Hk [H0 Hm]. destruct m as [|p|p]; [cbn; lia | | lia].
  rewrite Zdigits2_log2.
  assert (Z.log2 (Zpos p) < k) by (apply Z.log2_lt_pow2; lia). lia.
Qed.

Lemma Zdigits2_ge (m k : Z) :
  0 <= k -> 2 ^ k <= m -> k + 1 <= Zdigits2 m.
Proof.
  intros Hk Hm.
  assert (0 < 2 ^ k) by (apply Z.pow_pos_nonneg; lia).
  destruct m as [|p|p]; [lia | | lia].
  rewrite Zdigits2_log2.
  assert (k <= Z.log2 (Zpos p)) by (apply Z.log2_le_pow2; lia). lia.
Qed.

(** ** Right shifts of a mantissa *)

Lemma loc_of_shr_record_of_loc (m : Z) (l : location) :
  loc_of_shr_record (shr_record_of_loc m l) = l.
Proof. destruct l as [|[]]; reflexivity. Qed.

Lemma shr_m_of_loc (m : Z) (l : location) :
  shr_m (shr_record_of_loc m l) = m.
Proof. destruct l as [|[]]; reflexivity. Qed.

Lemma shifted_1 (x : shr_record) : shifted 1 x (shr_1 x).
Proof.
  destruct x as [m r s]. unfold shifted, shr_exact. cbn [shr_m]. intros H0.
  change (2 ^ 1) with 2.
  destruct m as [|[p|p|]|]; cbn [shr_1 shr_m loc_of_shr_record]; try lia.
  - split; [reflexivity|]. destruct r, s; cbn; congruence.
  - split.
    + rewrite Pos2Z.inj_xI. apply Z.div_unique with 1; lia.
    + rewrite Pos2Z.inj_xI. intros _ H.
      rewrite Z.add_comm, Z.mul_comm, Z.mod_add in H by lia. discriminate.
  - split.
    + rewrite Pos2Z.inj_xO. apply Z.div_unique with 0; lia.
    + destruct r, s; cbn; congruence.
  - split; [reflexivity|]. intros _ H. discriminate.
Qed.

Lemma shifted_trans (j k : Z) (x y z : shr_record) :
  0 <= j -> 0 <= k ->
  shifted j x y -> shifted k y z -> shifted (j + k) x z.
Proof.
  intros Hj Hk Hxy Hyz H0. destruct (Hxy H0) as [Hy Hey].
  assert (Hpj : 0 < 2 ^ j) by (apply Z.pow_pos_nonneg; lia).
  assert (Hpk : 0 < 2 ^ k) by (apply Z.pow_pos_nonneg; lia).
  assert (H0y : 0 <= shr_m y).
  { rewrite Hy. apply Z.div_pos; lia. }
  destruct (Hyz H0y) as [Hz Hez].
  rewrite Z.pow_add_r by lia. split.
  - rewrite Hz, Hy. apply Z.div_div; lia.
  - intros Hex Hmod.
    apply Z.mod_divide in Hmod; [|lia]. destruct Hmod as [t Ht].
    apply Hez.
    + apply Hey; [exact Hex|]. apply Z.mod_divide; [lia|].
      exists (t * 2 ^ k). lia.
    + rewrite Hy. apply Z.mod_divide; [lia|]. exists t.
      rewrite Ht. replace (t * (2 ^ j * 2 ^ k)) with (t * 2 ^ k * 2 ^ j)
        by ring.
      apply Z.div_mul. lia.
Qed.

Lemma shifted_iter (p : positive) :
  forall x, shifted (Zpos p) x (iter_pos shr_1 p x).
Proof.
  induction p as [p IH|p IH|]; intros x; cbn [iter_pos].
  - replace (Zpos p~1) with (1 + (Zpos p + Zpos p)) by lia.
    apply shifted_trans with (shr_1 x); [lia | lia | apply shifted_1 |].
    apply shifted_trans with (iter_pos shr_1 p (shr_1 x));
      [lia | lia | apply IH | apply IH].
  - replace (Zpos p~0) with (Zpos p + Zpos p) by lia.
    apply shifted_trans with (iter_pos shr_1 p x);
      [lia | lia | apply IH | apply IH].
  - apply shifted_1.
Qed.

Lemma shifted_0 (x : shr_record) : shifted 0 x x.
Proof.
  intros H0. change (2 ^ 0) with 1. rewrite Z.div_1_r. auto.
Qed.

(** [shr] by [n] bits, [n] of any sign. *)
Lemma shr_spec (x : shr_record) (e n : Z) :
  exists y e',
    shr x e n = (y, e') /\
    e' = e + Z.max 0 n /\
    shifted (Z.max 0 n) x y.
Proof.
  destruct n as [|p|p]; cbn [shr].
  - exists x, e. split; [reflexivity|]. split; [lia | apply shifted_0].
  - exists (iter_pos shr_1 p x), (e + Zpos p).
    split; [reflexivity|]. split; [lia|].
    rewrite Z.max_r by lia. apply shifted_iter.
  - exists x, e. split; [reflexivity|]. split; [lia|].
    rewrite Z.max_l by lia. apply shifted_0.
Qed.

Lemma round_nearest_even_bounds (m : Z) (l : location) :
  m <= round_nearest_even m l <= m + 1 /\
  (l = loc_Exact -> round_nearest_even m l = m).
Proof.
  destruct l as [|[]]; cbn [round_nearest_even];
    try destruct (Z.even m); split; try lia; try reflexivity;
    intros H; discriminate.
Qed.

(** ** Rounding below a bound *)

Lemma fexp_64 (z : Z) : fexp prec emax z = Z.max (z - 53) (-1074).
Proof. reflexivity. Qed.

Lemma pow2_split (e e' : Z) :
  e <= e' <= 0 -> 2 ^ (- e) = 2 ^ (- e') * 2 ^ (e' - e).
Proof.
  intros H. rewrite <- Z.pow_add_r by lia. f_equal. lia.
Qed.

Lemma shr_fexp_le (c m e : Z) (l : location) :
  0 < c < 2 ^ 53 -> 0 <= m -> e <= 0 -> m <= c * 2 ^ (- e) ->
  exists y e',
    shr_fexp prec emax m e l = (y, e') /\
    e <= e' <= 0 /\
    shifted (e' - e) (shr_record_of_loc m l) y.
Proof.
  intros Hc H0 He Hm. unfold shr_fexp.
  destruct (shr_spec (shr_record_of_loc m l) e
              (fexp prec emax (Zdigits2 m + e) - e))
    as (y & e' & Heq & He' & Hsh).
  exists y, e'. split; [exact Heq|].
  assert (Hd : Zdigits2 m <= 53 - e).
  { apply Zdigits2_le; [lia|]. split; [exact H0|].
    replace (53 - e) with (53 + - e) by lia.
    rewrite Z.pow_add_r by lia.
    assert (0 < 2 ^ (- e)) by (apply Z.pow_pos_nonneg; lia). nia. }
  rewrite fexp_64 in He', Hsh.
  assert (Hn : e' - e = Z.max 0 (Z.max (Zdigits2 m + e - 53) (-1074) - e))
    by lia.
  rewrite Hn. split; [lia | exact Hsh].
Qed.

Lemma binary_round_aux_le (c mx ex : Z) (lx : location) :
  0 < c < 2 ^ 53 -> 0 <= mx -> ex <= 0 ->
  mx <= c * 2 ^ (- ex) ->
  (lx <> loc_Exact -> mx < c * 2 ^ (- ex)) ->
  binary_round_aux prec emax false mx ex lx = S754_zero false \/
  exists m e,
    binary_round_aux prec emax false mx ex lx = S754_finite false m e /\
    e <= 0 /\ Zpos m <= c * 2 ^ (- e).
Proof.
  intros Hc H0 He Hm Hstrict. unfold binary_round_aux.
  destruct (shr_fexp_le c mx ex lx Hc H0 He Hm)
    as (y & e' & Heq & He' & Hsh).
  rewrite Heq.
  unfold shifted in Hsh.
  rewrite shr_m_of_loc in Hsh. destruct (Hsh H0) as [Hy Hex].
  unfold shr_exact in Hex. rewrite loc_of_shr_record_of_loc in Hex.
  clear Hsh.
  assert (HP : 0 < 2 ^ (e' - ex)) by (apply Z.pow_pos_nonneg; lia).
  assert (HT : 0 < 2 ^ (- e')) by (apply Z.pow_pos_nonneg; lia).
  pose proof (pow2_split ex e' He') as Hsplit.
  set (P := 2 ^ (e' - ex)) in *. set (T := c * 2 ^ (- e')).
  assert (HTP : c * 2 ^ (- ex) = P * T) by (unfold T; rewrite Hsplit; ring).
  rewrite HTP in Hm, Hstrict.
  assert (Hle : shr_m y <= T).
  { rewrite Hy. apply Z.div_le_upper_bound; [exact HP | exact Hm]. }
  assert (Hge : 0 <= shr_m y).
  { rewrite Hy. apply Z.div_pos; lia. }
  destruct (round_nearest_even_bounds (shr_m y) (loc_of_shr_record y))
    as [[Hr1 Hr2] Hr3].
  assert (Hm1 : 0 <= round_nearest_even (shr_m y) (loc_of_shr_record y) <= T).
  { split; [lia|].
    destruct (Z.eq_dec (shr_m y) T) as [HeqT|Hne]; [|lia].
    assert (Hmx : P * T <= mx).
    { rewrite <- HeqT, Hy. apply Z.mul_div_le. exact HP. }
    assert (Hl : lx = loc_Exact).
    { destruct lx as [|cmp]; [reflexivity|].
      assert (mx < P * T) by (apply Hstrict; discriminate). lia. }
    rewrite Hr3; [lia|].
    apply Hex; [exact Hl|].
    replace mx with (T * P) by lia. apply Z.mod_mul. lia. }
  set (m1 := round_nearest_even (shr_m y) (loc_of_shr_record y)) in *.
  clearbody m1.
  destruct (shr_fexp_le c m1 e' loc_Exact Hc (proj1 Hm1) (proj2 He')
              (proj2 Hm1))
    as (z & e'' & Heq2 & He'' & Hsh2).
  rewrite Heq2.
  unfold shifted in Hsh2. cbn [shr_record_of_loc shr_m] in Hsh2.
  destruct (Hsh2 (proj1 Hm1)) as [Hz _].
  assert (HP2 : 0 < 2 ^ (e'' - e')) by (apply Z.pow_pos_nonneg; lia).
  pose proof (pow2_split e' e'' He'') as Hsplit2.
  assert (Hz0 : 0 <= shr_m z) by (rewrite Hz; apply Z.div_pos; lia).
  assert (Hzle : shr_m z <= c * 2 ^ (- e'')).
  { rewrite Hz. apply Z.div_le_upper_bound; [exact HP2|].
    unfold T in Hm1. rewrite Hsplit2 in Hm1.
    replace (2 ^ (e'' - e') * (c * 2 ^ (- e'')))
      with (c * (2 ^ (- e'') * 2 ^ (e'' - e'))) by ring.
    lia. }
  destruct (shr_m z) as [|m|m]; [left; reflexivity | right | lia].
  replace (e'' <=? emax - prec) with true
    by (symmetry; apply Z.leb_le; unfold emax, prec; lia).
  exists m, e''. split; [reflexivity|]. split; [lia | exact Hzle].
Qed.

(** ** Integers below 2^53 convert exactly *)

Lemma iter_xO_spec (p k : positive) :
  Zpos (Pos.iter xO p k) = Zpos p * 2 ^ Zpos k /\
  Zpos (digits2_pos (Pos.iter xO p k)) = Zpos (digits2_pos p) + Zpos k.
Proof.
  induction k as [|k IH] using Pos.peano_ind.
  - cbn [Pos.iter digits2_pos]. split; lia.
  - rewrite Pos.iter_succ. destruct IH as [IH1 IH2].
    cbn [digits2_pos]. rewrite Pos2Z.inj_xO, IH1, !Pos2Z.inj_succ, IH2.
    rewrite Z.pow_succ_r by lia. split; ring.
Qed.

Lemma binary_round_aux_exact (s : bool) (m : positive) (e : Z) :
  Zdigits2 (Zpos m) = 53 -> -1074 <= e <= 971 ->
  binary_round_aux prec emax s (Zpos m) e loc_Exact = S754_finite s m e.
Proof.
  intros Hd He.
  assert (Hs : shr_fexp prec emax (Zpos m) e loc_Exact =
               ({| shr_m := Zpos m; shr_r := false; shr_s := false |}, e)).
  { unfold shr_fexp. rewrite Hd, fexp_64.
    replace (Z.max (53 + e - 53) (-1074) - e) with 0 by lia.
    reflexivity. }
  unfold binary_round_aux. rewrite Hs.
  cbn [shr_m loc_of_shr_record round_nearest_even]. rewrite Hs.
  cbn [shr_m].
  replace (e <=? emax - prec) with true
    by (symmetry; apply Z.leb_le; unfold emax, prec; lia).
  reflexivity.
Qed.

Lemma binary_normalize_exact (p : positive) :
  Zpos p < 2 ^ 53 ->
  exists m e,
    binary_normalize prec emax (Zpos p) 0 false = S754_finite false m e /\
    e <= 0 /\ Zpos m = Zpos p * 2 ^ (- e) /\ Zdigits2 (Zpos m) = 53.
Proof.
  intros Hp. cbn [binary_normalize]. unfold binary_round.
  assert (Hd : Zdigits2 (Zpos p) <= 53)
    by (apply Zdigits2_le; lia).
  assert (Hd1 : 1 <= Zdigits2 (Zpos p)).
  { apply (Zdigits2_ge (Zpos p) 0); [lia|]. change (2 ^ 0) with 1. lia. }
  cbn [Zdigits2] in Hd, Hd1.
  rewrite fexp_64. unfold shl_align.
  set (d := Zpos (digits2_pos p)) in *.
  replace (Z.max (d + 0 - 53) (-1074)) with (d - 53) by lia.
  destruct (d - 53 - 0) as [|k|k] eqn:Hk; [| lia |].
  - exists p, 0. split.
    + apply binary_round_aux_exact; [cbn [Zdigits2]; fold d; lia | lia].
    + split; [lia|]. split; [change (2 ^ (- 0)) with 1; lia|].
      cbn [Zdigits2]. fold d. lia.
  - destruct (iter_xO_spec p k) as [Hv Hdig].
    exists (Pos.iter xO p k), (d - 53). split.
    + apply binary_round_aux_exact; [cbn [Zdigits2]; fold d in Hdig; lia | lia].
    + split; [lia|]. split; [rewrite Hv; f_equal; f_equal; lia|].
      cbn [Zdigits2]. fold d in Hdig. lia.
Qed.

Lemma float_of_nat_exact (a : nat) :
  0 < Z.of_nat a < 2 ^ 53 ->
  exists m e,
    Prim2SF (Py.float_of_nat a) = S754_finite false m e /\
    e <= 0 /\ Zpos m = Z.of_nat a * 2 ^ (- e) /\ Zdigits2 (Zpos m) = 53.
Proof.
  intros Ha. unfold Py.float_of_nat. rewrite of_uint63_spec.
  rewrite Uint63.of_Z_spec.
  rewrite Z.mod_small by (split; [lia|]; change wB with (2 ^ 63); lia).
  destruct (Z.of_nat a) as [|p|p] eqn:E; [lia | | lia].
  apply binary_normalize_exact. lia.
Qed.

Lemma float_of_nat_0 : Prim2SF (Py.float_of_nat 0) = S754_zero false.
Proof. reflexivity. Qed.

Lemma float_of_nat_100 :
  Prim2SF (Py.float_of_nat 100) =
  S754_finite false 7036874417766400 (-46).
Proof. vm_compute. reflexivity. Qed.

(** ** The quotient of two integers, the smaller first *)

Lemma SFdiv_le_1 (a b : Z) (m1 m2 : positive) (e1 e2 : Z) :
  0 < a < b -> b < 2 ^ 53 -> e1 <= 0 -> e2 <= 0 ->
  Zpos m1 = a * 2 ^ (- e1) -> Zpos m2 = b * 2 ^ (- e2) ->
  SF64div (S754_finite false m1 e1) (S754_finite false m2 e2)
    = S754_zero false \/
  exists m e,
    SF64div (S754_finite false m1 e1) (S754_finite false m2 e2)
      = S754_finite false m e /\
    e <= 0 /\ Zpos m <= 1 * 2 ^ (- e).
Proof.
  intros Hab Hb He1 He2 Hm1 Hm2.
  unfold SF64div, SFdiv, SFdiv_core_binary. cbn [xorb].
  assert (Hp1 : 0 < 2 ^ (- e1)) by (apply Z.pow_pos_nonneg; lia).
  assert (Hp2 : 0 < 2 ^ (- e2)) by (apply Z.pow_pos_nonneg; lia).
  assert (Hd1 : Zdigits2 (Zpos m1) + e1 <= 53).
  { assert (Zdigits2 (Zpos m1) <= 53 - e1); [|lia].
    apply Zdigits2_le; [lia|]. split; [lia|].
    replace (53 - e1) with (53 + - e1) by lia.
    rewrite Z.pow_add_r by lia. nia. }
  assert (Hd2 : 1 <= Zdigits2 (Zpos m2) + e2).
  { assert (- e2 + 1 <= Zdigits2 (Zpos m2)); [|lia].
    apply Zdigits2_ge; [lia|]. nia. }
  rewrite fexp_64.
  set (e' := Z.min (Z.max (Zdigits2 (Zpos m1) + e1
                            - (Zdigits2 (Zpos m2) + e2) - 53) (-1074))
                   (e1 - e2)).
  assert (He' : e' <= 0) by (unfold e'; lia).
  assert (Hs : 0 <= e1 - e2 - e') by (unfold e'; lia).
  set (s := e1 - e2 - e') in *.
  set (m' := match s with
             | 0 => Zpos m1
             | Zpos _ => Z.shiftl (Zpos m1) s
             | Zneg _ => 0
             end).
  assert (Hm' : m' = Zpos m1 * 2 ^ s).
  { unfold m'. destruct s as [|p|p] eqn:Es.
    - change (2 ^ 0) with 1. lia.
    - apply Z.shiftl_mul_pow2. lia.
    - lia. }
  clearbody m'.
  destruct (Z.div_eucl m' (Zpos m2)) as [q r] eqn:Hdiv.
  assert (Hq : q = m' / Zpos m2) by (unfold Z.div; rewrite Hdiv; reflexivity).
  assert (Hps : 0 < 2 ^ s) by (apply Z.pow_pos_nonneg; lia).
  assert (Hq0 : 0 <= q) by (rewrite Hq; apply Z.div_pos; lia).
  assert (Hqlt : q < 1 * 2 ^ (- e')).
  { rewrite Hq, Z.mul_1_l. apply Z.div_lt_upper_bound; [lia|].
    rewrite Hm', Hm1, Hm2.
    replace (a * 2 ^ (- e1) * 2 ^ s) with (a * 2 ^ (s - e1))
      by (replace (s - e1) with (- e1 + s) by lia;
          rewrite Z.pow_add_r by lia; ring).
    replace (b * 2 ^ (- e2) * 2 ^ (- e')) with (b * 2 ^ (s - e1))
      by (replace (s - e1) with (- e2 + - e') by (unfold s; lia);
          rewrite Z.pow_add_r by lia; ring).
    apply Z.mul_lt_mono_pos_r; [apply Z.pow_pos_nonneg; lia | lia]. }
  apply binary_round_aux_le; lia.
Qed.

(** ** Times one hundred, and [int] *)

Lemma SFmul_100_le (m : positive) (e : Z) :
  e <= 0 -> Zpos m <= 1 * 2 ^ (- e) ->
  SF64mul (S754_finite false m e)
          (S754_finite false 7036874417766400 (-46)) = S754_zero false \/
  exists m' e',
    SF64mul (S754_finite false m e)
            (S754_finite false 7036874417766400 (-46))
      = S754_finite false m' e' /\
    e' <= 0 /\ Zpos m' <= 100 * 2 ^ (- e').
Proof.
  intros He Hm. unfold SF64mul, SFmul. cbn [xorb].
  assert (Hp : 0 < 2 ^ (- e)) by (apply Z.pow_pos_nonneg; lia).
  apply binary_round_aux_le.
  - split; [lia | reflexivity].
  - lia.
  - lia.
  - rewrite Pos2Z.inj_mul.
    replace (- (e + -46)) with (46 + - e) by lia.
    rewrite Z.pow_add_r by lia.
    change (2 ^ 46) with 70368744177664. nia.
  - intros H. contradiction H. reflexivity.
Qed.

Lemma int_of_float_le (x : float) (m : positive) (e : Z) :
  Prim2SF x = S754_finite false m e ->
  e <= 0 -> Zpos m <= 100 * 2 ^ (- e) ->
  exists p, Py.int_of_float x = Some p /\ 0 <= p <= 100.
Proof.
  intros Hx He Hm. unfold Py.int_of_float. rewrite Hx.
  eexists. split; [reflexivity|].
  assert (Hp : 0 < 2 ^ (- e)) by (apply Z.pow_pos_nonneg; lia).
  destruct (0 <=? e) eqn:E.
  - apply Z.leb_le in E. assert (e = 0) by lia. subst e.
    rewrite Z.shiftl_0_r. change (2 ^ (- 0)) with 1 in Hm. lia.
  - rewrite Z.shiftr_div_pow2 by lia. split.
    + apply Z.div_pos; lia.
    + apply Z.div_le_upper_bound; lia.
Qed.

(** [int((idx / total) * 100)] is computed and lies in [0, 100] for
    every index below a total below 2^53. *)
Lemma progress_val_range (idx total : nat) :
  (idx < total)%nat -> Z.of_nat total < 2 ^ 53 ->
  exists p, progress_val idx total = Some p /\ 0 <= p <= 100.
Proof.
  intros Hlt Htot. unfold progress_val, Py.truediv.
  destruct total as [|t]; [lia|]. set (total := S t) in *.
  unfold Py.int_of_float.
  rewrite FloatAxioms.mul_spec, FloatAxioms.div_spec, float_of_nat_100.
  destruct (float_of_nat_exact total ltac:(lia))
    as (m2 & e2 & Hy & He2 & Hm2 & _).
  rewrite Hy.
  destruct idx as [|i].
  - rewrite float_of_nat_0. cbn. exists 0. split; [reflexivity | lia].
  - set (idx := S i) in *.
    destruct (float_of_nat_exact idx ltac:(lia))
      as (m1 & e1 & Hx & He1 & Hm1 & _).
    rewrite Hx.
    destruct (SFdiv_le_1 (Z.of_nat idx) (Z.of_nat total) m1 m2 e1 e2
                ltac:(lia) Htot He1 He2 Hm1 Hm2)
      as [Hq | (m & e & Hq & He & Hm)]; rewrite Hq.
    + cbn. exists 0. split; [reflexivity | lia].
    + destruct (SFmul_100_le m e He Hm)
        as [Hr | (m' & e' & Hr & He' & Hm')]; rewrite Hr.
      * exists 0. split; [reflexivity | lia].
      * eexists. split; [reflexivity|].
        assert (Hp : 0 < 2 ^ (- e')) by (apply Z.pow_pos_nonneg; lia).
        destruct (0 <=? e') eqn:E.
        -- apply Z.leb_le in E. assert (e' = 0) by lia. subst e'.
           rewrite Z.shiftl_0_r. change (2 ^ (- 0)) with 1 in Hm'. lia.
        -- rewrite Z.shiftr_div_pow2 by lia. split.
           ++ apply Z.div_pos; lia.
           ++ apply Z.div_le_upper_bound; lia.
Qed.

(** ** Rounding a fraction *)

Lemma new_location_loc_of (N D : Z) :
  0 < D -> new_location D (N mod D) = loc_of N D.
Proof.
  intros HD. pose proof (Z.mod_pos_bound N D HD) as Hr.
  unfold new_location, new_location_even, new_location_odd, loc_of.
  set (r := N mod D) in *. clearbody r.
  destruct (Z.even D) eqn:Hev; destruct (r =? 0) eqn:Hr0; try reflexivity.
  f_equal.
  assert (Hodd : Z.odd D = true) by (rewrite <- Z.negb_even, Hev; reflexivity).
  apply Z.odd_spec in Hodd. destruct Hodd as [k Hk].
  destruct (Z.compare_spec (2 * r + 1) D);
    destruct (Z.compare_spec (2 * r) D); try reflexivity; lia.
Qed.

Lemma located_of_loc (N D : Z) :
  located N D (shr_record_of_loc (N / D) (loc_of N D)).
Proof.
  split; [apply shr_m_of_loc | apply loc_of_shr_record_of_loc].
Qed.

Lemma div_mod_double (N D : Z) :
  0 < D -> 0 <= N ->
  N / (2 * D) = N / D / 2 /\
  N mod (2 * D) = (N / D) mod 2 * D + N mod D.
Proof.
  intros HD HN.
  pose proof (Z.div_mod N D ltac:(lia)) as H1.
  pose proof (Z.mod_pos_bound N D HD) as H2.
  pose proof (Z.div_mod (N / D) 2 ltac:(lia)) as H3.
  pose proof (Z.mod_pos_bound (N / D) 2 ltac:(lia)) as H4.
  assert (Heq : N = 2 * D * (N / D / 2) + ((N / D) mod 2 * D + N mod D))
    by nia.
  assert (Hb : 0 <= (N / D) mod 2 * D + N mod D < 2 * D) by nia.
  split.
  - symmetry. apply Z.div_unique with ((N / D) mod 2 * D + N mod D);
      [left; exact Hb | exact Heq].
  - symmetry. apply Z.mod_unique with (N / D / 2);
      [left; exact Hb | exact Heq].
Qed.

Ltac loc_cases :=
  match goal with |- context [?a =? 0] => destruct (Z.eqb_spec a 0) end;
  try match goal with |- context [?a ?= ?b] =>
        destruct (Z.compare_spec a b) end;
  first [reflexivity | exfalso; lia].

Lemma located_shr_1 (N D : Z) (x : shr_record) :
  0 < D -> 0 <= N -> located N D x -> located N (2 * D) (shr_1 x).
Proof.
  intros HD HN [Hm Hl].
  destruct (div_mod_double N D HD HN) as [Hq Hr].
  pose proof (Z.mod_pos_bound N D HD) as Hb.
  assert (Hm0 : 0 <= N / D) by (apply Z.div_pos; lia).
  unfold located, loc_of in *. rewrite Hq, Hr, <- Hm. rewrite <- Hm in Hm0.
  clear Hq Hr Hm.
  assert (Hex : (shr_r x || shr_s x = false) <-> N mod D = 0).
  { destruct x as [m r s]. cbn [shr_r shr_s loc_of_shr_record] in *.
    destruct (N mod D =? 0) eqn:E.
    - apply Z.eqb_eq in E. destruct r, s; try discriminate. tauto.
    - apply Z.eqb_neq in E. destruct r, s; try discriminate;
        cbn; split; intros; try discriminate; contradiction. }
  clear Hl. set (rN := N mod D) in *. clearbody rN.
  destruct x as [m r s]. cbn [shr_m shr_r shr_s] in *.
  pose proof (Z.div_mod m 2 ltac:(lia)) as Hdm.
  pose proof (Z.mod_pos_bound m 2 ltac:(lia)) as Hmb.
  set (q := m / 2) in *. set (b := m mod 2) in *. clearbody q b.
  assert (HrN : (r || s = true /\ rN <> 0) \/ (r || s = false /\ rN = 0)).
  { destruct (r || s); [left | right]; split; try reflexivity.
    - intros H. apply Hex in H. discriminate.
    - apply Hex. reflexivity. }
  clear Hex.
  assert (Hb' : b = 0 \/ b = 1) by lia.
  destruct m as [|p|p]; [| |exfalso; lia].
  - cbn [shr_1 shr_m loc_of_shr_record].
    assert (q = 0 /\ b = 0) as [-> ->] by lia.
    split; [reflexivity|].
    destruct HrN as [[-> HrN] | [-> HrN]]; loc_cases.
  - destruct p as [p|p|]; cbn [shr_1 shr_m loc_of_shr_record].
    + rewrite Pos2Z.inj_xI in Hdm.
      assert (q = Z.pos p /\ b = 1) as [-> ->] by lia.
      split; [reflexivity|].
      destruct HrN as [[-> HrN] | [-> HrN]]; loc_cases.
    + rewrite Pos2Z.inj_xO in Hdm.
      assert (q = Z.pos p /\ b = 0) as [-> ->] by lia.
      split; [reflexivity|].
      destruct HrN as [[-> HrN] | [-> HrN]]; loc_cases.
    + assert (q = 0 /\ b = 1) as [-> ->] by lia.
      split; [reflexivity|].
      destruct HrN as [[-> HrN] | [-> HrN]]; loc_cases.
Qed.

Lemma located_iter (p : positive) :
  forall N D x,
    0 < D -> 0 <= N -> located N D x ->
    located N (D * 2 ^ Zpos p) (iter_pos shr_1 p x).
Proof.
  induction p as [p IH|p IH|]; intros N D x HD HN Hx; cbn [iter_pos].
  - replace (D * 2 ^ Zpos p~1) with (2 * D * 2 ^ Zpos p * 2 ^ Zpos p).
    + assert (0 < 2 ^ Zpos p) by (apply Z.pow_pos_nonneg; lia).
      apply IH; [nia | lia|]. apply IH; [lia | lia|].
      apply located_shr_1; assumption.
    + assert (E : Zpos p~1 = 1 + Zpos p + Zpos p)
        by (rewrite Pos2Z.inj_xI; lia).
      rewrite E, !Z.pow_add_r by lia. change (2 ^ 1) with 2. ring.
  - replace (D * 2 ^ Zpos p~0) with (D * 2 ^ Zpos p * 2 ^ Zpos p).
    + assert (0 < 2 ^ Zpos p) by (apply Z.pow_pos_nonneg; lia).
      apply IH; [nia | lia|]. apply IH; assumption.
    + assert (E : Zpos p~0 = Zpos p + Zpos p)
        by (rewrite Pos2Z.inj_xO; lia).
      rewrite E, !Z.pow_add_r by lia. ring.
  - change (2 ^ 1) with 2. rewrite Z.mul_comm.
    apply located_shr_1; assumption.
Qed.

(** [shr] of a located mantissa. *)
Lemma shr_located (N D : Z) (x : shr_record) (e n : Z) :
  0 < D -> 0 <= N -> located N D x ->
  exists y,
    shr x e n = (y, e + Z.max 0 n) /\
    located N (D * 2 ^ Z.max 0 n) y.
Proof.
  intros HD HN Hx. destruct n as [|p|p]; cbn [shr].
  - exists x. rewrite Z.max_l, Z.add_0_r by lia.
    change (2 ^ 0) with 1. rewrite Z.mul_1_r. auto.
  - exists (iter_pos shr_1 p x). rewrite Z.max_r by lia.
    split; [reflexivity|]. apply located_iter; assumption.
  - exists x. rewrite Z.max_l, Z.add_0_r by lia.
    change (2 ^ 0) with 1. rewrite Z.mul_1_r. auto.
Qed.

Lemma rnd_bounds (N D : Z) : N / D <= rnd N D <= N / D + 1.
Proof. apply round_nearest_even_bounds. Qed.

(** Rounding to the nearest integer is monotone. *)
Lemma rnd_mono (N1 D1 N2 D2 : Z) :
  0 < D1 -> 0 < D2 -> 0 <= N1 ->
  N1 * D2 <= N2 * D1 ->
  rnd N1 D1 <= rnd N2 D2.
Proof.
  intros HD1 HD2 HN1 Hle.
  pose proof (Z.div_mod N1 D1 ltac:(lia)) as Hdm1.
  pose proof (Z.mod_pos_bound N1 D1 HD1) as Hb1.
  pose proof (Z.div_mod N2 D2 ltac:(lia)) as Hdm2.
  pose proof (Z.mod_pos_bound N2 D2 HD2) as Hb2.
  unfold rnd, loc_of.
  set (m1 := N1 / D1) in *. set (r1 := N1 mod D1) in *.
  set (m2 := N2 / D2) in *. set (r2 := N2 mod D2) in *.
  clearbody m1 r1 m2 r2. subst N1 N2.
  assert (Hm : m1 <= m2).
  { destruct (Z_lt_le_dec m2 m1) as [Hlt|]; [exfalso | assumption].
    assert (m2 + 1 <= m1) by lia.
    assert ((m2 + 1) * (D1 * D2) <= m1 * (D1 * D2))
      by (apply Z.mul_le_mono_nonneg_r; nia).
    nia. }
  pose proof (round_nearest_even_bounds m1
                (if r1 =? 0 then loc_Exact else loc_Inexact (2 * r1 ?= D1)))
    as [Hr1 _].
  pose proof (round_nearest_even_bounds m2
                (if r2 =? 0 then loc_Exact else loc_Inexact (2 * r2 ?= D2)))
    as [Hr2 _].
  destruct (Z.eq_dec m1 m2) as [Heq|Hne]; [|lia].
  subst m2. clear Hr1 Hr2 Hm.
  assert (Hr : r1 * D2 <= r2 * D1) by nia.
  destruct (Z.eqb_spec r1 0) as [E1|E1];
    destruct (Z.eqb_spec r2 0) as [E2|E2];
    cbn [round_nearest_even]; try lia.
  - destruct (2 * r2 ?= D2); try destruct (Z.even m1); lia.
  - destruct (Z.compare_spec (2 * r1) D1) as [C1|C1|C1];
      destruct (Z.compare_spec (2 * r2) D2) as [C2|C2|C2];
      try destruct (Z.even m1); try lia; exfalso; nia.
Qed.

Lemma Zdigits2_spec (m : Z) :
  0 < m -> 2 ^ (Zdigits2 m - 1) <= m < 2 ^ Zdigits2 m.
Proof.
  intros Hm. destruct m as [|p|p]; try lia.
  rewrite Zdigits2_log2.
  replace (Z.log2 (Zpos p) + 1 - 1) with (Z.log2 (Zpos p)) by lia.
  replace (Z.log2 (Zpos p) + 1) with (Z.succ (Z.log2 (Zpos p))) by lia.
  apply Z.log2_spec. lia.
Qed.

Lemma Zdigits2_unique (m k : Z) :
  0 < k -> 2 ^ (k - 1) <= m < 2 ^ k -> Zdigits2 m = k.
Proof.
  intros Hk [Hlo Hhi].
  assert (0 < 2 ^ (k - 1)) by (apply Z.pow_pos_nonneg; lia).
  pose proof (Zdigits2_le m k ltac:(lia) ltac:(lia)).
  pose proof (Zdigits2_ge m (k - 1) ltac:(lia) Hlo). lia.
Qed.

(** The float that [binary_round_aux] returns for a mantissa of at least
    53 bits, outside the subnormal range. *)
Lemma binary_round_aux_located (N D e : Z) :
  0 < D -> 2 ^ 52 <= N / D ->
  -1074 <= Zdigits2 (N / D) + e - 53 < 971 ->
  let g := Zdigits2 (N / D) + e - 53 in
  let R := rnd N (D * 2 ^ (g - e)) in
  2 ^ 52 <= R <= 2 ^ 53 /\
  binary_round_aux prec emax false (N / D) e (loc_of N D) =
    if R <? 2 ^ 53 then S754_finite false (Z.to_pos R) g
    else S754_finite false (Z.to_pos (2 ^ 52)) (g + 1).
Proof.
  intros HD Hm Hg g R.
  assert (HN : 0 <= N).
  { destruct (Z_lt_le_dec N 0) as [Hneg|]; [|assumption].
    assert (N / D < 0) by (apply Z.div_lt_upper_bound; lia). lia. }
  pose proof (Zdigits2_spec (N / D) ltac:(lia)) as Hdig.
  assert (Hd53 : 53 <= Zdigits2 (N / D)).
  { apply (Zdigits2_ge (N / D) 52); lia. }
  set (dig := Zdigits2 (N / D)) in *.
  assert (Hn : g - e = dig - 53) by (unfold g; lia).
  assert (Hn0 : 0 <= g - e) by lia.
  assert (HP : 0 < 2 ^ (g - e)) by (apply Z.pow_pos_nonneg; lia).
  (* the first shift *)
  destruct (shr_located N D (shr_record_of_loc (N / D) (loc_of N D))
              e (g - e) HD HN (located_of_loc N D))
    as (y & Hshr & [Hym Hyl]).
  rewrite Z.max_r in Hshr, Hym, Hyl by lia.
  replace (e + (g - e)) with g in Hshr by lia.
  assert (Hsf : shr_fexp prec emax (N / D) e (loc_of N D) = (y, g)).
  { unfold shr_fexp. rewrite fexp_64. fold dig.
    replace (Z.max (dig + e - 53) (-1074) - e) with (g - e)
      by (unfold g; lia).
    exact Hshr. }
  assert (Hm' : 2 ^ 52 <= shr_m y < 2 ^ 53).
  { rewrite Hym, <- Z.div_div by lia. rewrite Hn. split.
    - apply Z.div_le_lower_bound; [apply Z.pow_pos_nonneg; lia|].
      rewrite <- Z.pow_add_r by lia.
      replace (dig - 53 + 52) with (dig - 1) by lia. lia.
    - apply Z.div_lt_upper_bound; [apply Z.pow_pos_nonneg; lia|].
      rewrite <- Z.pow_add_r by lia.
      replace (dig - 53 + 53) with dig by lia. lia. }
  assert (HR : R = round_nearest_even (shr_m y) (loc_of_shr_record y)).
  { unfold R, rnd. rewrite Hym, Hyl. reflexivity. }
  pose proof (round_nearest_even_bounds (shr_m y) (loc_of_shr_record y))
    as [Hrb _].
  rewrite <- HR in Hrb.
  split; [lia|].
  unfold binary_round_aux. rewrite Hsf, <- HR.
  destruct (R <? 2 ^ 53) eqn:Hlt.
  - apply Z.ltb_lt in Hlt.
    assert (Hs2 : shr_fexp prec emax R g loc_Exact =
                  ({| shr_m := R; shr_r := false; shr_s := false |}, g)).
    { unfold shr_fexp. rewrite fexp_64.
      rewrite (Zdigits2_unique R 53) by lia.
      replace (Z.max (53 + g - 53) (-1074) - g) with 0 by lia.
      reflexivity. }
    rewrite Hs2. cbn [shr_m].
    destruct R as [|p|p]; try lia.
    replace (g <=? emax - prec) with true
      by (symmetry; apply Z.leb_le; unfold emax, prec; lia).
    reflexivity.
  - apply Z.ltb_ge in Hlt. assert (HR53 : R = 2 ^ 53) by lia.
    rewrite HR53.
    assert (Hs2 : shr_fexp prec emax (2 ^ 53) g loc_Exact =
                  ({| shr_m := 2 ^ 52; shr_r := false; shr_s := false |},
                   g + 1)).
    { unfold shr_fexp. rewrite fexp_64.
      rewrite (Zdigits2_unique (2 ^ 53) 54) by lia.
      replace (Z.max (54 + g - 53) (-1074) - g) with 1 by lia.
      reflexivity. }
    rewrite Hs2. cbn [shr_m].
    replace (g + 1 <=? emax - prec) with true
      by (symmetry; apply Z.leb_le; unfold emax, prec; lia).
    reflexivity.
Qed.

Lemma rounded_spec (N D e : Z) :
  normal_input N D e ->
  2 ^ 52 <= fst (rounded N D e) < 2 ^ 53 /\
  Zdigits2 (N / D) + e - 53 <= snd (rounded N D e)
    <= Zdigits2 (N / D) + e - 53 + 1 /\
  binary_round_aux prec emax false (N / D) e (loc_of N D) =
    S754_finite false (Z.to_pos (fst (rounded N D e)))
      (snd (rounded N D e)).
Proof.
  intros (HD & Hm & Hg).
  destruct (binary_round_aux_located N D e HD Hm Hg) as [HR Heq].
  cbv zeta in HR, Heq. unfold rounded. cbv zeta.
  rewrite Heq.
  destruct (_ <? 2 ^ 53) eqn:Hlt; cbn [fst snd].
  - apply Z.ltb_lt in Hlt. split; [lia|]. split; [lia | reflexivity].
  - split; [lia|]. split; [lia | reflexivity].
Qed.

Lemma pow2_pos (x : Z) : 0 <= x -> 0 < 2 ^ x.
Proof. intros H. apply Z.pow_pos_nonneg; lia. Qed.

(** Rounding is monotone: of two fractions, the smaller does not round
    to the greater float. *)
Lemma rounded_mono (N1 D1 e1 N2 D2 e2 c : Z) :
  normal_input N1 D1 e1 -> normal_input N2 D2 e2 ->
  c <= e1 -> c <= e2 ->
  N1 * 2 ^ (e1 - c) * D2 <= N2 * 2 ^ (e2 - c) * D1 ->
  lex_le (rounded N1 D1 e1) (rounded N2 D2 e2).
Proof.
  intros (HD1 & Hm1 & Hg1) (HD2 & Hm2 & Hg2) Hc1 Hc2 Hle.
  pose proof (Zdigits2_spec (N1 / D1) ltac:(lia)) as Hdig1.
  pose proof (Zdigits2_spec (N2 / D2) ltac:(lia)) as Hdig2.
  pose proof (Z.div_mod N1 D1 ltac:(lia)) as Hdm1.
  pose proof (Z.mod_pos_bound N1 D1 HD1) as Hb1.
  pose proof (Z.div_mod N2 D2 ltac:(lia)) as Hdm2.
  pose proof (Z.mod_pos_bound N2 D2 HD2) as Hb2.
  assert (Hd1 : 53 <= Zdigits2 (N1 / D1))
    by (apply (Zdigits2_ge (N1 / D1) 52); lia).
  assert (Hd2 : 53 <= Zdigits2 (N2 / D2))
    by (apply (Zdigits2_ge (N2 / D2) 52); lia).
  assert (HN1 : 0 <= N1) by nia.
  unfold rounded. cbv zeta.
  set (m1 := N1 / D1) in *. set (m2 := N2 / D2) in *.
  set (dig1 := Zdigits2 m1) in *. set (dig2 := Zdigits2 m2) in *.
  set (g1 := dig1 + e1 - 53). set (g2 := dig2 + e2 - 53).
  pose proof (pow2_pos (e1 - c) ltac:(lia)) as HA1.
  pose proof (pow2_pos (e2 - c) ltac:(lia)) as HA2.
  (* the exponents are in order *)
  assert (Hg : g1 <= g2).
  { destruct (Z_lt_le_dec g2 g1) as [Hgt|]; [exfalso | assumption].
    assert (Hlow : D1 * 2 ^ (dig2 + e2 - c) <= N1 * 2 ^ (e1 - c)).
    { assert (H1 : 2 ^ (dig2 + e2 - c) <= 2 ^ (dig1 - 1) * 2 ^ (e1 - c)).
      { rewrite <- Z.pow_add_r by lia.
        apply Z.pow_le_mono_r; [lia|]. unfold g1, g2 in Hgt. lia. }
      assert (H2 : D1 * m1 <= N1) by lia.
      assert (H3 : D1 * 2 ^ (dig1 - 1) <= D1 * m1)
        by (apply Z.mul_le_mono_nonneg_l; lia).
      assert (H4 : D1 * 2 ^ (dig2 + e2 - c)
                   <= D1 * (2 ^ (dig1 - 1) * 2 ^ (e1 - c)))
        by (apply Z.mul_le_mono_nonneg_l; lia).
      assert (H5 : D1 * 2 ^ (dig1 - 1) * 2 ^ (e1 - c)
                   <= N1 * 2 ^ (e1 - c))
        by (apply Z.mul_le_mono_nonneg_r; lia).
      lia. }
    assert (Hhigh : N2 * 2 ^ (e2 - c) < D2 * 2 ^ (dig2 + e2 - c)).
    { replace (dig2 + e2 - c) with (dig2 + (e2 - c)) by lia.
      rewrite Z.pow_add_r by lia.
      assert (H1 : N2 < D2 * 2 ^ dig2).
      { assert (D2 * (m2 + 1) <= D2 * 2 ^ dig2)
          by (apply Z.mul_le_mono_nonneg_l; lia). lia. }
      assert (H2 : N2 * 2 ^ (e2 - c) < D2 * 2 ^ dig2 * 2 ^ (e2 - c))
        by (apply Z.mul_lt_mono_pos_r; lia).
      lia. }
    assert (H6 : D1 * 2 ^ (dig2 + e2 - c) * D2
                 <= N1 * 2 ^ (e1 - c) * D2)
      by (apply Z.mul_le_mono_nonneg_r; lia).
    assert (H7 : N2 * 2 ^ (e2 - c) * D1
                 < D2 * 2 ^ (dig2 + e2 - c) * D1)
      by (apply Z.mul_lt_mono_pos_r; lia).
    lia. }
  pose proof (pow2_pos (g1 - e1) ltac:(unfold g1; lia)) as HP1.
  pose proof (pow2_pos (g2 - e2) ltac:(unfold g2; lia)) as HP2.
  destruct (binary_round_aux_located N1 D1 e1 HD1 Hm1 Hg1) as [HR1 _].
  destruct (binary_round_aux_located N2 D2 e2 HD2 Hm2 Hg2) as [HR2 _].
  cbv zeta in HR1, HR2. fold m1 dig1 g1 in HR1. fold m2 dig2 g2 in HR2.
  set (R1 := rnd N1 (D1 * 2 ^ (g1 - e1))) in *.
  set (R2 := rnd N2 (D2 * 2 ^ (g2 - e2))) in *.
  unfold lex_le.
  destruct (Z.eq_dec g1 g2) as [Heq|Hne].
  - (* the same exponent: compare the rounded mantissas *)
    assert (HR : R1 <= R2).
    { unfold R1, R2.
      apply rnd_mono;
        [apply Z.mul_pos_pos; assumption
        | apply Z.mul_pos_pos; assumption
        | exact HN1 |].
      rewrite <- Heq.
      pose proof (pow2_pos (g1 - c) ltac:(unfold g1; lia)) as HG.
      assert (E1 : 2 ^ (g1 - e1) * 2 ^ (e1 - c) = 2 ^ (g1 - c)).
      { rewrite <- Z.pow_add_r by (unfold g1; lia). f_equal. lia. }
      assert (E2 : 2 ^ (g1 - e2) * 2 ^ (e2 - c) = 2 ^ (g1 - c)).
      { rewrite <- Z.pow_add_r by (unfold g1, g2 in *; lia).
        f_equal. lia. }
      apply Z.mul_le_mono_pos_r with (2 ^ (e1 - c) * 2 ^ (e2 - c));
        [nia|].
      replace (N1 * (D2 * 2 ^ (g1 - e2)) * (2 ^ (e1 - c) * 2 ^ (e2 - c)))
        with (N1 * 2 ^ (e1 - c) * D2 * (2 ^ (g1 - e2) * 2 ^ (e2 - c)))
        by ring.
      replace (N2 * (D1 * 2 ^ (g1 - e1)) * (2 ^ (e1 - c) * 2 ^ (e2 - c)))
        with (N2 * 2 ^ (e2 - c) * D1 * (2 ^ (g1 - e1) * 2 ^ (e1 - c)))
        by ring.
      rewrite E1, E2. apply Z.mul_le_mono_nonneg_r; lia. }
    destruct (R1 <? 2 ^ 53) eqn:L1; destruct (R2 <? 2 ^ 53) eqn:L2;
      cbn [fst snd];
      try apply Z.ltb_lt in L1; try apply Z.ltb_ge in L1;
      try apply Z.ltb_lt in L2; try apply Z.ltb_ge in L2; lia.
  - destruct (R1 <? 2 ^ 53) eqn:L1; destruct (R2 <? 2 ^ 53) eqn:L2;
      cbn [fst snd];
      try apply Z.ltb_lt in L1; try apply Z.ltb_ge in L1;
      try apply Z.ltb_lt in L2; try apply Z.ltb_ge in L2; lia.
Qed.

(** ** The quotient and the product as rounded fractions *)

(** A normal mantissa. *)
Lemma normal_mantissa (m : positive) :
  Zdigits2 (Zpos m) = 53 -> 2 ^ 52 <= Zpos m < 2 ^ 53.
Proof.
  intros Hd. pose proof (Zdigits2_spec (Zpos m) ltac:(lia)) as H.
  rewrite Hd in H. exact H.
Qed.

Lemma SFdiv_rounded (m1 m2 : positive) (e1 e2 : Z) :
  Zdigits2 (Zpos m1) = 53 -> Zdigits2 (Zpos m2) = 53 ->
  -52 <= e1 <= 0 -> -52 <= e2 <= 0 ->
  normal_input (Zpos m1 * 2 ^ 53) (Zpos m2) (e1 - e2 - 53) /\
  SF64div (S754_finite false m1 e1) (S754_finite false m2 e2) =
    S754_finite false
      (Z.to_pos (fst (rounded (Zpos m1 * 2 ^ 53) (Zpos m2) (e1 - e2 - 53))))
      (snd (rounded (Zpos m1 * 2 ^ 53) (Zpos m2) (e1 - e2 - 53))).
Proof.
  intros Hd1 Hd2 He1 He2.
  pose proof (normal_mantissa m1 Hd1) as Hm1.
  pose proof (normal_mantissa m2 Hd2) as Hm2.
  assert (Hq : 2 ^ 52 <= Zpos m1 * 2 ^ 53 / Zpos m2 < 2 ^ 54).
  { split.
    - apply Z.div_le_lower_bound; lia.
    - apply Z.div_lt_upper_bound; lia. }
  assert (Hnormal : normal_input (Zpos m1 * 2 ^ 53) (Zpos m2)
                      (e1 - e2 - 53)).
  { split; [lia|]. split; [lia|].
    assert (53 <= Zdigits2 (Zpos m1 * 2 ^ 53 / Zpos m2) <= 54).
    { split.
      - apply (Zdigits2_ge _ 52); lia.
      - apply Zdigits2_le; lia. }
    lia. }
  split; [exact Hnormal|].
  destruct (rounded_spec _ _ _ Hnormal) as (_ & _ & <-).
  unfold SF64div, SFdiv, SFdiv_core_binary. cbn [xorb].
  rewrite Hd1, Hd2, fexp_64.
  replace (Z.min (Z.max (53 + e1 - (53 + e2) - 53) (-1074)) (e1 - e2))
    with (e1 - e2 - 53) by lia.
  replace (e1 - e2 - (e1 - e2 - 53)) with 53 by lia.
  rewrite Z.shiftl_mul_pow2 by lia.
  rewrite <- (new_location_loc_of (Zpos m1 * 2 ^ 53) (Zpos m2)) by lia.
  unfold Z.div, Z.modulo.
  destruct (Z.div_eucl (Zpos m1 * 2 ^ 53) (Zpos m2)) as [q r].
  reflexivity.
Qed.

Lemma SFmul_100_rounded (m : Z) (e : Z) :
  2 ^ 52 <= m < 2 ^ 53 -> -200 <= e <= 2 ->
  normal_input (m * 7036874417766400) 1 (e + -46) /\
  SF64mul (S754_finite false (Z.to_pos m) e)
          (S754_finite false 7036874417766400 (-46)) =
    S754_finite false
      (Z.to_pos (fst (rounded (m * 7036874417766400) 1 (e + -46))))
      (snd (rounded (m * 7036874417766400) 1 (e + -46))).
Proof.
  intros Hm He.
  assert (Hp : 2 ^ 104 <= m * 7036874417766400 < 2 ^ 106) by lia.
  assert (Hnormal : normal_input (m * 7036874417766400) 1 (e + -46)).
  { split; [lia|]. rewrite Z.div_1_r. split; [lia|].
    assert (105 <= Zdigits2 (m * 7036874417766400) <= 106).
    { split.
      - apply (Zdigits2_ge _ 104); lia.
      - apply Zdigits2_le; lia. }
    lia. }
  split; [exact Hnormal|].
  destruct (rounded_spec _ _ _ Hnormal) as (_ & _ & <-).
  unfold SF64mul, SFmul. cbn [xorb].
  rewrite Z.div_1_r. unfold loc_of. rewrite Z.mod_1_r. cbn [Z.eqb].
  f_equal. rewrite Pos2Z.inj_mul, Z2Pos.id by lia. reflexivity.
Qed.

(** ** The percentage is monotone in the index *)

Lemma exponent_range (a : Z) (m : positive) (e : Z) :
  0 < a -> e <= 0 -> Zpos m = a * 2 ^ (- e) -> Zdigits2 (Zpos m) = 53 ->
  -52 <= e <= 0.
Proof.
  intros Ha He Hm Hd. pose proof (normal_mantissa m Hd) as Hn.
  split; [|exact He].
  destruct (Z_lt_le_dec e (-52)) as [Hlt|]; [exfalso | assumption].
  assert (2 ^ 53 <= 2 ^ (- e)) by (apply Z.pow_le_mono_r; lia).
  assert (2 ^ (- e) <= a * 2 ^ (- e)) by nia.
  lia.
Qed.

(** The value of a normal float grows with its mantissa and exponent. *)
Lemma lex_le_value (x y : Z * Z) (k : Z) :
  lex_le x y ->
  0 <= fst x < 2 ^ 53 -> 2 ^ 52 <= fst y ->
  0 <= snd x + k -> 0 <= snd y + k ->
  fst x * 2 ^ (snd x + k) <= fst y * 2 ^ (snd y + k).
Proof.
  destruct x as [M E], y as [M' E']. unfold lex_le. cbn [fst snd].
  intros [Hlt | [-> Hle]] HM HM' Hk Hk'.
  - pose proof (pow2_pos (E + k) Hk) as HP.
    replace (E' + k) with (E + k + (E' - E)) by lia.
    rewrite (Z.pow_add_r 2 (E + k) (E' - E)) by lia.
    assert (2 <= 2 ^ (E' - E)).
    { change 2 with (2 ^ 1) at 1. apply Z.pow_le_mono_r; lia. }
    assert (M * 2 ^ (E + k) <= 2 ^ 53 * 2 ^ (E + k))
      by (apply Z.mul_le_mono_nonneg_r; lia).
    assert (2 ^ 52 * (2 ^ (E + k) * 2 ^ (E' - E))
            <= M' * (2 ^ (E + k) * 2 ^ (E' - E)))
      by (apply Z.mul_le_mono_nonneg_r; nia).
    nia.
  - apply Z.mul_le_mono_nonneg_r; [|exact Hle].
    apply Z.lt_le_incl, pow2_pos, Hk'.
Qed.

(** So does its integer part. *)
Lemma lex_le_trunc (x y : Z * Z) :
  lex_le x y ->
  0 <= fst x < 2 ^ 53 -> 2 ^ 52 <= fst y ->
  snd x <= 0 -> snd y <= 0 ->
  fst x / 2 ^ (- snd x) <= fst y / 2 ^ (- snd y).
Proof.
  destruct x as [M E], y as [M' E']. unfold lex_le. cbn [fst snd].
  intros [Hlt | [-> Hle]] HM HM' HE HE'.
  - pose proof (pow2_pos (- E') ltac:(lia)) as HP.
    replace (- E) with ((E' - E) + - E') by lia.
    rewrite (Z.pow_add_r 2 (E' - E) (- E')) by lia.
    rewrite <- Z.div_div by (try apply pow2_pos; lia).
    apply Z.div_le_mono; [exact HP|].
    assert (2 <= 2 ^ (E' - E)).
    { change 2 with (2 ^ 1) at 1. apply Z.pow_le_mono_r; lia. }
    assert (M / 2 ^ (E' - E) < 2 ^ 52); [|lia].
    apply Z.div_lt_upper_bound; [lia|]. nia.
  - apply Z.div_le_mono; [apply pow2_pos; lia | exact Hle].
Qed.

Lemma int_of_finite (x : float) (m : positive) (e : Z) :
  Prim2SF x = S754_finite false m e -> e <= 0 ->
  Py.int_of_float x = Some (Zpos m / 2 ^ (- e)).
Proof.
  intros Hx He. unfold Py.int_of_float. rewrite Hx. f_equal.
  destruct (0 <=? e) eqn:E.
  - apply Z.leb_le in E. assert (e = 0) by lia. subst e.
    rewrite Z.shiftl_0_r. change (2 ^ (- 0)) with 1.
    symmetry. apply Z.div_1_r.
  - apply Z.shiftr_div_pow2. lia.
Qed.

(** The percentage of a positive index, as a rounded product of a
    rounded quotient. *)
Lemma progress_val_chain (idx total : nat) (m1 m2 : positive) (e1 e2 : Z) :
  (0 < idx < total)%nat -> Z.of_nat total < 2 ^ 53 ->
  Prim2SF (Py.float_of_nat idx) = S754_finite false m1 e1 ->
  e1 <= 0 -> Zpos m1 = Z.of_nat idx * 2 ^ (- e1) ->
  Zdigits2 (Zpos m1) = 53 ->
  Prim2SF (Py.float_of_nat total) = S754_finite false m2 e2 ->
  e2 <= 0 -> Zpos m2 = Z.of_nat total * 2 ^ (- e2) ->
  Zdigits2 (Zpos m2) = 53 ->
  let q := quotient_of (Zpos m1) e1 (Zpos m2) e2 in
  let r := times_100 q in
  normal_input (Zpos m1 * 2 ^ 53) (Zpos m2) (e1 - e2 - 53) /\
  2 ^ 52 <= fst q < 2 ^ 53 /\ -200 <= snd q <= 0 /\
  normal_input (fst q * 7036874417766400) 1 (snd q + -46) /\
  2 ^ 52 <= fst r < 2 ^ 53 /\ snd r <= 0 /\
  progress_val idx total = Some (fst r / 2 ^ (- snd r)).
Proof.
  intros Hidx Htot Hx He1 Hm1 Hd1 Hy He2 Hm2 Hd2 q r.
  assert (Hrdef : r = times_100 q) by reflexivity.
  assert (Hqdef : q = quotient_of (Zpos m1) e1 (Zpos m2) e2)
    by reflexivity.
  clearbody r. clearbody q.
  pose proof (exponent_range (Z.of_nat idx) m1 e1 ltac:(lia) He1 Hm1 Hd1)
    as He1'.
  pose proof (exponent_range (Z.of_nat total) m2 e2 ltac:(lia) He2 Hm2 Hd2)
    as He2'.
  destruct (SFdiv_rounded m1 m2 e1 e2 Hd1 Hd2 He1' He2') as [Hn1 Hdiv].
  destruct (rounded_spec _ _ _ Hn1) as (Hq1 & Hq2 & _).
  unfold quotient_of in Hqdef. rewrite <- Hqdef in Hdiv, Hq1, Hq2.
  destruct (SFdiv_le_1 (Z.of_nat idx) (Z.of_nat total) m1 m2 e1 e2
              ltac:(lia) Htot He1 He2 Hm1 Hm2)
    as [Hz | (m & e & Hf & He & Hm)];
    [rewrite Hdiv in Hz; discriminate|].
  rewrite Hdiv in Hf. injection Hf as Hmm Hee.
  (* the quotient is at most one *)
  assert (Hqe : -200 <= snd q <= 0).
  { assert (Hd : 53 <= Zdigits2 (Zpos m1 * 2 ^ 53 / Zpos m2)).
    { destruct Hn1 as (_ & Hlo & _). apply (Zdigits2_ge _ 52); lia. }
    lia. }
  assert (Hqm : Zpos (Z.to_pos (fst q)) <= 1 * 2 ^ (- snd q)).
  { rewrite Hmm, Hee. exact Hm. }
  destruct (SFmul_100_rounded (fst q) (snd q) Hq1 ltac:(lia))
    as [Hn2 Hmul].
  destruct (rounded_spec _ _ _ Hn2) as (Hr1 & Hr2 & _).
  unfold times_100 in Hrdef. rewrite <- Hrdef in Hmul, Hr1, Hr2.
  assert (Hprod : Prim2SF (PrimFloat.mul
                    (PrimFloat.div (Py.float_of_nat idx)
                                   (Py.float_of_nat total))
                    (Py.float_of_nat 100)) =
                  S754_finite false (Z.to_pos (fst r)) (snd r)).
  { rewrite FloatAxioms.mul_spec, FloatAxioms.div_spec, float_of_nat_100,
      Hx, Hy, Hdiv. exact Hmul. }
  (* the product is at most one hundred *)
  assert (Hre : snd r <= 0).
  { destruct (SFmul_100_le (Z.to_pos (fst q)) (snd q) ltac:(lia) Hqm)
      as [Hz | (m' & e' & Hf' & He' & Hm')].
    - rewrite Hmul in Hz. discriminate.
    - rewrite Hmul in Hf'. injection Hf' as Hmm' Hee'. lia. }
  split; [exact Hn1|]. split; [exact Hq1|]. split; [exact Hqe|].
  split; [exact Hn2|]. split; [exact Hr1|]. split; [exact Hre|].
  unfold progress_val, Py.truediv.
  destruct total as [|t]; [lia|].
  rewrite (int_of_finite _ _ _ Hprod Hre), Z2Pos.id by lia.
  reflexivity.
Qed.

(** [int((idx / total) * 100)] does not decrease when the index grows,
    for every total below 2^53. *)
Lemma progress_val_mono (idx idx' total : nat) :
  (idx <= idx' < total)%nat -> Z.of_nat total < 2 ^ 53 ->
  exists p p',
    progress_val idx total = Some p /\
    progress_val idx' total = Some p' /\ p <= p'.
Proof.
  intros Hidx Htot.
  destruct (progress_val_range idx' total ltac:(lia) Htot)
    as (p' & Hp' & Hr').
  destruct idx as [|i].
  - exists 0, p'. split; [|split; [exact Hp' | lia]].
    unfold progress_val, Py.truediv. destruct total as [|t]; [lia|].
    unfold Py.int_of_float.
    rewrite FloatAxioms.mul_spec, FloatAxioms.div_spec, float_of_nat_0.
    destruct (float_of_nat_exact (S t) ltac:(lia))
      as (m2 & e2 & Hy & _).
    rewrite Hy, float_of_nat_100. reflexivity.
  - set (idx := S i) in *.
    destruct (float_of_nat_exact idx ltac:(lia))
      as (m1 & e1 & Hx & He1 & Hm1 & Hd1).
    destruct (float_of_nat_exact idx' ltac:(lia))
      as (m1' & e1' & Hx' & He1' & Hm1' & Hd1').
    destruct (float_of_nat_exact total ltac:(lia))
      as (m2 & e2 & Hy & He2 & Hm2 & Hd2).
    destruct (progress_val_chain idx total m1 m2 e1 e2 ltac:(lia) Htot
                Hx He1 Hm1 Hd1 Hy He2 Hm2 Hd2)
      as (Hn1 & Hq1 & Hqe & Hn2 & Hr1 & Hre & Hp).
    destruct (progress_val_chain idx' total m1' m2 e1' e2 ltac:(lia) Htot
                Hx' He1' Hm1' Hd1' Hy He2 Hm2 Hd2)
      as (Hn1' & Hq1' & Hqe' & Hn2' & Hr1' & Hre' & Hp2).
    cbv zeta in *.
    eexists. eexists. split; [exact Hp|]. split; [exact Hp2|].
    pose proof (exponent_range (Z.of_nat idx) m1 e1 ltac:(lia) He1 Hm1 Hd1)
      as Hb1.
    pose proof (exponent_range (Z.of_nat idx') m1' e1' ltac:(lia) He1' Hm1'
                  Hd1') as Hb1'.
    pose proof (exponent_range (Z.of_nat total) m2 e2 ltac:(lia) He2 Hm2 Hd2)
      as Hb2.
    (* the quotients are in order *)
    assert (Hq : lex_le (quotient_of (Zpos m1) e1 (Zpos m2) e2)
                        (quotient_of (Zpos m1') e1' (Zpos m2) e2)).
    { apply (rounded_mono _ _ _ _ _ _ (- e2 - 105) Hn1 Hn1');
        [lia | lia |].
      replace (e1 - e2 - 53 - (- e2 - 105)) with (52 + e1) by lia.
      replace (e1' - e2 - 53 - (- e2 - 105)) with (52 + e1') by lia.
      apply Z.mul_le_mono_nonneg_r; [lia|].
      rewrite Hm1, Hm1'.
      assert (E : forall a e, -52 <= e <= 0 ->
                  a * 2 ^ (- e) * 2 ^ 53 * 2 ^ (52 + e) = a * 2 ^ 105).
      { intros a e He.
        replace (a * 2 ^ (- e) * 2 ^ 53 * 2 ^ (52 + e))
          with (a * 2 ^ 53 * (2 ^ (- e) * 2 ^ (52 + e))) by ring.
        rewrite <- Z.pow_add_r by lia.
        replace (- e + (52 + e)) with 52 by lia. lia. }
      rewrite !E by assumption. lia. }
    (* so are the products *)
    assert (Hr : lex_le (times_100 (quotient_of (Zpos m1) e1 (Zpos m2) e2))
                        (times_100
                           (quotient_of (Zpos m1') e1' (Zpos m2) e2))).
    { apply (rounded_mono _ _ _ _ _ _ (-400) Hn2 Hn2'); [lia | lia |].
      rewrite !Z.mul_1_r.
      pose proof (lex_le_value _ _ 354 Hq ltac:(lia) ltac:(lia)
                    ltac:(lia) ltac:(lia)) as Hv.
      replace (snd (quotient_of (Zpos m1) e1 (Zpos m2) e2) + -46 - -400)
        with (snd (quotient_of (Zpos m1) e1 (Zpos m2) e2) + 354) by lia.
      replace (snd (quotient_of (Zpos m1') e1' (Zpos m2) e2) + -46 - -400)
        with (snd (quotient_of (Zpos m1') e1' (Zpos m2) e2) + 354) by lia.
      nia. }
    apply lex_le_trunc; try assumption; lia.
Qed.

End Binary64.

(** ** Progress of an uncancelled run *)

Lemma progress_values_app (tr tr' : list Event) :
  progress_values (tr ++ tr') = progress_values tr ++ progress_values tr'.
Proof. apply flat_map_app. Qed.

Lemma progress_values_skeleton (tr : list Event) :
  progress_values (skeleton tr) = progress_values tr.
Proof.
  induction tr as [|ev tr IH]; [reflexivity|].
  change (skeleton (ev :: tr))
    with (if negb (is_query ev) then ev :: skeleton tr else skeleton tr).
  change (progress_values (ev :: tr))
    with (match ev with EvProgress p _ => [p] | _ => [] end
          ++ progress_values tr).
  destruct ev; cbn [is_query negb app];
    first [exact IH | apply (f_equal (cons pct)), IH].
Qed.

Lemma progress_values_announce (total : nat)
    (servers : list (string * string)) :
  forall idx results,
    List.length results = List.length servers ->
    progress_values (announce total idx servers results)
    = percentages total idx (List.length servers).
Proof.
  induction servers as [|[sname sip] rest IH]; intros idx results Hlen.
  - reflexivity.
  - destruct results as [|r results]; [discriminate|].
    cbn [announce List.length]. injection Hlen as Hlen.
    rewrite progress_values_app.
    change (progress_values (EvTested r :: ?l)) with (progress_values l).
    rewrite (IH (S idx) results Hlen).
    change (percentages total idx (S (List.length rest)))
      with (match progress_val idx total with
            | Some p => [p]
            | None => []
            end ++ percentages total (S idx) (List.length rest)).
    unfold announce_one.
    destruct (progress_val idx total); reflexivity.
Qed.

Lemma increasing_b_sorted (l : list Z) :
  increasing_b l = true -> StronglySorted Z.lt l.
Proof.
  intros H. apply Sorted_StronglySorted; [exact Z.lt_trans|].
  induction l as [|x l IH]; [constructor|].
  destruct l as [|y l].
  - repeat constructor.
  - cbn [increasing_b] in H. apply andb_true_iff in H as [Hxy Hl].
    constructor; [apply IH, Hl | constructor; apply Z.ltb_lt, Hxy].
Qed.

Lemma good_totals : forallb good_total (seq 0 100) = true.
Proof. vm_compute. reflexivity. Qed.

Lemma good_total_upto_99 (n : nat) :
  (n <= 99)%nat ->
  List.length (percentages n 0 n ++ [100%Z]) = S n /\
  StronglySorted Z.lt (percentages n 0 n ++ [100%Z]) /\
  Forall (fun p => (0 <= p <= 100)%Z) (percentages n 0 n ++ [100%Z]).
Proof.
  intros Hn. pose proof good_totals as H.
  rewrite forallb_forall in H. specialize (H n).
  assert (Hin : In n (seq 0 100)) by (apply in_seq; lia).
  apply H in Hin. unfold good_total in Hin. cbv zeta in Hin.
  apply andb_true_iff in Hin as [Hin Hrange].
  apply andb_true_iff in Hin as [Hlen Hinc].
  split; [apply Nat.eqb_eq, Hlen|].
  split; [apply increasing_b_sorted, Hinc|].
  apply Forall_forall. intros p Hp.
  rewrite forallb_forall in Hrange. specialize (Hrange p Hp).
  apply andb_true_iff in Hrange as [H0 H100].
  apply Z.leb_le in H0, H100. lia.
Qed.

(** With 100 servers the percentages of servers 28 and 29 coincide. *)
Example progress_28_of_100 : progress_val 28 100 = Some 28%Z.
Proof. vm_compute. reflexivity. Qed.

Example progress_29_of_100 : progress_val 29 100 = Some 28%Z.
Proof. vm_compute. reflexivity. Qed.

(** The percentages of a run over fewer than 2^53 servers: every one is
    computed and lies in [0, 100]. *)
Lemma percentages_range (total : nat) :
  (Z.of_nat total < 2 ^ 53)%Z ->
  forall n idx,
    (idx + n <= total)%nat ->
    List.length (percentages total idx n) = n /\
    Forall (fun p => (0 <= p <= 100)%Z) (percentages total idx n).
Proof.
  intros Htot. induction n as [|n IH]; intros idx Hle.
  - split; [reflexivity | constructor].
  - change (percentages total idx (S n))
      with (match progress_val idx total with
            | Some p => [p]
            | None => []
            end ++ percentages total (S idx) n).
    destruct (progress_val_range idx total ltac:(lia) Htot)
      as (p & Hp & Hrange).
    rewrite Hp. destruct (IH (S idx) ltac:(lia)) as [Hlen Hall].
    cbn [app List.length]. split; [congruence|].
    constructor; assumption.
Qed.

(** The percentages of a run never decrease, and end below the final
    100: the rounded quotient and the rounded product are monotone in the
    index. *)
Lemma percentages_nondecreasing (total : nat) :
  (Z.of_nat total < 2 ^ 53)%Z ->
  forall n idx,
    (idx + n <= total)%nat ->
    StronglySorted Z.le (percentages total idx n ++ [100%Z]).
Proof.
  intros Htot. induction n as [|n IH]; intros idx Hle.
  - cbn. repeat constructor.
  - change (percentages total idx (S n))
      with (match progress_val idx total with
            | Some p => [p]
            | None => []
            end ++ percentages total (S idx) n).
    destruct (progress_val_range idx total ltac:(lia) Htot)
      as (p & Hp & Hrange).
    rewrite Hp. cbn [app]. constructor; [apply IH; lia|].
    apply Forall_app. split; [|constructor; [lia | constructor]].
    apply Forall_forall. intros p' Hin.
    unfold percentages in Hin. apply in_flat_map in Hin.
    destruct Hin as (j & Hj & Hin). apply in_seq in Hj.
    destruct (progress_val_mono idx j total ltac:(lia) Htot)
      as (q & q' & Hq & Hq' & Hqq).
    rewrite Hq' in Hin. destruct Hin as [<-|[]]. congruence.
Qed.

(** Strictly increasing integers between [lo] and 100 are at most
    [101 - lo] in number. *)
Lemma increasing_length (l : list Z) :
  forall lo,
    StronglySorted Z.lt l ->
    Forall (fun p => (lo <= p <= 100)%Z) l ->
    (Z.of_nat (List.length l) <= Z.max 0 (101 - lo))%Z.
Proof.
  induction l as [|x l IH]; intros lo Hs Hr.
  - cbn. lia.
  - inversion Hs as [|? ? Hs' Hx]; subst.
    inversion Hr as [|? ? Hx0 Hr']; subst.
    assert (Hr1 : Forall (fun p => (x + 1 <= p <= 100)%Z) l).
    { rewrite Forall_forall in *. intros p Hp.
      specialize (Hx p Hp). specialize (Hr' p Hp). lia. }
    specialize (IH (x + 1)%Z Hs' Hr1).
    cbn [List.length]. lia.
Qed.

Lemma sorted_increasing_b (l : list Z) :
  StronglySorted Z.lt l -> increasing_b l = true.
Proof.
  induction l as [|x l IH]; intros Hs; [reflexivity|].
  inversion Hs as [|? ? Hs' Hx]; subst.
  destruct l as [|y l]; [reflexivity|].
  cbn [increasing_b]. apply andb_true_iff. split.
  - apply Z.ltb_lt. inversion Hx; assumption.
  - apply IH, Hs'.
Qed.

(** With 100 servers the percentages do not increase strictly. *)
Lemma percentages_100_repeat :
  increasing_b (percentages 100 0 100 ++ [100%Z]) = false.
Proof. vm_compute. reflexivity. Qed.

(** From 100 servers on the percentages of a run cannot increase
    strictly: with 100 servers a value repeats, and with more there are
    more percentages than integers in [0, 100]. *)
Lemma percentages_not_increasing (n : nat) :
  (100 <= n)%nat -> (Z.of_nat n < 2 ^ 53)%Z ->
  ~ StronglySorted Z.lt (percentages n 0 n ++ [100%Z]).
Proof.
  intros Hn Hbig Hs.
  destruct (Nat.eq_dec n 100) as [->|Hne].
  - apply sorted_increasing_b in Hs.
    rewrite percentages_100_repeat in Hs. discriminate.
  - destruct (percentages_range n Hbig n 0 ltac:(lia)) as [Hlen Hrange].
    assert (Hall : Forall (fun p => (0 <= p <= 100)%Z)
                     (percentages n 0 n ++ [100%Z])).
    { apply Forall_app. split; [exact Hrange|].
      constructor; [lia | constructor]. }
    pose proof (increasing_length _ 0%Z Hs Hall) as Hlen'.
    rewrite length_app, Hlen in Hlen'. cbn [List.length] in Hlen'. lia.
Qed.

(** The loop of a run that nobody stops, as one equation on the trace. *)
Lemma run_loop_unstopped (e : Env) (query_count total : nat)
    (servers : list (string * string)) :
  cancel_at e = None ->
  forall idx results w,
  exists new,
    fst (run_loop query_count total idx servers results e w)
      = results ++ new /\
    trace (snd (run_loop query_count total idx servers results e w))
      = trace w
        ++ run_events e query_count total idx (draws w) servers new.
Proof.
  intros Hc.
  induction servers as [|[sname sip] rest IH]; intros idx results w.
  - exists []. cbn. rewrite !app_nil_r. auto.
  - rewrite run_loop_cons. unfold is_running. rewrite Hc. cbv zeta.
    cbn [polls queries draws trace].
    rewrite (test_single_server_unstopped e sname sip query_count _ Hc).
    cbn [polls queries draws trace]. unfold emit.
    match goal with |- context [run_loop _ _ _ rest (results ++ [?r]) e ?w4] =>
      destruct (IH (S idx) (results ++ [r]) w4) as (new & Hres & Htr);
      exists (r :: new)
    end.
    rewrite Hres, Htr. cbn [draws trace run_events].
    unfold campaign_queries. rewrite <- !app_assoc. cbn [app].
    split; reflexivity.
Qed.

(** C7 (as the code has it).  The whole trace of a run that nobody
    stops: for each server in turn one progress signal,
    [int((idx / total) * 100)] with the status ["Testing <name>..."],
    emitted before the first query of the server's campaign (and not
    after its last), then the queries of the campaign, then the result;
    at the end one [(100, "Complete!")] signal followed by the finished
    signal, which carries one result per server, in the order of the
    servers.  Every percentage is computed and lies in [0, 100], for any
    number of servers that converts to binary64 as it is (below 2^53),
    and the percentages never decrease; they increase strictly over at
    most 99 servers, and over no more. *)
Theorem uncancelled_run_progress (e : Env)
    (servers : list (string * string)) (query_count : nat) :
  cancel_at e = None ->
  let results := fst (run servers query_count e init_world) in
  let tr := trace (snd (run servers query_count e init_world)) in
  map name results = map fst servers /\
  map ip results = map snd servers /\
  tr =
    run_events e query_count (List.length servers) 0 0 servers results
    ++ [EvProgress 100%Z "Complete!"; EvFinished results] /\
  ((Z.of_nat (List.length servers) < 2 ^ 53)%Z ->
   List.length (progress_values tr) = S (List.length servers) /\
   Forall (fun p => (0 <= p <= 100)%Z) (progress_values tr)) /\
  ((Z.of_nat (List.length servers) < 2 ^ 53)%Z ->
   StronglySorted Z.le (progress_values tr)) /\
  ((List.length servers <= 99)%nat ->
   StronglySorted Z.lt (progress_values tr)) /\
  ((100 <= List.length servers)%nat ->
   (Z.of_nat (List.length servers) < 2 ^ 53)%Z ->
   ~ StronglySorted Z.lt (progress_values tr)).
Proof.
  intros Hc results tr. subst results tr. unfold run, bind.
  destruct (run_loop_skeleton e query_count (List.length servers) servers
              0 [] init_world)
    as (new & Hres & _ & Hall & Hnames & Hips & Hsk).
  destruct (run_loop_unstopped e query_count (List.length servers) servers
              Hc 0 [] init_world)
    as (new' & Hres' & Htr).
  specialize (Hall Hc). rewrite Hall, firstn_all in Hnames, Hips.
  destruct (run_loop query_count (List.length servers) 0 servers []
              e init_world) as [results w1].
  cbn [fst snd app trace draws init_world skeleton filter]
    in Hres, Hres', Htr, Hsk.
  subst results. subst new'.
  unfold is_running. rewrite Hc. unfold emit, ret.
  cbn [fst snd trace].
  assert (Hpv : progress_values
                  ((trace w1 ++ [EvProgress 100%Z "Complete!"])
                   ++ [EvFinished new])
                = percentages (List.length servers) 0 (List.length servers)
                  ++ [100%Z]).
  { rewrite <- progress_values_skeleton, !skeleton_app, Hsk.
    rewrite <- app_assoc, progress_values_app,
      progress_values_announce by exact Hall.
    reflexivity. }
  split; [exact Hnames|]. split; [exact Hips|].
  split; [rewrite Htr, <- app_assoc; reflexivity|].
  rewrite Hpv. split.
  - intros Hn.
    destruct (percentages_range (List.length servers) Hn
                (List.length servers) 0 ltac:(lia)) as [Hlen Hrange].
    split.
    + rewrite length_app, Hlen. cbn. lia.
    + apply Forall_app. split; [exact Hrange|].
      constructor; [lia | constructor].
  - split; [|split].
    + intros Hn. apply percentages_nondecreasing; [exact Hn | lia].
    + intros Hn. apply good_total_upto_99, Hn.
    + intros Hn Hbig. apply percentages_not_increasing; assumption.
Qed.

(** ** A run stopped between two servers *)

Lemma run_results (e : Env) (servers : list (string * string))
    (query_count : nat) (w : World) :
  fst (run servers query_count e w) =
  fst (run_loop query_count (List.length servers) 0 servers [] e w).
Proof.
  unfold run, bind.
  destruct (run_loop query_count (List.length servers) 0 servers [] e w)
    as [results w1].
  destruct (is_running e w1) as [[|] w2]; reflexivity.
Qed.

Lemma delivery_skeleton (tr : list Event) :
  filter is_delivery (skeleton tr) = filter is_delivery tr.
Proof.
  induction tr as [|ev tr IH]; [reflexivity|].
  destruct ev; cbn; fold (skeleton tr); rewrite ?IH; reflexivity.
Qed.

Lemma delivery_announce (total : nat) (servers : list (string * string)) :
  forall idx results,
    filter is_delivery (announce total idx servers results) = [].
Proof.
  induction servers as [|[sname sip] rest IH]; intros idx results.
  - reflexivity.
  - destruct results as [|r results]; [reflexivity|].
    cbn [announce]. rewrite filter_app. cbn [filter is_delivery].
    rewrite IH. unfold announce_one.
    destruct (progress_val idx total); reflexivity.
Qed.

Section StoppedRun.

Variable e : Env.
Variable k : nat.
Hypothesis stop_at_k : cancel_at e = Some k.
Variable query_count : nat.
Variable total : nat.

Local Abbreviation per_server := (polls_per_server query_count).

(** Once the flag is cleared the loop leaves at its next poll. *)
Lemma run_loop_break (idx : nat) (s : string * string)
    (rest : list (string * string)) (results : list ServerResult)
    (w : World) :
  (k <= polls w)%nat ->
  run_loop query_count total idx (s :: rest) results e w =
  (results, mkWorld (S (polls w)) (queries w) (draws w) (trace w)).
Proof.
  intros Hk. destruct s as [sname sip]. rewrite run_loop_cons.
  unfold is_running. rewrite stop_at_k.
  replace (polls w <? k)%nat with false
    by (symmetry; apply Nat.ltb_ge; exact Hk).
  reflexivity.
Qed.

Lemma run_loop_stopped (servers : list (string * string)) :
  forall idx results w,
    servers <> [] ->
    (k <= polls w + (List.length servers - 1) * per_server)%nat ->
    (List.length (fst (run_loop query_count total idx servers results e w))
     < List.length results + List.length servers)%nat /\
    (k < polls (snd (run_loop query_count total idx servers results e w)))
      %nat.
Proof.
  induction servers as [|[sname sip] rest IH]; intros idx results w Hne Hk;
    [congruence|].
  destruct (le_lt_dec k (polls w)) as [Hstop|Hgo].
  - rewrite run_loop_break by exact Hstop. cbn. lia.
  - rewrite run_loop_cons. unfold is_running. rewrite stop_at_k.
    replace (polls w <? k)%nat with true
      by (symmetry; apply Nat.ltb_lt; exact Hgo).
    cbv zeta. cbn [polls queries draws trace].
    set (w2 := mkWorld _ _ _ _).
    pose proof (test_single_server_polls e sname sip query_count w2)
      as (Hb & Hd).
    destruct (test_single_server sname sip query_count e w2) as [r w3].
    cbn [snd] in Hb, Hd. unfold emit.
    set (w4 := mkWorld _ _ _ _).
    assert (Hp4 : polls w4 = polls w3) by reflexivity.
    assert (Hp2 : polls w2 = S (polls w)) by reflexivity.
    clearbody w2 w4.
    destruct rest as [|s' rest'].
    { cbn [List.length] in Hk. lia. }
    destruct (le_lt_dec k (polls w4)) as [Hstop4|Hgo4].
    + rewrite run_loop_break by exact Hstop4.
      cbn [fst snd polls List.length]. rewrite length_app. cbn. lia.
    + assert (Hfull : polls w3 = (polls w2 + 2 * query_count)%nat).
      { destruct Hd as [Hd|(k' & Hk' & Hlt)]; [exact Hd|].
        rewrite stop_at_k in Hk'. injection Hk' as <-. lia. }
      destruct (IH (S idx) (results ++ [r]) w4 ltac:(discriminate))
        as (Hlen & Hseen).
      { cbn [List.length] in *. unfold polls_per_server in *. nia. }
      rewrite length_app in Hlen. cbn [List.length] in *. lia.
Qed.

(** The servers whose campaigns end before the stop get the results they
    would get in a run that nobody stops. *)
Lemma run_loop_prefix (servers : list (string * string)) :
  forall j idx results w,
    (polls w + j * per_server <= k)%nat ->
    (j <= List.length servers)%nat ->
    firstn (List.length results + j)
      (fst (run_loop query_count total idx servers results e w)) =
    firstn (List.length results + j)
      (fst (run_loop query_count total idx servers results
              (never_cancelled e) w)).
Proof.
  induction servers as [|[sname sip] rest IH];
    intros j idx results w Hk Hj.
  - reflexivity.
  - destruct j as [|j].
    + destruct (run_loop_skeleton e query_count total
                  ((sname, sip) :: rest) idx results w)
        as (new & -> & _).
      destruct (run_loop_skeleton (never_cancelled e) query_count total
                  ((sname, sip) :: rest) idx results w)
        as (new0 & -> & _).
      rewrite Nat.add_0_r, !firstn_app, !Nat.sub_diag, !firstn_all.
      reflexivity.
    + rewrite !run_loop_cons. unfold is_running. rewrite stop_at_k.
      cbn [cancel_at never_cancelled].
      replace (polls w <? k)%nat with true
        by (symmetry; apply Nat.ltb_lt; unfold polls_per_server in *; cbn in Hk; lia).
      cbv zeta. cbn [polls queries draws trace].
      set (w2 := mkWorld _ _ _ _).
      assert (Hp2 : polls w2 = S (polls w)) by reflexivity.
      clearbody w2.
      assert (Hk2 : (polls w2 + 2 * query_count + j * per_server <= k)%nat)
        by (unfold polls_per_server in *; cbn in Hk |- *; lia).
      rewrite <- (test_single_server_agree e sname sip query_count w2 k
                    stop_at_k) by lia.
      pose proof (test_single_server_polls e sname sip query_count w2)
        as (Hb & Hd).
      destruct (test_single_server sname sip query_count e w2) as [r w3].
      cbn [snd] in Hb, Hd. unfold emit.
      set (w4 := mkWorld _ _ _ _).
      assert (Hp4 : polls w4 = polls w3) by reflexivity.
      clearbody w4.
      assert (Hfull : polls w3 = (polls w2 + 2 * query_count)%nat).
      { destruct Hd as [Hd|(k' & Hk' & Hlt)]; [exact Hd|].
        rewrite stop_at_k in Hk'. injection Hk' as <-. lia. }
      specialize (IH j (S idx) (results ++ [r]) w4).
      rewrite length_app in IH. cbn [List.length] in IH, Hj.
      replace (List.length results + S j)%nat
        with (List.length results + 1 + j)%nat by lia.
      apply IH; lia.
Qed.

End StoppedRun.

(** C2 (as the code has it).  A run stopped after the first server's
    campaign ended and before the last server started delivers nothing:
    neither the finished signal nor the error signal is emitted.  The
    results appended so far stay in the thread's local list; there are at
    least one and fewer than the servers, and those of campaigns that
    ended before the stop are the results of the run nobody stops.
    The stop comes after [k] reads of the flag; an iteration that runs to
    its end reads it [1 + 2 * query_count] times, and the last server
    would start with read number [(n - 1) * (1 + 2 * query_count)]. *)
Theorem stopped_run_delivers_nothing (e : Env) (k : nat)
    (servers : list (string * string)) (query_count : nat) :
  cancel_at e = Some k ->
  (1 + 2 * query_count <= k)%nat ->
  (k <= (List.length servers - 1) * (1 + 2 * query_count))%nat ->
  let results := fst (run servers query_count e init_world) in
  let tr := trace (snd (run servers query_count e init_world)) in
  filter is_delivery tr = [] /\
  (1 <= List.length results < List.length servers)%nat /\
  (forall j, (j * (1 + 2 * query_count) <= k)%nat ->
     firstn j results =
     firstn j (fst (run servers query_count (never_cancelled e)
                      init_world))).
Proof.
  intros Hk Hlo Hhi results tr.
  assert (Hne : servers <> [])
    by (destruct servers; [cbn in Hhi; lia | discriminate]).
  assert (Hprefix : forall j, (j * (1 + 2 * query_count) <= k)%nat ->
     firstn j results =
     firstn j (fst (run servers query_count (never_cancelled e)
                      init_world))).
  { intros j Hj. subst results. rewrite !run_results.
    apply (run_loop_prefix e k Hk query_count (List.length servers)
             servers j 0 [] init_world);
      unfold polls_per_server; cbn [polls init_world]; [lia | nia]. }
  split; [|split; [|exact Hprefix]].
  - subst tr. unfold run, bind.
    destruct (run_loop_skeleton e query_count (List.length servers)
                servers 0 [] init_world) as (new & _ & _ & _ & _ & _ & Htr).
    pose proof (run_loop_stopped e k Hk query_count (List.length servers)
                  servers 0 [] init_world Hne) as Hstop.
    unfold polls_per_server in Hstop. destruct Hstop as (_ & Hseen);
      [cbn [polls init_world]; lia|].
    destruct (run_loop query_count (List.length servers) 0 servers []
                e init_world) as [res w1].
    cbn [fst snd] in Htr, Hseen.
    unfold is_running. rewrite Hk.
    replace (polls w1 <? k)%nat with false
      by (symmetry; apply Nat.ltb_ge; lia).
    cbn [ret snd trace].
    rewrite <- delivery_skeleton, Htr. cbn [init_world trace skeleton filter app].
    apply delivery_announce.
  - split.
    + specialize (Hprefix 1%nat ltac:(lia)).
      assert (Hlen0 : List.length
                (fst (run servers query_count (never_cancelled e)
                        init_world)) = List.length servers).
      { rewrite run_results.
        destruct (run_loop_skeleton (never_cancelled e) query_count
                    (List.length servers) servers 0 [] init_world)
          as (new & -> & _ & Hall & _).
        apply Hall. reflexivity. }
      apply (f_equal (@List.length _)) in Hprefix.
      rewrite !length_firstn, Hlen0 in Hprefix.
      destruct servers as [|s1 [|s2 rest]]; cbn [List.length] in *; lia.
    + subst results. rewrite run_results.
      pose proof (run_loop_stopped e k Hk query_count (List.length servers)
                    servers 0 [] init_world Hne) as Hstop.
      unfold polls_per_server in Hstop. destruct Hstop as (Hlen & _);
        [cbn [polls init_world]; lia|].
      exact Hlen.
Qed.

(** C4 (as the code has it).  [run] has no check for an empty server
    list: unless it is stopped at once it ends normally, with
    [(100, "Complete!")] and an empty result list, and never with the
    error signal.  The empty selection is refused before any thread
    exists: [start_benchmark] only shows a warning, and every thread it
    starts has at least one server. *)
Theorem empty_target_list (e : Env) (query_count : nat)
    (checked : string -> bool) (query_spin : nat) (thread_running : bool) :
  trace (snd (run [] query_count e init_world)) =
    (if fst (is_running e init_world)
     then [EvProgress 100%Z "Complete!"; EvFinished []]
     else []) /\
  (forall msg,
     ~ In (EvError msg) (trace (snd (run [] query_count e init_world)))) /\
  (selection checked = [] ->
   start_benchmark checked query_spin thread_running =
     [Warning "Warning" "Please select at least one server!"]) /\
  (forall servers qc,
     In (StartThread servers qc)
        (start_benchmark checked query_spin thread_running) ->
     servers <> []).
Proof.
  assert (Htr : trace (snd (run [] query_count e init_world)) =
                (if fst (is_running e init_world)
                 then [EvProgress 100%Z "Complete!"; EvFinished []]
                 else [])).
  { unfold run, bind. cbn [run_loop ret List.length].
    destruct (is_running e init_world) as [[|] w1] eqn:E1;
      unfold is_running in E1; injection E1 as _ <-; reflexivity. }
  split; [exact Htr|]. split; [|split].
  - intros msg. rewrite Htr.
    destruct (fst (is_running e init_world)); cbn; intuition discriminate.
  - intros Hsel. unfold start_benchmark. rewrite Hsel. reflexivity.
  - intros servers qc. unfold start_benchmark.
    destruct (selection checked) as [|s sel] eqn:Hsel.
    + cbn. intuition discriminate.
    + intros Hin. apply in_app_or in Hin.
      destruct Hin as [Hin|[Hin|[]]].
      * destruct thread_running; cbn in Hin; intuition discriminate.
      * injection Hin as <- _. discriminate.
Qed.

(** Every thread the window starts has at most 43 servers, the size of
    [DNS_SERVERS], and the query count of the spin box. *)
Lemma started_thread_size (checked : string -> bool) (query_spin : nat)
    (thread_running : bool) (servers : list (string * string)) (qc : nat) :
  In (StartThread servers qc)
     (start_benchmark checked query_spin thread_running) ->
  (List.length servers <= 43)%nat /\ qc = query_spin.
Proof.
  assert (Hlen : (List.length (selection checked) <= 43)%nat).
  { etransitivity; [apply filter_length_le|].
    apply Nat.leb_le. vm_compute. reflexivity. }
  unfold start_benchmark.
  destruct (selection checked) as [|s sel].
  - cbn. intuition discriminate.
  - intros Hin. apply in_app_or in Hin.
    destruct Hin as [Hin|[Hin|[]]].
    + destruct thread_running; cbn in Hin; intuition discriminate.
    + injection Hin as <- <-. split; [exact Hlen | reflexivity].
Qed.

(** ** Concrete runs *)

(** A campaign of three queries per phase against a resolver that always
    answers. *)
Lemma overall_avg_between_extremes_witness :
  let r := campaign_result "Google" "8.8.8.8" 3 steady_env init_world in
  let all := all_samples "8.8.8.8" 3 steady_env init_world in
  (0 < successful r)%nat /\
  (min_time r <= overall_avg r <= max_time r /\
   In (min_time r) all /\ In (max_time r) all /\
   Forall (fun t => min_time r <= t <= max_time r) all).
Proof.
  split.
  - vm_compute. lia.
  - apply overall_avg_between_extremes. vm_compute. lia.
Defined.

(** A campaign against a resolver that never answers. *)
Lemma failing_server_result_witness :
  let r := campaign_result "Google" "8.8.8.8" 3 dead_env init_world in
  (forall i, (queries init_world <= i < queries init_world + 2 * 3)%nat ->
             udp dead_env i = None) /\
  (name r = "Google" /\ ip r = "8.8.8.8" /\
   reliability r == 0 /\
   cached_avg r == 0 /\ uncached_avg r == 0 /\ overall_avg r == 0 /\
   min_time r == 0 /\ max_time r == 0 /\
   successful r = 0%nat /\ total_queries r = (2 * 3)%nat).
Proof.
  split.
  - intros i _. reflexivity.
  - apply failing_server_result. intros i _. reflexivity.
Defined.

(** A campaign stopped after its first query. *)
Lemma total_queries_ignores_cancellation_witness :
  let rw := test_single_server "Google" "8.8.8.8" 3 (stopped_env 1)
              init_world in
  (0 < 3)%nat /\
  (total_queries (fst rw) = (2 * 3)%nat /\
   reliability (fst rw) ==
     inject_Z (Z.of_nat (successful (fst rw)))
     / inject_Z (Z.of_nat (2 * 3)) * 100 /\
   (queries (snd rw) - queries init_world <= total_queries (fst rw))%nat).
Proof.
  split.
  - lia.
  - apply total_queries_ignores_cancellation. lia.
Defined.

(** Stopped after one read of the flag, a campaign of [query_count = 3]
    sends one query and still reports six. *)
Example stopped_campaign :
  let rw := test_single_server "Google" "8.8.8.8" 3 (stopped_env 1)
              init_world in
  queries (snd rw) = 1%nat /\
  successful (fst rw) = 1%nat /\
  total_queries (fst rw) = 6%nat /\
  reliability (fst rw) == 100 # 6.
Proof. vm_compute. repeat split; reflexivity. Qed.

(** C9 as stated fails: nothing keeps two draws of eight letters apart.
    With draws of period eight, both uncached queries of a campaign of
    [query_count = 2] ask for the same name. *)
Lemma uncached_names_can_repeat :
  uncached_names "8.8.8.8" 2 repeating_env init_world
    = ["qxkzpmvw.com"; "qxkzpmvw.com"] /\
  ~ NoDup (uncached_names "8.8.8.8" 2 repeating_env init_world).
Proof.
  split; [vm_compute; reflexivity|].
  intros H. vm_compute in H. inversion H as [|? ? Hnot _]; subst.
  apply Hnot. left. reflexivity.
Qed.

(** C2 as stated fails: stopped between its two servers, the run emits
    no finished signal, so no partial list reaches the caller. *)
Lemma stopped_run_returns_no_list :
  trace (snd (run two_servers 1 (stopped_env 3) init_world)) =
    [EvProgress 0%Z "Testing Google...";
     EvQuery "8.8.8.8" "google.com" rdatatype.A false;
     EvQuery "8.8.8.8" "abcdefgh.com" rdatatype.A false;
     EvTested google_result] /\
  fst (run two_servers 1 (stopped_env 3) init_world) = [google_result] /\
  ~ (exists rs,
       In (EvFinished rs)
          (trace (snd (run two_servers 1 (stopped_env 3) init_world)))).
Proof.
  assert (Htr : trace (snd (run two_servers 1 (stopped_env 3) init_world)) =
    [EvProgress 0%Z "Testing Google...";
     EvQuery "8.8.8.8" "google.com" rdatatype.A false;
     EvQuery "8.8.8.8" "abcdefgh.com" rdatatype.A false;
     EvTested google_result]) by (vm_compute; reflexivity).
  split; [exact Htr|]. split; [vm_compute; reflexivity|].
  rewrite Htr. intros (rs & Hin). cbn in Hin.
  intuition discriminate.
Qed.

(** The same run: nothing delivered, one result kept, unchanged. *)
Lemma stopped_run_delivers_nothing_witness :
  let results := fst (run two_servers 1 (stopped_env 3) init_world) in
  let tr := trace (snd (run two_servers 1 (stopped_env 3) init_world)) in
  cancel_at (stopped_env 3) = Some 3%nat /\
  (1 + 2 * 1 <= 3)%nat /\
  (3 <= (List.length two_servers - 1) * (1 + 2 * 1))%nat /\
  (filter is_delivery tr = [] /\
   (1 <= List.length results < List.length two_servers)%nat /\
   (forall j, (j * (1 + 2 * 1) <= 3)%nat ->
      firstn j results =
      firstn j (fst (run two_servers 1 (never_cancelled (stopped_env 3))
                       init_world)))).
Proof.
  split; [reflexivity|]. split; [cbn; lia|]. split; [cbn; lia|].
  apply (stopped_run_delivers_nothing (stopped_env 3) 3 two_servers 1).
  - reflexivity.
  - cbn. lia.
  - cbn. lia.
Defined.

(** C4 as stated fails: a run over no server ends with the finished
    signal and an empty list, not with the error signal. *)
Lemma empty_run_ends_normally :
  trace (snd (run [] 5 steady_env init_world)) =
    [EvProgress 100%Z "Complete!"; EvFinished []] /\
  ~ (exists msg,
       In (EvError msg) (trace (snd (run [] 5 steady_env init_world)))).
Proof.
  split; [reflexivity|]. intros (msg & Hin). cbn in Hin.
  intuition discriminate.
Qed.

(** C7 as stated fails: the first progress signal of a run precedes every
    query of the first campaign, and the last status is ["Complete!"]. *)
Lemma progress_precedes_campaign :
  trace (snd (run [("Google", "8.8.8.8")] 1 steady_env init_world)) =
    [EvProgress 0%Z "Testing Google...";
     EvQuery "8.8.8.8" "google.com" rdatatype.A false;
     EvQuery "8.8.8.8" "abcdefgh.com" rdatatype.A false;
     EvTested google_result;
     EvProgress 100%Z "Complete!";
     EvFinished [google_result]] /\
  ~ progress_after_campaigns
      (trace (snd (run [("Google", "8.8.8.8")] 1 steady_env init_world))) /\
  ~ In (EvProgress 100%Z "Complete")
       (trace (snd (run [("Google", "8.8.8.8")] 1 steady_env init_world))).
Proof.
  assert (Htr :
    trace (snd (run [("Google", "8.8.8.8")] 1 steady_env init_world)) =
    [EvProgress 0%Z "Testing Google...";
     EvQuery "8.8.8.8" "google.com" rdatatype.A false;
     EvQuery "8.8.8.8" "abcdefgh.com" rdatatype.A false;
     EvTested google_result;
     EvProgress 100%Z "Complete!";
     EvFinished [google_result]]) by (vm_compute; reflexivity).
  split; [exact Htr|]. rewrite Htr. split.
  - intros H. destruct (H [] _ _ _ eq_refl) as (r & []).
  - cbn. intuition discriminate.
Qed.

(** A run over two servers that nobody stops. *)
Lemma uncancelled_run_progress_witness :
  let results := fst (run two_servers 1 steady_env init_world) in
  let tr := trace (snd (run two_servers 1 steady_env init_world)) in
  cancel_at steady_env = None /\
  (map name results = map fst two_servers /\
   map ip results = map snd two_servers /\
   tr =
     run_events steady_env 1 (List.length two_servers) 0 0 two_servers
       results
     ++ [EvProgress 100%Z "Complete!"; EvFinished results] /\
   ((Z.of_nat (List.length two_servers) < 2 ^ 53)%Z ->
    List.length (progress_values tr) = S (List.length two_servers) /\
    Forall (fun p => (0 <= p <= 100)%Z) (progress_values tr)) /\
   ((Z.of_nat (List.length two_servers) < 2 ^ 53)%Z ->
    StronglySorted Z.le (progress_values tr)) /\
   ((List.length two_servers <= 99)%nat ->
    StronglySorted Z.lt (progress_values tr)) /\
   ((100 <= List.length two_servers)%nat ->
    (Z.of_nat (List.length two_servers) < 2 ^ 53)%Z ->
    ~ StronglySorted Z.lt (progress_values tr))).
Proof.
  split; [reflexivity|].
  apply (uncancelled_run_progress steady_env two_servers 1).
  reflexivity.
Defined.

(** The progress signals of that run. *)
Example two_server_progress :
  progress_values
    (trace (snd (run two_servers 1 steady_env init_world)))
  = [0; 50; 100]%Z.
Proof. vm_compute. reflexivity. Qed.

(** * Further properties of the threads *)

(** ** Queries and samples of a campaign that nobody stops *)

(** X1.  A campaign that nobody stops sends exactly [2 * query_count]
    queries to its server, the number it reports as [total_queries]:
    first [query_count] for [google.com], then [query_count] for names
    drawn one after the other. *)
Theorem unstopped_campaign_queries (e : Env) (w : World)
    (sname sip : string) (query_count : nat) :
  cancel_at e = None ->
  trace (snd (test_single_server sname sip query_count e w)) =
    trace w
    ++ repeat (EvQuery sip "google.com" rdatatype.A false) query_count
    ++ map (fun j => EvQuery sip (drawn_name e (draws w + 8 * j))
                       rdatatype.A false)
           (seq 0 query_count) /\
  queries (snd (test_single_server sname sip query_count e w)) =
    (queries w + total_queries (campaign_result sname sip query_count e w))
      %nat.
Proof.
  intros Hc. unfold campaign_result.
  rewrite (test_single_server_unstopped e sname sip query_count w Hc).
  cbn [fst snd trace queries total_queries reduce].
  split; [reflexivity | lia].
Qed.

Lemma unstopped_samples (e : Env) (w : World)
    (sip : string) (query_count : nat) :
  cancel_at e = None ->
  cached_samples sip query_count e w =
    flat_map (sample e) (seq (queries w) query_count) /\
  uncached_samples sip query_count e w =
    flat_map (sample e) (seq (queries w + query_count) query_count).
Proof.
  intros Hc. unfold cached_samples, uncached_samples.
  rewrite (probe_loop_unstopped e Hc sip (ret "google.com")
             (fun _ => "google.com") 0 (ret_draws "google.com" e)).
  cbn [fst snd].
  rewrite (probe_loop_unstopped e Hc sip random_domain (drawn_name e) 8
             (random_domain_draws e)).
  cbn [fst snd queries app].
  split; reflexivity.
Qed.

(** X2.  In a campaign that nobody stops, the cached samples are the
    elapsed times of the first [query_count] queries that returned with a
    positive time, in the order of the queries, the uncached samples those
    of the next [query_count] queries, and [successful] counts both. *)
Theorem unstopped_campaign_samples (e : Env) (w : World)
    (sname sip : string) (query_count : nat) :
  cancel_at e = None ->
  cached_samples sip query_count e w =
    flat_map (sample e) (seq (queries w) query_count) /\
  uncached_samples sip query_count e w =
    flat_map (sample e) (seq (queries w + query_count) query_count) /\
  successful (campaign_result sname sip query_count e w) =
    List.length (flat_map (sample e) (seq (queries w) (2 * query_count))).
Proof.
  intros Hc.
  destruct (unstopped_samples e w sip query_count Hc) as [Hcs Hus].
  split; [exact Hcs|]. split; [exact Hus|].
  rewrite campaign_result_reduce. cbn [successful reduce].
  rewrite Hcs, Hus, <- flat_map_app, <- seq_app.
  replace (2 * query_count)%nat with (query_count + query_count)%nat by lia.
  reflexivity.
Qed.

Lemma sample_answered (e : Env) (i : nat) :
  udp e i <> None -> 0 < elapsed e i -> sample e i = [elapsed e i].
Proof.
  intros Hu Ht. unfold sample. destruct (udp e i); [|congruence].
  destruct (Qlt_le_dec 0 (elapsed e i)); [reflexivity | lra].
Qed.

Lemma samples_answered (e : Env) (a n : nat) :
  (forall i, (a <= i < a + n)%nat -> udp e i <> None /\ 0 < elapsed e i) ->
  flat_map (sample e) (seq a n) = map (elapsed e) (seq a n).
Proof.
  revert a. induction n as [|n IH]; intros a Hall; [reflexivity|].
  cbn [seq flat_map map].
  destruct (Hall a ltac:(lia)) as [Hu Ht].
  rewrite (sample_answered e a Hu Ht), IH; [reflexivity|].
  intros i Hi. apply Hall. lia.
Qed.

Lemma ratio_full (n : nat) :
  (0 < n)%nat ->
  inject_Z (Z.of_nat n) / inject_Z (Z.of_nat n) * 100 == 100.
Proof.
  intros Hn.
  assert (H : ~ inject_Z (Z.of_nat n) == 0).
  { change 0 with (inject_Z 0). rewrite inject_Z_injective. lia. }
  field. exact H.
Qed.

(** X3.  When nobody stops the campaign and every query returns with a
    positive time, every query counts as a success and the reliability is
    100. *)
Theorem answering_server_full_reliability (e : Env) (w : World)
    (sname sip : string) (query_count : nat) :
  cancel_at e = None ->
  (0 < query_count)%nat ->
  (forall i, (queries w <= i < queries w + 2 * query_count)%nat ->
             udp e i <> None /\ 0 < elapsed e i) ->
  successful (campaign_result sname sip query_count e w)
    = (2 * query_count)%nat /\
  successful (campaign_result sname sip query_count e w)
    = total_queries (campaign_result sname sip query_count e w) /\
  reliability (campaign_result sname sip query_count e w) == 100.
Proof.
  intros Hc Hq Hall.
  destruct (unstopped_samples e w sip query_count Hc) as [Hcs Hus].
  assert (Hs : successful (campaign_result sname sip query_count e w)
               = (2 * query_count)%nat).
  { rewrite campaign_result_reduce. cbn [successful reduce].
    rewrite Hcs, Hus, <- flat_map_app, <- seq_app.
    replace (query_count + query_count)%nat with (2 * query_count)%nat
      by lia.
    rewrite (samples_answered e _ _ Hall), length_map, length_seq.
    reflexivity. }
  split; [exact Hs|].
  rewrite campaign_result_reduce in *.
  cbn [successful total_queries reliability reduce] in *.
  split; [lia|].
  destruct query_count as [|q]; [lia|].
  unfold Py.len. rewrite Hs.
  replace (2 * S q)%nat with (S q * 2)%nat by lia.
  apply ratio_full. lia.
Qed.

Lemma constant_list_bounds (t : Q) (f : nat -> Q) (l : list nat) :
  (forall i, In i l -> f i == t) ->
  Forall (fun x => t <= x <= t) (map f l).
Proof.
  intros H. apply Forall_forall. intros x Hx.
  apply in_map_iff in Hx as (i & <- & Hi). specialize (H i Hi). lra.
Qed.

(** X4.  When nobody stops the campaign and every query returns after the
    same positive time [t], the cached, uncached and overall averages and
    the minimum and maximum are all [t]. *)
Theorem constant_latency_result (e : Env) (w : World)
    (sname sip : string) (query_count : nat) (t : Q) :
  cancel_at e = None ->
  (0 < query_count)%nat ->
  0 < t ->
  (forall i, (queries w <= i < queries w + 2 * query_count)%nat ->
             udp e i <> None /\ elapsed e i == t) ->
  cached_avg (campaign_result sname sip query_count e w) == t /\
  uncached_avg (campaign_result sname sip query_count e w) == t /\
  overall_avg (campaign_result sname sip query_count e w) == t /\
  min_time (campaign_result sname sip query_count e w) == t /\
  max_time (campaign_result sname sip query_count e w) == t.
Proof.
  intros Hc Hq Ht Hall.
  assert (Hall' : forall i,
            (queries w <= i < queries w + 2 * query_count)%nat ->
            udp e i <> None /\ 0 < elapsed e i).
  { intros i Hi. destruct (Hall i Hi) as [Hu Hel]. split; [exact Hu | lra]. }
  destruct (unstopped_samples e w sip query_count Hc) as [Hcs Hus].
  rewrite samples_answered in Hcs by (intros i Hi; apply Hall'; lia).
  rewrite samples_answered in Hus by (intros i Hi; apply Hall'; lia).
  assert (Hcb : Forall (fun x => t <= x <= t)
                  (cached_samples sip query_count e w)).
  { rewrite Hcs. apply constant_list_bounds. intros i Hi.
    apply in_seq in Hi. apply Hall. lia. }
  assert (Hub : Forall (fun x => t <= x <= t)
                  (uncached_samples sip query_count e w)).
  { rewrite Hus. apply constant_list_bounds. intros i Hi.
    apply in_seq in Hi. apply Hall. lia. }
  assert (Hcne : cached_samples sip query_count e w <> []).
  { rewrite Hcs. destruct query_count; [lia | discriminate]. }
  assert (Hune : uncached_samples sip query_count e w <> []).
  { rewrite Hus. destruct query_count; [lia | discriminate]. }
  pose proof (mean_or_zero_bounds t t _ Hcne Hcb) as Hmc.
  pose proof (mean_or_zero_bounds t t _ Hune Hub) as Hmu.
  pose proof (overall_avg_reduce sname sip query_count _ _
                (cached_positive e w sip query_count)
                (uncached_positive e w sip query_count)) as Ho.
  rewrite campaign_result_reduce.
  set (c := cached_samples sip query_count e w) in *.
  set (u := uncached_samples sip query_count e w) in *.
  clearbody c u.
  cbn [cached_avg uncached_avg min_time max_time reduce].
  split; [lra|]. split; [lra|]. split.
  - rewrite Ho. destruct c as [|x c]; [congruence|].
    destruct u as [|y u]; [congruence|].
    pose proof (half_sum_between t t _ _ Hmc Hmu). lra.
  - assert (Hall2 : Forall (fun x => t <= x <= t) (c ++ u))
      by (apply Forall_app; split; assumption).
    destruct (c ++ u) as [|x l] eqn:E.
    { destruct c; [congruence | discriminate]. }
    rewrite Forall_forall in Hall2.
    pose proof (Hall2 _ (min_from_In x l)).
    pose proof (Hall2 _ (max_from_In x l)).
    split; lra.
Qed.

(** ** Stops and queries *)

Section StopBound.

Variable e : Env.
Variable k : nat.
Hypothesis stop_at_k : cancel_at e = Some k.
Variable ip : string.
Variable gen : M string.
Hypothesis gen_quiet : quiet gen.

(** Every query of a loop follows a read of the flag that came before
    the stop. *)
Lemma probe_loop_stop_bound (n : nat) :
  forall times w,
    (queries (snd (probe_loop gen ip n times e w))
     <= queries w + (k - polls w))%nat /\
    (queries (snd (probe_loop gen ip n times e w)) + polls w
     <= queries w + polls (snd (probe_loop gen ip n times e w)))%nat.
Proof.
  induction n as [|n IH]; intros times w.
  - cbn. lia.
  - rewrite probe_loop_S. unfold is_running. rewrite stop_at_k.
    destruct (polls w <? k)%nat eqn:Hrun.
    + apply Nat.ltb_lt in Hrun.
      match goal with |- context [gen e ?w1] =>
        pose proof (gen_quiet e w1) as (Hp & Hq & _);
        destruct (gen e w1) as [dname w2] end.
      cbn [snd polls queries] in Hp, Hq.
      unfold timed_udp, udp_query.
      match goal with |- context [probe_loop gen ip n ?t e ?w3] =>
        destruct (IH t w3) as (Hb & Hd);
        set (w' := snd (probe_loop gen ip n t e w3)) in * end.
      clearbody w'. cbn [polls queries] in Hb, Hd. lia.
    + cbn [snd polls queries]. lia.
Qed.

End StopBound.

(** X5.  A campaign sends no query after it has seen the flag cleared:
    when [stop] comes after [k] reads of the flag, a campaign that starts
    after [p] reads sends at most [k - p] queries, and none when the stop
    came first. *)
Theorem stopped_campaign_query_bound (e : Env) (k : nat) (w : World)
    (sname sip : string) (query_count : nat) :
  cancel_at e = Some k ->
  (queries (snd (test_single_server sname sip query_count e w))
   <= queries w + (k - polls w))%nat /\
  ((k <= polls w)%nat ->
   queries (snd (test_single_server sname sip query_count e w))
     = queries w /\
   successful (campaign_result sname sip query_count e w) = 0%nat).
Proof.
  intros Hk. rewrite test_single_server_world.
  pose proof (probe_loop_stop_bound e k Hk sip (ret "google.com")
                (quiet_ret _) query_count [] w) as (Ha & Ha').
  pose proof (probe_loop_queries (ret "google.com") sip e (quiet_ret _)
                query_count [] w) as Hqa.
  set (w1 := snd (probe_loop (ret "google.com") sip query_count [] e w))
    in *.
  pose proof (probe_loop_stop_bound e k Hk sip random_domain
                quiet_random_domain query_count [] w1) as (Hb & Hb').
  pose proof (probe_loop_queries random_domain sip e quiet_random_domain
                query_count [] w1) as Hqb.
  set (w2 := snd (probe_loop random_domain sip query_count [] e w1)) in *.
  assert (Hbound : (queries w2 <= queries w + (k - polls w))%nat) by lia.
  split; [exact Hbound|].
  intros Hstop. split; [lia|].
  unfold campaign_result. rewrite test_single_server_reduce.
  cbn [successful reduce]. rewrite length_app.
  assert (Hc : cached_samples sip query_count e w = []).
  { unfold cached_samples. clear -Hk Hstop.
    destruct query_count as [|n]; [reflexivity|].
    rewrite probe_loop_S. unfold is_running. rewrite Hk.
    replace (polls w <? k)%nat with false
      by (symmetry; apply Nat.ltb_ge; exact Hstop).
    reflexivity. }
  assert (Hu : uncached_samples sip query_count e w = []).
  { unfold uncached_samples. fold w1.
    pose proof (probe_loop_polls (ret "google.com") sip e (quiet_ret _)
                  query_count [] w) as (Hp & _).
    fold w1 in Hp. clear -Hk Hstop Hp.
    destruct query_count as [|n]; [reflexivity|].
    rewrite probe_loop_S. unfold is_running. rewrite Hk.
    replace (polls w1 <? k)%nat with false
      by (symmetry; apply Nat.ltb_ge; lia).
    reflexivity. }
  rewrite Hc, Hu. reflexivity.
Qed.

(** ** The results and the queries of a run *)

(** X6.  Stopped or not, a run collects its results in the order of the
    servers: the local list holds one result for each server of an
    initial segment of the list, with that server's name and address. *)
Theorem run_results_follow_servers (e : Env)
    (servers : list (string * string)) (query_count : nat) :
  let results := fst (run servers query_count e init_world) in
  (List.length results <= List.length servers)%nat /\
  map name results = map fst (firstn (List.length results) servers) /\
  map ip results = map snd (firstn (List.length results) servers).
Proof.
  intros results. subst results. rewrite run_results.
  destruct (run_loop_skeleton e query_count (List.length servers) servers
              0 [] init_world)
    as (new & Hres & Hlen & _ & Hnames & Hips & _).
  rewrite Hres. cbn [app]. auto.
Qed.

Lemma bench_ok_queries (ips : list string) (sip : string)
    (P : string -> Prop) (names : list string) :
  In sip ips ->
  (forall d, P d -> d = "google.com" \/ random_name d) ->
  Forall P names ->
  Forall (bench_event_ok ips)
    (map (fun d => EvQuery sip d rdatatype.A false) names).
Proof.
  intros Hin HP HF. induction HF as [|d names Hd _ IH]; constructor.
  - cbn. auto.
  - exact IH.
Qed.

Lemma test_single_server_events_ok (e : Env) (ips : list string)
    (sname sip : string) (query_count : nat) (w : World) :
  In sip ips ->
  Forall (bench_event_ok ips) (trace w) ->
  Forall (bench_event_ok ips)
    (trace (snd (test_single_server sname sip query_count e w))).
Proof.
  intros Hin Hw. rewrite test_single_server_world.
  destruct (probe_loop_trace (ret "google.com")
              (fun d => d = "google.com") sip e
              (fun w0 => conj eq_refl eq_refl) query_count [] w)
    as (na & Ha & HFa & _).
  set (w1 := snd (probe_loop (ret "google.com") sip query_count [] e w))
    in *.
  destruct (probe_loop_trace random_domain random_name sip e
              (random_domain_spec e) query_count [] w1)
    as (nb & Hb & HFb & _).
  rewrite Hb, Ha. repeat (apply Forall_app; split); try assumption.
  - apply (bench_ok_queries ips sip (fun d => d = "google.com") na Hin);
      [auto | exact HFa].
  - apply (bench_ok_queries ips sip random_name nb Hin);
      [auto | exact HFb].
Qed.

Lemma run_loop_events_ok (e : Env) (ips : list string)
    (query_count total : nat) (servers : list (string * string)) :
  forall idx results w,
    incl (map snd servers) ips ->
    Forall (bench_event_ok ips) (trace w) ->
    Forall (bench_event_ok ips)
      (trace (snd (run_loop query_count total idx servers results e w))).
Proof.
  induction servers as [|[sname sip] rest IH];
    intros idx results w Hincl Hw.
  - exact Hw.
  - rewrite run_loop_cons. unfold is_running.
    destruct (match cancel_at e with
              | Some k => (polls w <? k)%nat
              | None => true
              end); [|exact Hw].
    cbv zeta. cbn [polls queries draws trace].
    set (w2 := mkWorld _ _ _ _).
    assert (Hw2 : Forall (bench_event_ok ips) (trace w2)).
    { subst w2. cbn [trace]. apply Forall_app. split; [exact Hw|].
      unfold announce_one. destruct (progress_val idx total);
        repeat constructor. }
    assert (Hin : In sip ips) by (apply Hincl; left; reflexivity).
    pose proof (test_single_server_events_ok e ips sname sip query_count
                  w2 Hin Hw2) as Hw3.
    clearbody w2.
    destruct (test_single_server sname sip query_count e w2) as [r w3].
    cbn [snd] in Hw3. unfold emit. apply IH.
    + intros x Hx. apply Hincl. right. exact Hx.
    + cbn [trace]. apply Forall_app. split; [exact Hw3|].
      repeat constructor.
Qed.

(** X7.  A run queries nothing but its own servers: every query in its
    trace is a plain A query, without the DNSSEC flag, to the address of a
    server of the list, for [google.com] or for eight lowercase letters
    and [".com"]; and it emits neither the error signal nor a signal of
    the security check. *)
Theorem run_queries_only_its_servers (e : Env)
    (servers : list (string * string)) (query_count : nat) :
  Forall (bench_event_ok (map snd servers))
    (trace (snd (run servers query_count e init_world))).
Proof.
  unfold run, bind.
  pose proof (run_loop_events_ok e (map snd servers) query_count
                (List.length servers) servers 0 [] init_world
                (incl_refl _) (Forall_nil _)) as Hw1.
  destruct (run_loop query_count (List.length servers) 0 servers []
              e init_world) as [results w1].
  cbn [snd] in Hw1. unfold is_running.
  destruct (match cancel_at e with
            | Some k => (polls w1 <? k)%nat
            | None => true
            end); [|exact Hw1].
  unfold emit, ret. cbn [snd trace].
  repeat (apply Forall_app; split); try exact Hw1; repeat constructor.
Qed.

(** ** When a stopped run still delivers *)

Section StopAnywhere.

Variable e : Env.
Variable k : nat.
Hypothesis stop_at_k : cancel_at e = Some k.
Variable query_count : nat.
Variable total : nat.

(** A stop that comes no later than the reads of the whole loop is seen
    by the read that follows the loop. *)
Lemma run_loop_seen (servers : list (string * string)) :
  forall idx results w,
    (k <= polls w + List.length servers * polls_per_server query_count)%nat ->
    (k <= polls (snd (run_loop query_count total idx servers results e w)))
      %nat.
Proof.
  induction servers as [|[sname sip] rest IH]; intros idx results w Hk.
  - cbn in *. lia.
  - destruct (le_lt_dec k (polls w)) as [Hstop|Hgo].
    + rewrite (run_loop_break e k stop_at_k) by exact Hstop. cbn. lia.
    + rewrite run_loop_cons. unfold is_running. rewrite stop_at_k.
      replace (polls w <? k)%nat with true
        by (symmetry; apply Nat.ltb_lt; exact Hgo).
      cbv zeta. cbn [polls queries draws trace].
      set (w2 := mkWorld _ _ _ _).
      pose proof (test_single_server_polls e sname sip query_count w2)
        as (Hb & Hd).
      assert (Hp2 : polls w2 = S (polls w)) by reflexivity.
      clearbody w2.
      destruct (test_single_server sname sip query_count e w2) as [r w3].
      cbn [snd] in Hb, Hd. unfold emit.
      apply IH. cbn [polls]. cbn [List.length] in Hk.
      unfold polls_per_server in *.
      destruct Hd as [Hd|(k' & Hk' & Hlt)].
      * nia.
      * rewrite stop_at_k in Hk'. injection Hk' as <-. lia.
Qed.

(** A loop whose every read comes before the stop runs as if nobody
    stopped it. *)
Lemma run_loop_agree (servers : list (string * string)) :
  forall idx results w,
    (polls w + List.length servers * polls_per_server query_count <= k)%nat ->
    run_loop query_count total idx servers results e w =
    run_loop query_count total idx servers results (never_cancelled e) w /\
    polls (snd (run_loop query_count total idx servers results e w)) =
    (polls w + List.length servers * polls_per_server query_count)%nat.
Proof.
  induction servers as [|[sname sip] rest IH]; intros idx results w Hk.
  - cbn. split; [reflexivity | lia].
  - rewrite !run_loop_cons. unfold is_running. rewrite stop_at_k.
    cbn [cancel_at never_cancelled]. cbn [List.length] in Hk.
    unfold polls_per_server in *.
    replace (polls w <? k)%nat with true
      by (symmetry; apply Nat.ltb_lt; lia).
    cbv zeta. cbn [polls queries draws trace].
    set (w2 := mkWorld _ _ _ _).
    assert (Hp2 : polls w2 = S (polls w)) by reflexivity.
    clearbody w2.
    rewrite <- (test_single_server_agree e sname sip query_count w2 k
                  stop_at_k) by nia.
    pose proof (test_single_server_polls e sname sip query_count w2)
      as (Hb & Hd).
    destruct (test_single_server sname sip query_count e w2) as [r w3].
    cbn [snd] in Hb, Hd. unfold emit.
    set (w4 := mkWorld _ _ _ _).
    assert (Hp4 : polls w4 = polls w3) by reflexivity.
    clearbody w4.
    assert (Hfull : polls w3 = (polls w2 + 2 * query_count)%nat).
    { destruct Hd as [Hd|(k' & Hk' & Hlt)]; [exact Hd|].
      rewrite stop_at_k in Hk'. injection Hk' as <-. nia. }
    destruct (IH (S idx) (results ++ [r]) w4) as (Heq & Hpolls); [nia|].
    split; [exact Heq|]. rewrite Hpolls. cbn [List.length]. nia.
Qed.

End StopAnywhere.

Lemma announce_messages (total : nat) (servers : list (string * string)) :
  forall idx results p msg,
    In (EvProgress p msg) (announce total idx servers results) ->
    exists sname, msg = ("Testing " ++ sname ++ "...")%string.
Proof.
  induction servers as [|[sname sip] rest IH]; intros idx results p msg Hin.
  - destruct Hin.
  - destruct results as [|r results]; [destruct Hin|].
    cbn [announce] in Hin. apply in_app_or in Hin.
    destruct Hin as [Hin|[Hin|Hin]].
    + unfold announce_one in Hin.
      destruct (progress_val idx total); [|destruct Hin].
      destruct Hin as [Hin|[]]. injection Hin as _ <-.
      exists sname. reflexivity.
    + discriminate.
    + apply (IH _ _ _ _ Hin).
Qed.

Lemma skeleton_In (ev : Event) (tr : list Event) :
  is_query ev = false -> In ev tr -> In ev (skeleton tr).
Proof.
  intros Hq Hin. apply filter_In. split; [exact Hin|].
  rewrite Hq. reflexivity.
Qed.

(** X8.  A run delivers nothing whenever [stop] comes before the read of
    the flag that follows the loop, that is after at most
    [n * (1 + 2 * query_count)] reads: no finished signal, no error
    signal and no ["Complete!"] progress signal. *)
Theorem stop_before_last_read_delivers_nothing (e : Env) (k : nat)
    (servers : list (string * string)) (query_count : nat) :
  cancel_at e = Some k ->
  (k <= List.length servers * (1 + 2 * query_count))%nat ->
  filter is_delivery
    (trace (snd (run servers query_count e init_world))) = [] /\
  (forall p,
     ~ In (EvProgress p "Complete!")
          (trace (snd (run servers query_count e init_world)))).
Proof.
  intros Hk Hle. unfold run, bind.
  destruct (run_loop_skeleton e query_count (List.length servers) servers
              0 [] init_world) as (new & _ & _ & _ & _ & _ & Htr).
  pose proof (run_loop_seen e k Hk query_count (List.length servers)
                servers 0 [] init_world) as Hseen.
  unfold polls_per_server in Hseen. cbn [polls init_world] in Hseen.
  specialize (Hseen Hle).
  destruct (run_loop query_count (List.length servers) 0 servers []
              e init_world) as [res w1].
  cbn [fst snd] in Htr, Hseen. unfold is_running. rewrite Hk.
  replace (polls w1 <? k)%nat with false
    by (symmetry; apply Nat.ltb_ge; exact Hseen).
  cbn [ret snd trace]. cbn [init_world trace skeleton filter app] in Htr.
  split.
  - rewrite <- delivery_skeleton, Htr. apply delivery_announce.
  - intros p Hin. apply skeleton_In in Hin; [|reflexivity].
    rewrite Htr in Hin. apply announce_messages in Hin as (sname & Hmsg).
    discriminate.
Qed.

(** X9.  A stop that comes after all [n * (1 + 2 * query_count) + 1]
    reads of the flag changes nothing: the run is the run nobody stops,
    and it ends with the ["Complete!"] signal and the finished signal
    carrying its results. *)
Theorem stop_after_last_read_changes_nothing (e : Env) (k : nat)
    (servers : list (string * string)) (query_count : nat) :
  cancel_at e = Some k ->
  (List.length servers * (1 + 2 * query_count) < k)%nat ->
  run servers query_count e init_world =
    run servers query_count (never_cancelled e) init_world /\
  exists tr,
    trace (snd (run servers query_count e init_world)) =
    tr ++ [EvProgress 100%Z "Complete!";
           EvFinished (fst (run servers query_count e init_world))].
Proof.
  intros Hk Hlt. unfold run, bind.
  destruct (run_loop_agree e k Hk query_count (List.length servers)
              servers 0 [] init_world) as (Heq & Hpolls).
  { unfold polls_per_server. cbn [polls init_world]. lia. }
  rewrite <- Heq.
  destruct (run_loop query_count (List.length servers) 0 servers []
              e init_world) as [res w1].
  cbn [snd] in Hpolls. unfold polls_per_server in Hpolls.
  cbn [polls init_world] in Hpolls.
  unfold is_running. rewrite Hk. cbn [cancel_at never_cancelled].
  replace (polls w1 <? k)%nat with true
    by (symmetry; apply Nat.ltb_lt; lia).
  unfold emit, ret. cbn [fst snd trace].
  split; [reflexivity|]. exists (trace w1).
  rewrite <- app_assoc. reflexivity.
Qed.

(** ** Progress of a check cycle *)

Lemma sec_progress_values_app (tr tr' : list Event) :
  sec_progress_values (tr ++ tr')
  = sec_progress_values tr ++ sec_progress_values tr'.
Proof. apply flat_map_app. Qed.

Lemma security_loop_progress (e : Env) (total : nat)
    (servers : list (string * string)) :
  cancel_at e = None ->
  forall i w,
    sec_progress_values (trace (snd (security_loop total i servers e w)))
    = sec_progress_values (trace w)
      ++ percentages total (S i) (List.length servers).
Proof.
  intros Hc. induction servers as [|[sname sip] rest IH]; intros i w.
  - cbn. rewrite app_nil_r. reflexivity.
  - rewrite security_loop_cons. unfold is_running. rewrite Hc.
    unfold udp_query. cbv beta iota zeta. unfold emit at 1.
    cbn [polls queries draws trace].
    set (w3 := mkWorld _ _ _ _).
    assert (H3 : sec_progress_values (trace w3)
                 = sec_progress_values (trace w)).
    { subst w3. cbn [trace]. rewrite !sec_progress_values_app. cbn.
      rewrite !app_nil_r. reflexivity. }
    clearbody w3.
    change (percentages total (S i) (List.length ((sname, sip) :: rest)))
      with (match progress_val (S i) total with
            | Some p => [p]
            | None => []
            end ++ percentages total (S (S i)) (List.length rest)).
    destruct (progress_val (S i) total) as [p|].
    + unfold emit. rewrite IH. cbn [trace].
      rewrite sec_progress_values_app, H3, <- app_assoc. reflexivity.
    + unfold ret. rewrite IH, H3. reflexivity.
Qed.

Lemma good_sec_totals : forallb good_sec_total (seq 0 100) = true.
Proof. vm_compute. reflexivity. Qed.

(** X10.  In a check cycle that nobody stops, over 1 to 99 servers, one
    progress value is emitted per server; the values increase strictly,
    lie in [1, 100], and the last one is 100. *)
Theorem security_progress_reaches_100 (e : Env)
    (servers : list (string * string)) :
  cancel_at e = None ->
  (1 <= List.length servers <= 99)%nat ->
  let ps := sec_progress_values
              (trace (snd (security_run servers e init_world))) in
  List.length ps = List.length servers /\
  StronglySorted Z.lt ps /\
  Forall (fun p => (1 <= p <= 100)%Z) ps /\
  last ps 0%Z = 100%Z.
Proof.
  intros Hc Hn ps. subst ps. unfold security_run, bind.
  pose proof (security_loop_progress e (List.length servers) servers Hc
                0 init_world) as Hps.
  destruct (security_loop (List.length servers) 0 servers e init_world)
    as [[] w1].
  cbn [snd emit trace init_world sec_progress_values flat_map app] in *.
  rewrite sec_progress_values_app. cbn [sec_progress_values flat_map].
  rewrite app_nil_r. fold (sec_progress_values (trace w1)). rewrite Hps.
  pose proof good_sec_totals as H. rewrite forallb_forall in H.
  specialize (H (List.length servers)
                ltac:(apply in_seq; lia)).
  unfold good_sec_total in H. cbv zeta in H.
  apply andb_true_iff in H as [H Hlast].
  apply andb_true_iff in H as [H Hrange].
  apply andb_true_iff in H as [Hlen Hinc].
  split; [apply Nat.eqb_eq, Hlen|].
  split; [apply increasing_b_sorted, Hinc|].
  split.
  - apply Forall_forall. intros p Hp.
    rewrite forallb_forall in Hrange. specialize (Hrange p Hp).
    apply andb_true_iff in Hrange as [H1 H100].
    apply Z.leb_le in H1, H100. lia.
  - destruct (List.length servers); [lia|]. apply Z.eqb_eq, Hlast.
Qed.

(** * Properties of the result handlers *)

(** ** The stable sort *)

Lemma key_lt_irrefl (a : Key) : key_lt a a = false.
Proof.
  destruct a as [x|]; [|reflexivity]. cbn.
  destruct (Qlt_le_dec x x); [lra | reflexivity].
Qed.

Lemma key_lt_trans (a b c : Key) :
  key_lt a b = true -> key_lt b c = true -> key_lt a c = true.
Proof.
  destruct a as [x|], b as [y|], c as [z|]; cbn; try congruence.
  destruct (Qlt_le_dec x y), (Qlt_le_dec y z), (Qlt_le_dec x z);
    try congruence; lra.
Qed.

(** [a <= b] and [b <= c] give [a <= c], with [x <= y] read as
    "not [y < x]". *)
Lemma key_le_trans (a b c : Key) :
  key_lt b a = false -> key_lt c b = false -> key_lt c a = false.
Proof.
  destruct a as [x|], b as [y|], c as [z|]; cbn; try congruence.
  destruct (Qlt_le_dec y x), (Qlt_le_dec z y), (Qlt_le_dec z x);
    try congruence; lra.
Qed.

Lemma key_lt_total (a b : Key) :
  key_lt a b = false -> key_lt b a = false \/ key_lt b a = true.
Proof. destruct (key_lt b a); auto. Qed.

Lemma key_lt_asym (a b : Key) : key_lt a b = true -> key_lt b a = false.
Proof.
  destruct a as [x|], b as [y|]; cbn; try congruence.
  destruct (Qlt_le_dec x y), (Qlt_le_dec y x); try congruence; lra.
Qed.

(** A key below one of two equal keys is below the other. *)
Lemma key_lt_same (a b c : Key) :
  key_lt a b = true -> key_lt b c = false -> key_lt c b = false ->
  key_lt a c = true.
Proof.
  destruct a as [x|], b as [y|], c as [z|]; cbn; try congruence.
  destruct (Qlt_le_dec x y), (Qlt_le_dec y z), (Qlt_le_dec z y),
    (Qlt_le_dec x z); try congruence; lra.
Qed.

Section StableSort.

Context {A : Type}.
Variable key : A -> Key.

(** [a] may stand before [b] in ascending order. *)
Let asc (a b : A) : Prop := key_lt (key b) (key a) = false.
Let desc (a b : A) : Prop := key_lt (key a) (key b) = false.

Lemma insert_key_perm (x : A) (l : list A) :
  Permutation (insert_key key x l) (x :: l).
Proof.
  induction l as [|y l IH]; [reflexivity|]. cbn [insert_key].
  destruct (key_lt (key y) (key x)); [|reflexivity].
  rewrite IH. apply perm_swap.
Qed.

Lemma isort_perm (l : list A) :
  Permutation (fold_right (insert_key key) [] l) l.
Proof.
  induction l as [|x l IH]; [reflexivity|]. cbn [fold_right].
  rewrite insert_key_perm. constructor. exact IH.
Qed.

Lemma sorted_perm (reverse : bool) (l : list A) :
  Permutation (sorted key reverse l) l.
Proof.
  unfold sorted. destruct reverse; [|apply isort_perm].
  rewrite <- Permutation_rev, isort_perm, <- Permutation_rev.
  reflexivity.
Qed.

Lemma insert_key_sorted (x : A) (l : list A) :
  StronglySorted asc l -> StronglySorted asc (insert_key key x l).
Proof.
  induction 1 as [|y l Hs IH Hy]; cbn [insert_key].
  - repeat constructor.
  - destruct (key_lt (key y) (key x)) eqn:Hlt.
    + constructor; [exact IH|].
      apply Forall_forall. intros z Hz.
      apply (Permutation_in _ (insert_key_perm x l)) in Hz.
      destruct Hz as [<-|Hz].
      * unfold asc. apply key_lt_asym, Hlt.
      * rewrite Forall_forall in Hy. apply Hy, Hz.
    + constructor; [constructor; assumption|].
      constructor; [exact Hlt|].
      apply Forall_forall. intros z Hz. rewrite Forall_forall in Hy.
      unfold asc in *. apply (key_le_trans _ (key y)); [exact Hlt|].
      apply Hy, Hz.
Qed.

Lemma isort_sorted (l : list A) :
  StronglySorted asc (fold_right (insert_key key) [] l).
Proof.
  induction l as [|x l IH]; [constructor|].
  cbn [fold_right]. apply insert_key_sorted, IH.
Qed.

Lemma strongly_sorted_app (R : A -> A -> Prop) (l1 l2 : list A) :
  StronglySorted R l1 -> StronglySorted R l2 ->
  (forall a b, In a l1 -> In b l2 -> R a b) ->
  StronglySorted R (l1 ++ l2).
Proof.
  intros H1 H2 H12. induction H1 as [|x l1 Hs IH Hx]; [exact H2|].
  cbn [app]. constructor.
  - apply IH. intros a b Ha Hb. apply H12; [right|]; assumption.
  - apply Forall_app. split; [exact Hx|].
    apply Forall_forall. intros b Hb. apply H12; [left; reflexivity|].
    exact Hb.
Qed.

Lemma strongly_sorted_rev (R : A -> A -> Prop) (l : list A) :
  StronglySorted R l -> StronglySorted (fun a b => R b a) (rev l).
Proof.
  induction 1 as [|x l Hs IH Hx]; [constructor|]. cbn [rev].
  apply strongly_sorted_app; [exact IH | repeat constructor|].
  intros a b Ha [<-|[]]. apply in_rev in Ha.
  rewrite Forall_forall in Hx. apply Hx, Ha.
Qed.

Lemma sorted_ascending (l : list A) :
  StronglySorted asc (sorted key false l).
Proof. apply isort_sorted. Qed.

Lemma sorted_descending (l : list A) :
  StronglySorted desc (sorted key true l).
Proof.
  unfold sorted.
  apply (strongly_sorted_rev asc), isort_sorted.
Qed.

Lemma insert_key_filter (c : Key) (x : A) (l : list A) :
  filter (same_key key c) (insert_key key x l) =
  filter (same_key key c) (x :: l).
Proof.
  induction l as [|y l IH]; [reflexivity|]. cbn [insert_key].
  destruct (key_lt (key y) (key x)) eqn:Hlt; [|reflexivity].
  cbn [filter] in *. rewrite IH.
  destruct (same_key key c x) eqn:Hx; [|reflexivity].
  replace (same_key key c y) with false; [reflexivity|].
  symmetry. unfold same_key in *.
  apply andb_true_iff in Hx as [H1 H2].
  apply negb_true_iff in H1, H2.
  rewrite (key_lt_same _ _ _ Hlt H1 H2). reflexivity.
Qed.

Lemma isort_filter (c : Key) (l : list A) :
  filter (same_key key c) (fold_right (insert_key key) [] l) =
  filter (same_key key c) l.
Proof.
  induction l as [|x l IH]; [reflexivity|].
  cbn [fold_right]. rewrite insert_key_filter. cbn [filter].
  rewrite IH. reflexivity.
Qed.

Lemma filter_rev' (f : A -> bool) (l : list A) :
  filter f (rev l) = rev (filter f l).
Proof.
  induction l as [|x l IH]; [reflexivity|]. cbn [rev filter].
  rewrite filter_app, IH. cbn [filter].
  destruct (f x); [reflexivity | apply app_nil_r].
Qed.

(** Results with equal keys keep their order. *)
Lemma sorted_stable (reverse : bool) (c : Key) (l : list A) :
  filter (same_key key c) (sorted key reverse l) =
  filter (same_key key c) l.
Proof.
  unfold sorted. destruct reverse; [|apply isort_filter].
  rewrite filter_rev', isort_filter, filter_rev', rev_involutive.
  reflexivity.
Qed.

End StableSort.

(** ** apply_filter *)

Lemma strongly_sorted_impl {A : Type} (R R' : A -> A -> Prop)
    (l : list A) :
  (forall a b, R a b -> R' a b) ->
  StronglySorted R l -> StronglySorted R' l.
Proof.
  intros HR. induction 1 as [|x l Hs IH Hx]; constructor.
  - exact IH.
  - apply (Forall_impl _ (HR x)), Hx.
Qed.

Lemma apply_filter_sorted (win : Window) :
  win_results win <> [] ->
  (0 <= currentIndex (filter_combo win) <= 4)%Z ->
  apply_filter win =
  let filtered :=
    sorted (mode_key (currentIndex (filter_combo win)))
           (mode_reverse (currentIndex (filter_combo win)))
           (win_results win) in
  mkWindow (win_results win) filtered
    (set_results filtered (win_chart win))
    (filter_combo win) (summary_label win)
    (start_btn_enabled win) (start_btn_text win)
    (tab_index win) (status_message win).
Proof.
  intros Hne Hm. unfold apply_filter, mode_key, mode_reverse.
  destruct (win_results win) as [|r rs]; [congruence|].
  set (m := currentIndex (filter_combo win)) in *. clearbody m.
  assert (Hcases : m = 0%Z \/ m = 1%Z \/ m = 2%Z \/ m = 3%Z \/ m = 4%Z)
    by lia.
  destruct Hcases as [->|[->|[->|[->| ->]]]]; reflexivity.
Qed.

(** X11.  With results to show and one of the five sort modes chosen,
    [apply_filter] shows every result exactly once: the filtered list is
    a permutation of the results, the chart gets that list, and the
    results themselves stay as they are. *)
Theorem apply_filter_permutation (win : Window) :
  win_results win <> [] ->
  (0 <= currentIndex (filter_combo win) <= 4)%Z ->
  Permutation (win_filtered_results (apply_filter win)) (win_results win) /\
  chart_results (win_chart (apply_filter win))
    = win_filtered_results (apply_filter win) /\
  win_results (apply_filter win) = win_results win.
Proof.
  intros Hne Hm. rewrite (apply_filter_sorted win Hne Hm). cbv zeta.
  cbn [win_filtered_results win_chart win_results chart_results
       set_results].
  split; [apply sorted_perm | split; reflexivity].
Qed.

Lemma ascending_not_slower (v : ServerResult -> Q) (a b : ServerResult) :
  key_lt (data_or_inf (v b)) (data_or_inf (v a)) = false ->
  not_slower v a b.
Proof.
  unfold data_or_inf, not_slower.
  destruct (Qlt_le_dec 0 (v b)), (Qlt_le_dec 0 (v a)); cbn;
    try discriminate.
  - destruct (Qlt_le_dec (v b) (v a)); [discriminate|]. intros _.
    right. split; assumption.
  - intros _. left. lra.
  - intros _. left. lra.
Qed.

(** X12.  The three "Fastest" modes (cached, uncached, overall) put the
    results in ascending order of that average, and every result without
    data (average not positive) after all results with data. *)
Theorem fastest_first_order (win : Window) :
  win_results win <> [] ->
  (currentIndex (filter_combo win) = 0%Z ->
   StronglySorted (not_slower cached_avg)
     (win_filtered_results (apply_filter win))) /\
  (currentIndex (filter_combo win) = 1%Z ->
   StronglySorted (not_slower uncached_avg)
     (win_filtered_results (apply_filter win))) /\
  (currentIndex (filter_combo win) = 2%Z ->
   StronglySorted (not_slower overall_avg)
     (win_filtered_results (apply_filter win))).
Proof.
  intros Hne.
  split; [|split]; intros Hm;
    rewrite (apply_filter_sorted win Hne) by lia; cbv zeta;
    cbn [win_filtered_results]; rewrite Hm;
    unfold mode_key, mode_reverse; cbn [Z.eqb orb];
    (eapply strongly_sorted_impl;
     [|apply (sorted_ascending
                (fun x : ServerResult => data_or_inf (_ x)))]);
    intros a b; apply ascending_not_slower.
Qed.

Lemma descending_slowest (a b : ServerResult) :
  key_lt (data_or_zero (overall_avg a)) (data_or_zero (overall_avg b))
    = false ->
  slowest_value b <= slowest_value a.
Proof.
  unfold data_or_zero, slowest_value, key_lt.
  destruct (Qlt_le_dec 0 (overall_avg a)), (Qlt_le_dec 0 (overall_avg b));
    match goal with |- context [if Qlt_le_dec ?x ?y then true else false] =>
      destruct (Qlt_le_dec x y) end; try discriminate; intros _; lra.
Qed.

Lemma descending_reliability (a b : ServerResult) :
  key_lt (Fin (reliability a)) (Fin (reliability b)) = false ->
  reliability b <= reliability a.
Proof.
  cbn. destruct (Qlt_le_dec (reliability a) (reliability b));
    [discriminate | intros _; assumption].
Qed.

(** X13.  "Slowest First" puts the results in descending order of the
    overall average, counting a missing average as 0, so results without
    data come last; "Most Reliable" puts them in descending order of
    reliability. *)
Theorem slowest_and_reliable_order (win : Window) :
  win_results win <> [] ->
  (currentIndex (filter_combo win) = 3%Z ->
   StronglySorted (fun a b => slowest_value b <= slowest_value a)
     (win_filtered_results (apply_filter win))) /\
  (currentIndex (filter_combo win) = 4%Z ->
   StronglySorted (fun a b => reliability b <= reliability a)
     (win_filtered_results (apply_filter win))).
Proof.
  intros Hne.
  split; intros Hm;
    rewrite (apply_filter_sorted win Hne) by lia; cbv zeta;
    cbn [win_filtered_results]; rewrite Hm;
    unfold mode_key, mode_reverse; cbn [Z.eqb orb].
  - eapply strongly_sorted_impl;
      [|apply (sorted_descending
                 (fun x : ServerResult => data_or_zero (overall_avg x)))].
    intros a b. apply descending_slowest.
  - eapply strongly_sorted_impl;
      [|apply (sorted_descending
                 (fun x : ServerResult => Fin (reliability x)))].
    intros a b. apply descending_reliability.
Qed.

(** X14.  In each of the five sort modes the sort is stable: the results
    whose sort keys are equal stand in the filtered list in the order
    they have in the results, also in the two descending modes. *)
Theorem apply_filter_stable (win : Window) (c : Key) :
  win_results win <> [] ->
  (0 <= currentIndex (filter_combo win) <= 4)%Z ->
  filter (same_key (mode_key (currentIndex (filter_combo win))) c)
    (win_filtered_results (apply_filter win)) =
  filter (same_key (mode_key (currentIndex (filter_combo win))) c)
    (win_results win).
Proof.
  intros Hne Hm. rewrite (apply_filter_sorted win Hne Hm). cbv zeta.
  cbn [win_filtered_results]. apply sorted_stable.
Qed.

(** ** benchmark_done *)

Lemma min_by_overall_In (x : ServerResult) (l : list ServerResult) :
  In (min_by_overall x l) (x :: l).
Proof.
  revert x. induction l as [|y l IH]; intros x; cbn [min_by_overall].
  - left; reflexivity.
  - destruct (Qlt_le_dec (overall_avg y) (overall_avg x)).
    + right. apply IH.
    + destruct (IH x) as [H|H]; [left | right; right]; assumption.
Qed.

Lemma min_by_overall_least (x : ServerResult) (l : list ServerResult) :
  Forall (fun r => overall_avg (min_by_overall x l) <= overall_avg r)
         (x :: l).
Proof.
  revert x. induction l as [|y l IH]; intros x; cbn [min_by_overall].
  - constructor; [lra | constructor].
  - destruct (Qlt_le_dec (overall_avg y) (overall_avg x)) as [H|H].
    + specialize (IH y). inversion IH as [|? ? Hy Hl]; subst.
      constructor; [lra | constructor; assumption].
    + specialize (IH x). inversion IH as [|? ? Hx Hl]; subst.
      constructor; [assumption | constructor; [lra | assumption]].
Qed.

Lemma valid_results_In (results : list ServerResult) (r : ServerResult) :
  In r (valid_results results) <-> In r results /\ 0 < overall_avg r.
Proof.
  unfold valid_results. rewrite filter_In.
  destruct (Qlt_le_dec 0 (overall_avg r)); intuition (try discriminate).
  lra.
Qed.

Lemma apply_filter_summary (win : Window) :
  summary_label (apply_filter win) = summary_label win.
Proof.
  unfold apply_filter. destruct (win_results win); reflexivity.
Qed.

Lemma benchmark_done_summary (results : list ServerResult)
    (win : Window) :
  summary_label (benchmark_done results win) =
  match summarize results with
  | Some s => Some s
  | None => summary_label win
  end.
Proof.
  unfold benchmark_done. cbv zeta. cbn [summary_label].
  rewrite apply_filter_summary. reflexivity.
Qed.

(** X15.  When some result has a positive overall average,
    [benchmark_done] names as winner a result of the list with the least
    positive overall average and counts the results with a positive
    average as tested; when none has, it leaves the summary as it was. *)
Theorem summary_winner_is_fastest (results : list ServerResult)
    (win : Window) :
  (Exists (fun r => 0 < overall_avg r) results ->
   exists s,
     summary_label (benchmark_done results win) = Some s /\
     In (best s) results /\
     0 < overall_avg (best s) /\
     (forall r, In r results -> 0 < overall_avg r ->
                overall_avg (best s) <= overall_avg r) /\
     tested s = List.length (valid_results results)) /\
  (~ Exists (fun r => 0 < overall_avg r) results ->
   summary_label (benchmark_done results win) = summary_label win).
Proof.
  rewrite benchmark_done_summary. unfold summarize. split.
  - intros Hex. apply Exists_exists in Hex as (r0 & Hin0 & Hpos0).
    assert (Hv0 : In r0 (valid_results results))
      by (apply valid_results_In; auto).
    destruct (valid_results results) as [|x l] eqn:Ev; [destruct Hv0|].
    eexists. split; [reflexivity|]. cbn [best tested].
    pose proof (min_by_overall_In x l) as Hin. rewrite <- Ev in Hin.
    apply valid_results_In in Hin as [Hin Hpos].
    split; [exact Hin|]. split; [exact Hpos|]. split; [|reflexivity].
    intros r Hr Hrpos.
    pose proof (min_by_overall_least x l) as Hleast.
    rewrite Forall_forall in Hleast. apply Hleast. rewrite <- Ev.
    apply valid_results_In. auto.
  - intros Hno. destruct (valid_results results) as [|x l] eqn:Ev;
      [reflexivity|].
    exfalso. apply Hno. apply Exists_exists. exists x.
    apply valid_results_In. rewrite Ev. left. reflexivity.
Qed.

Lemma run_loop_results_forall (P : ServerResult -> Prop) (e : Env)
    (query_count total : nat) :
  (forall sname sip w,
     P (fst (test_single_server sname sip query_count e w))) ->
  forall servers idx results w,
    Forall P results ->
    Forall P (fst (run_loop query_count total idx servers results e w)).
Proof.
  intros HP servers. induction servers as [|[sname sip] rest IH];
    intros idx results w Hres.
  - exact Hres.
  - rewrite run_loop_cons. unfold is_running.
    destruct (match cancel_at e with
              | Some k => (polls w <? k)%nat
              | None => true
              end); [|exact Hres].
    cbv zeta. cbn [polls queries draws trace].
    set (w2 := mkWorld _ _ _ _). pose proof (HP sname sip w2) as Hr.
    clearbody w2.
    destruct (test_single_server sname sip query_count e w2) as [r w3].
    unfold emit. apply IH. apply Forall_app. split; [exact Hres|].
    constructor; [exact Hr | constructor].
Qed.

Lemma sums_le (l : list ServerResult) :
  Forall (fun r => (successful r <= total_queries r)%nat) l ->
  (fold_right Nat.add 0%nat (map successful l)
   <= fold_right Nat.add 0%nat (map total_queries l))%nat.
Proof.
  induction 1 as [|r l Hr _ IH]; cbn [map fold_right]; lia.
Qed.

Lemma summarize_rate_bounds (results : list ServerResult) :
  Forall (fun r => (successful r <= total_queries r)%nat) results ->
  match summarize results with
  | Some s => 0 <= rate s <= 100
  | None => True
  end.
Proof.
  intros HF. unfold summarize.
  assert (HFv : Forall (fun r => (successful r <= total_queries r)%nat)
                  (valid_results results)).
  { apply Forall_forall. intros r Hr. apply valid_results_In in Hr.
    rewrite Forall_forall in HF. apply HF, Hr. }
  destruct (valid_results results) as [|x l]; [exact I|].
  cbn [rate]. pose proof (sums_le _ HFv) as Hle.
  set (total_s := fold_right Nat.add 0%nat (map successful (x :: l))) in *.
  set (total_q := fold_right Nat.add 0%nat (map total_queries (x :: l)))
    in *.
  clearbody total_s total_q. destruct total_q as [|q]; [lra|].
  assert (Hq : 0 < inject_Z (Z.of_nat (S q))).
  { change 0 with (inject_Z 0). rewrite <- Zlt_Qlt. lia. }
  assert (Hs0 : 0 <= inject_Z (Z.of_nat total_s)).
  { change 0 with (inject_Z 0). rewrite <- Zle_Qle. lia. }
  assert (Hsq : inject_Z (Z.of_nat total_s) <= inject_Z (Z.of_nat (S q))).
  { rewrite <- Zle_Qle. lia. }
  assert (H0 : 0 <= inject_Z (Z.of_nat total_s) / inject_Z (Z.of_nat (S q))).
  { apply Qle_shift_div_l; [assumption | lra]. }
  assert (H1 : inject_Z (Z.of_nat total_s) / inject_Z (Z.of_nat (S q)) <= 1).
  { apply Qle_shift_div_r; [assumption | lra]. }
  lra.
Qed.

(** X16.  The success rate that [benchmark_done] shows for the results of
    a run, stopped or not, lies between 0 and 100. *)
Theorem summary_rate_after_run (e : Env)
    (servers : list (string * string)) (query_count : nat) :
  match summarize (fst (run servers query_count e init_world)) with
  | Some s => 0 <= rate s <= 100
  | None => True
  end.
Proof.
  apply summarize_rate_bounds. rewrite run_results.
  apply run_loop_results_forall; [|constructor].
  intros sname sip w.
  rewrite test_single_server_reduce. cbn [successful total_queries reduce].
  apply successful_le.
Qed.

(** ** ResultsChart *)

Lemma max2_ge (a b : Q) : a <= Py.max2 a b /\ b <= Py.max2 a b.
Proof. unfold Py.max2. destruct (Qlt_le_dec a b); lra. Qed.

Lemma all_vals_positive (results : list ServerResult) :
  Forall (fun v => 0 < v) (all_vals results).
Proof.
  unfold all_vals. apply Forall_flat_map, Forall_forall. intros r _.
  destruct (Qlt_le_dec 0 (cached_avg r));
    destruct (Qlt_le_dec 0 (uncached_avg r));
    destruct (Qlt_le_dec 0 (overall_avg r));
    cbn [app]; repeat constructor; assumption.
Qed.

(** The literal [1.2] is the float of mantissa 5404319552844595 and
    exponent -52. *)
#[warnings="-inexact-float"] Example float_1_2_binary64 :
  Prim2SF 1.2%float = S754_finite false 5404319552844595 (-52) /\
  float_1_2 == inject_Z 5404319552844595 / inject_Z (2 ^ 52).
Proof. split; [vm_compute; reflexivity | reflexivity]. Qed.

(** X17.  Whatever the rounding, as long as it is monotone and leaves
    the numbers at hand as they are (1, the width of the chart, the
    averages of the results), after [set_results] the scale of the chart
    is at least 50 and at least every positive average of the results;
    so on a chart of non-negative width no bar is cut at the width of the
    chart: each is drawn in proportion and fits. *)
Theorem chart_scale_covers_results (fl : Q -> Q)
    (results : list ServerResult) (max_val v : Q) (chart_width : Z) :
  (forall x y, x <= y -> fl x <= fl y) ->
  fl 1 == 1 ->
  fl (inject_Z chart_width) == inject_Z chart_width ->
  (forall x, In x (all_vals results) -> fl x == x) ->
  In v (all_vals results) ->
  (0 <= chart_width)%Z ->
  50 <= max_val_after fl results max_val /\
  v <= max_val_after fl results max_val /\
  bar_width fl v (max_val_after fl results max_val) chart_width ==
    fl (fl (v / max_val_after fl results max_val) * inject_Z chart_width) /\
  bar_width fl v (max_val_after fl results max_val) chart_width
    <= inject_Z chart_width.
Proof.
  intros Hmono H1 Hcw Hvals Hin Hw. unfold bar_width, max_val_after.
  pose proof (all_vals_positive results) as Hpos.
  rewrite Forall_forall in Hpos.
  destruct results as [|r rs]; [destruct Hin|].
  destruct (all_vals (r :: rs)) as [|x l] eqn:Ev; [destruct Hin|].
  pose proof (max_from_upper x l) as Hup. rewrite Forall_forall in Hup.
  specialize (Hup v Hin).
  pose proof (max_from_In x l) as Hmax.
  pose proof (Hpos _ Hmax) as Hmpos. pose proof (Hvals _ Hmax) as Hfix.
  set (vmax := Py.max_from x l) in *. clearbody vmax.
  assert (Hgrow : vmax <= vmax * float_1_2).
  { setoid_replace vmax with (vmax * 1) at 1 by ring.
    apply Qmult_le_l; [exact Hmpos|]. unfold float_1_2, Qle. cbn. lia. }
  apply Hmono in Hgrow.
  pose proof (max2_ge (fl (vmax * float_1_2)) 50) as [Hm1 Hm2].
  set (M := Py.max2 (fl (vmax * float_1_2)) 50) in *. clearbody M.
  assert (HvM : v <= M) by lra.
  assert (Hratio : v / M <= 1) by (apply Qle_shift_div_r; lra).
  apply Hmono in Hratio.
  assert (Hw' : 0 <= inject_Z chart_width).
  { change 0 with (inject_Z 0). rewrite <- Zle_Qle. exact Hw. }
  assert (Hbar : fl (v / M) * inject_Z chart_width <= inject_Z chart_width).
  { setoid_replace (inject_Z chart_width)
      with (1 * inject_Z chart_width) at 2 by ring.
    apply Qmult_le_compat_r; [lra | exact Hw']. }
  apply Hmono in Hbar.
  split; [exact Hm2|]. split; [exact HvM|].
  unfold py_min2.
  destruct (Qlt_le_dec (inject_Z chart_width)
              (fl (fl (v / M) * inject_Z chart_width))) as [Hlt|Hge].
  - exfalso. lra.
  - split; [reflexivity | lra].
Qed.

(** * Properties of the widgets *)

(** ** PopupList *)

Lemma row_top_scrolled (p : PopupList) (i : Z) :
  (0 <= _vscroll p)%Z ->
  row_top p i = (_padding_v + _item_height * i - _vscroll p)%Z /\
  first_index p = (_vscroll p / _item_height)%Z.
Proof.
  intros Hv. unfold row_top, first_index, _padding_v, _item_height.
  pose proof (Z.div_mod (_vscroll p) 36 ltac:(lia)) as Hdm.
  pose proof (Z.mod_pos_bound (_vscroll p) 36 ltac:(lia)) as Hm.
  assert (Hd : (0 <= _vscroll p / 36)%Z) by (apply Z.div_pos; lia).
  rewrite Z.max_r by exact Hd. split; [lia | reflexivity].
Qed.

Lemma index_at_pos_in_row (p : PopupList) (i pos_y : Z) :
  (0 <= i < Z.of_nat (List.length (_items p)))%Z ->
  (_padding_v + _item_height * i - _vscroll p <= pos_y
   < _padding_v + _item_height * i - _vscroll p + _item_height)%Z <->
  _index_at_pos pos_y p = i.
Proof.
  intros Hi.
  unfold _index_at_pos. cbv zeta. unfold _padding_v, _item_height in *.
  set (y := (pos_y + _vscroll p - 6)%Z).
  destruct (y <? 0)%Z eqn:Hneg.
  - apply Z.ltb_lt in Hneg. subst y. split; intros H; lia.
  - apply Z.ltb_ge in Hneg.
    pose proof (Z.div_mod y 36 ltac:(lia)) as Hdm.
    pose proof (Z.mod_pos_bound y 36 ltac:(lia)) as Hm.
    assert (Hd : (0 <= y / 36)%Z) by (apply Z.div_pos; lia).
    destruct ((0 <=? y / 36) && (y / 36 <? Z.of_nat (List.length (_items p))))%Z
      eqn:Hrange.
    + subst y. split; intros H; lia.
    + apply andb_false_iff in Hrange.
      destruct Hrange as [Hr|Hr];
        [apply Z.leb_gt in Hr | apply Z.ltb_ge in Hr];
        subst y; split; intros H; lia.
Qed.

(** X18.  The hit test agrees with the painting: for a popup scrolled by
    a non-negative offset and a row [i] that [paintEvent] draws, a
    position lies within the 36 pixels of that row exactly when
    [_index_at_pos] returns [i]. *)
Theorem hit_test_matches_painted_rows (p : PopupList) (i pos_y : Z) :
  (0 <= _vscroll p)%Z ->
  (first_index p <= i < Z.of_nat (List.length (_items p)))%Z ->
  (row_top p i <= pos_y < row_top p i + _item_height)%Z <->
  _index_at_pos pos_y p = i.
Proof.
  intros Hv Hi. destruct (row_top_scrolled p i Hv) as [Htop Hfirst].
  rewrite Htop. rewrite Hfirst in Hi.
  assert (Hi0 : (0 <= i)%Z).
  { pose proof (Z.div_pos (_vscroll p) _item_height Hv
                  ltac:(unfold _item_height; lia)). lia. }
  apply index_at_pos_in_row. lia.
Qed.

(** X19.  A wheel turn keeps the scroll offset between 0 and the part of
    the content that does not fit, and on a popup no higher than its
    content (as [addItems] makes it) the rows keep covering it: the
    first row starts at or above the top padding and the last row ends
    at or below the bottom padding. *)
Theorem wheel_keeps_rows_in_view (angle_y height : Z) (p : PopupList) :
  let n := Z.of_nat (List.length (_items p)) in
  let p' := wheelEvent angle_y height p in
  (0 <= _vscroll p'
   <= Z.max 0 (n * _item_height - height + _padding_v * 2))%Z /\
  _items p' = _items p /\
  (row_top p' 0 <= _padding_v)%Z /\
  ((height <= n * _item_height + _padding_v * 2)%Z ->
   (height - _padding_v <= row_top p' (n - 1) + _item_height)%Z) /\
  (forall its q,
     fixed_height (popup_addItems its q)
     <= Z.of_nat (List.length its) * _item_height + _padding_v * 2)%Z.
Proof.
  intros n p'.
  assert (Hv : (0 <= _vscroll p'
                <= Z.max 0 (n * _item_height - height + _padding_v * 2))%Z).
  { subst p' n. unfold wheelEvent. cbn [_vscroll]. lia. }
  split; [exact Hv|]. split; [reflexivity|].
  destruct (row_top_scrolled p' 0 ltac:(lia)) as [H0 _].
  destruct (row_top_scrolled p' (n - 1) ltac:(lia)) as [Hn _].
  rewrite H0, Hn. unfold _padding_v, _item_height in *.
  split; [lia|]. split; [intros Hh; lia|].
  intros its q. cbn [popup_addItems fixed_height].
  unfold _max_visible_items, _item_height, _padding_v. lia.
Qed.

(** ** SimpleCombo *)

Lemma py_index_in_range {A : Type} (l : list A) (i : Z) :
  (0 <= i < Z.of_nat (List.length l))%Z ->
  exists x, py_index l i = Some x /\ nth_error l (Z.to_nat i) = Some x.
Proof.
  intros Hi. unfold py_index.
  replace (0 <=? i)%Z with true by (symmetry; apply Z.leb_le; lia).
  destruct (nth_error l (Z.to_nat i)) as [x|] eqn:E.
  - exists x. auto.
  - apply nth_error_None in E. lia.
Qed.

Lemma combo_ok_text (c : SimpleCombo) :
  combo_ok c ->
  exists text,
    currentText c = Some text /\
    (items c = [] -> text = "") /\
    (items c <> [] ->
     nth_error (items c) (Z.to_nat (currentIndex c)) = Some text).
Proof.
  intros (H0 & Hlt & _). unfold currentText, currentIndex.
  destruct (items c) as [|x l] eqn:E.
  - exists "". split; [reflexivity|]. split; [reflexivity | congruence].
  - destruct Hlt as [Hlt|Hlt]; [discriminate|].
    destruct (py_index_in_range (x :: l) (_index c) ltac:(lia))
      as (text & Hpy & Hnth).
    exists text. split; [exact Hpy|]. split; [discriminate | auto].
Qed.

Lemma update_button_text_ok (c : SimpleCombo) :
  combo_ok c ->
  exists c',
    _update_button_text c = Some c' /\ combo_ok c' /\
    items c' = items c /\ _index c' = _index c /\
    _popup c' = _popup c /\ currentText c = Some (button_text c').
Proof.
  intros Hok. destruct (combo_ok_text c Hok) as (text & Htext & _).
  unfold _update_button_text. rewrite Htext.
  eexists. split; [reflexivity|]. cbn. split; [exact Hok | auto].
Qed.

Lemma setCurrentIndex_ok (idx : Z) (c : SimpleCombo) :
  combo_ok c ->
  exists c' sent,
    setCurrentIndex idx c = Some (c', sent) /\ combo_ok c' /\
    items c' = items c /\ _popup c' = _popup c /\
    (sent = Some idx /\ _index c' = idx /\
     (0 <= idx < Z.of_nat (List.length (items c)))%Z
     \/ sent = None /\ c' = c /\
        ~ (0 <= idx < Z.of_nat (List.length (items c)))%Z).
Proof.
  intros Hok. unfold setCurrentIndex.
  destruct ((0 <=? idx) && (idx <? Z.of_nat (List.length (items c))))%Z
    eqn:Hrange.
  - apply andb_true_iff in Hrange as [H0 H1].
    apply Z.leb_le in H0. apply Z.ltb_lt in H1.
    assert (Hok1 : combo_ok
                     (mkSimpleCombo (items c) idx (_popup c)
                        (button_text c))).
    { destruct Hok as (_ & _ & Hp & Hv). repeat split; cbn; auto. }
    destruct (update_button_text_ok _ Hok1)
      as (c' & Hup & Hok' & Hit & Hidx & Hpop & _).
    rewrite Hup. exists c', (Some idx).
    split; [reflexivity|]. split; [exact Hok'|].
    split; [exact Hit|]. split; [exact Hpop|]. left. auto.
  - exists c, None. split; [reflexivity|]. split; [exact Hok|].
    split; [reflexivity|]. split; [reflexivity|]. right.
    split; [reflexivity|]. split; [reflexivity|].
    apply andb_false_iff in Hrange.
    destruct Hrange as [Hr|Hr];
      [apply Z.leb_gt in Hr | apply Z.ltb_ge in Hr]; lia.
Qed.

Lemma index_at_pos_range (pos_y : Z) (p : PopupList) :
  _index_at_pos pos_y p = (-1)%Z \/
  (0 <= _index_at_pos pos_y p < Z.of_nat (List.length (_items p)))%Z.
Proof.
  unfold _index_at_pos. cbv zeta.
  destruct (_ <? 0)%Z; [left; reflexivity|].
  destruct ((0 <=? _) && (_ <? _))%Z eqn:Hrange; [|left; reflexivity].
  apply andb_true_iff in Hrange as [H0 H1].
  apply Z.leb_le in H0. apply Z.ltb_lt in H1. right. lia.
Qed.

Lemma with_popup_ok (p : PopupList) (c : SimpleCombo) :
  combo_ok c -> _items p = items c -> (0 <= _vscroll p)%Z ->
  combo_ok (with_popup p c).
Proof.
  intros (H0 & Hlt & _ & _) Hp Hv. repeat split; cbn; auto.
Qed.

Lemma combo_step_ok (op : ComboOp) (c : SimpleCombo) :
  combo_ok c -> exists c', combo_step op c = Some c' /\ combo_ok c'.
Proof.
  intros Hok. pose proof Hok as (H0 & Hlt & Hp & Hv).
  destruct op as [its|idx| |pos_y|angle_y height|pos_y| ]; cbn [combo_step].
  - unfold addItems.
    match goal with |- context [_update_button_text ?c1] =>
      assert (Hok1 : combo_ok c1) end.
    { repeat split; cbn [_index items _popup popup_addItems _items
                         _vscroll]; try reflexivity.
      - destruct its; [exact H0|].
        destruct (_ <=? _)%Z; [reflexivity | exact H0].
      - destruct its as [|x l]; [left; reflexivity|]. right.
        destruct (Z.of_nat (List.length (x :: l)) <=? _index c)%Z eqn:E.
        + cbn [List.length]. lia.
        + apply Z.leb_gt in E. exact E. }
    destruct (update_button_text_ok _ Hok1) as (c' & Hup & Hok' & _).
    exists c'. auto.
  - destruct (setCurrentIndex_ok idx c Hok) as (c' & sent & Hs & Hok' & _).
    rewrite Hs. exists c'. split; [reflexivity | exact Hok'].
  - eexists. split; [reflexivity|]. unfold _toggle_popup.
    destruct (popup_visible (_popup c)); repeat split; cbn;
      try assumption; try reflexivity; lia.
  - unfold popup_click, mousePressEvent.
    destruct (index_at_pos_range pos_y (_popup c)) as [Hm|Hr].
    + rewrite Hm. cbn [Z.eqb]. eexists. split; [reflexivity|].
      destruct c; exact Hok.
    + replace (_index_at_pos pos_y (_popup c) =? -1)%Z with false
        by (symmetry; apply Z.eqb_neq; lia).
      match goal with |- context [setCurrentIndex ?i ?c1] =>
        assert (Hok1 : combo_ok c1)
          by (repeat split; cbn; auto);
        destruct (setCurrentIndex_ok i c1 Hok1)
          as (c' & sent & Hs & Hok' & _)
      end.
      rewrite Hs. exists c'. split; [reflexivity | exact Hok'].
  - eexists. split; [reflexivity|]. apply with_popup_ok; auto.
    unfold wheelEvent. cbn [_vscroll]. lia.
  - eexists. split; [reflexivity|]. apply with_popup_ok; auto.
  - eexists. split; [reflexivity|]. apply with_popup_ok; auto.
Qed.

Lemma new_combo_ok (its : list string) : combo_ok (new_combo its).
Proof.
  unfold new_combo. repeat split; cbn; try lia.
  - destruct its; [left; reflexivity | right; cbn; lia].
  - destruct its; reflexivity.
  - destruct its; cbn; lia.
Qed.

Lemma combo_run_ok (ops : list ComboOp) :
  forall c, combo_ok c ->
            exists c', combo_run ops c = Some c' /\ combo_ok c'.
Proof.
  induction ops as [|op ops IH]; intros c Hok.
  - exists c. auto.
  - destruct (combo_step_ok op c Hok) as (c1 & Hs & Hok1).
    cbn [combo_run]. rewrite Hs. apply IH, Hok1.
Qed.

(** X20.  Whatever is done to a combo after its construction (new items,
    a new index, opening or closing the popup, clicks, wheel turns, hover),
    no handler raises [IndexError]; the index stays within the items, the
    popup lists the items of the combo, and [currentText] is the item at
    the current index, or the empty string when there is no item. *)
Theorem combo_never_fails (its : list string) (ops : list ComboOp) :
  exists c text,
    combo_run ops (new_combo its) = Some c /\
    combo_ok c /\
    currentText c = Some text /\
    (items c = [] -> text = "") /\
    (items c <> [] ->
     nth_error (items c) (Z.to_nat (currentIndex c)) = Some text).
Proof.
  destruct (combo_run_ok ops (new_combo its) (new_combo_ok its))
    as (c & Hrun & Hok).
  destruct (combo_ok_text c Hok) as (text & Ht & He & Hn).
  exists c, text. auto.
Qed.

(** X21.  A click within a row that the popup paints selects that row:
    the combo takes its index, shows its text on the button and as
    [currentText], sends the index with [currentIndexChanged], and the
    popup closes. *)
Theorem click_selects_painted_row (c : SimpleCombo) (i pos_y : Z) :
  combo_ok c ->
  (first_index (_popup c) <= i < Z.of_nat (List.length (items c)))%Z ->
  (row_top (_popup c) i <= pos_y < row_top (_popup c) i + _item_height)%Z ->
  exists c' text,
    popup_click pos_y c = Some (c', Some i) /\
    currentIndex c' = i /\
    nth_error (items c) (Z.to_nat i) = Some text /\
    currentText c' = Some text /\
    button_text c' = text /\
    items c' = items c /\
    popup_visible (_popup c') = false.
Proof.
  intros Hok Hi Hy. pose proof Hok as (H0 & Hlt & Hp & Hv).
  assert (Hi' : (first_index (_popup c) <= i
                 < Z.of_nat (List.length (_items (_popup c))))%Z)
    by (rewrite Hp; exact Hi).
  assert (Hi0 : (0 <= i)%Z).
  { unfold first_index in Hi. lia. }
  destruct (row_top_scrolled (_popup c) i Hv) as [Htop _].
  rewrite Htop in Hy.
  apply (index_at_pos_in_row (_popup c) i pos_y) in Hy; [|lia].
  unfold popup_click, mousePressEvent. rewrite Hy.
  replace (i =? -1)%Z with false by (symmetry; apply Z.eqb_neq; lia).
  unfold setCurrentIndex. cbn [items _popup button_text].
  replace ((0 <=? i) && (i <? Z.of_nat (List.length (items c))))%Z
    with true
    by (symmetry; apply andb_true_iff; split;
        [apply Z.leb_le | apply Z.ltb_lt]; lia).
  destruct (py_index_in_range (items c) i ltac:(lia))
    as (text & Hpy & Hnth).
  unfold _update_button_text, currentText. cbn [items _index _popup].
  destruct (items c) as [|x l] eqn:E; [cbn in Hi; lia|].
  rewrite Hpy. eexists. exists text.
  split; [reflexivity|]. cbn. auto 7.
Qed.

(** ** The window as a whole *)

Lemma window_ok_mode (win : Window) :
  window_ok win -> (0 <= currentIndex (filter_combo win) <= 4)%Z.
Proof.
  intros ((H0 & Hlt & _) & Hit & _). unfold currentIndex.
  rewrite Hit in Hlt. destruct Hlt as [Hlt|Hlt]; [discriminate|].
  cbn in Hlt. lia.
Qed.

Lemma apply_filter_ok (win : Window) :
  combo_ok (filter_combo win) ->
  items (filter_combo win) = sort_labels ->
  window_ok (apply_filter win).
Proof.
  intros Hc Hit.
  destruct (win_results win) as [|r rs] eqn:Er.
  - unfold apply_filter. rewrite Er.
    split; [exact Hc|]. split; [exact Hit|]. left. exact Er.
  - assert (Hm : (0 <= currentIndex (filter_combo win) <= 4)%Z).
    { destruct Hc as (H0 & Hlt & _). unfold currentIndex.
      rewrite Hit in Hlt. destruct Hlt as [Hlt|Hlt]; [discriminate|].
      cbn in Hlt. lia. }
    rewrite (apply_filter_sorted win) by (rewrite ?Er; auto; discriminate).
    cbv zeta. unfold window_ok, shows_sorted.
    cbn [filter_combo win_filtered_results win_results win_chart
         chart_results set_results].
    split; [exact Hc|]. split; [exact Hit|]. right.
    split; reflexivity.
Qed.

Lemma benchmark_done_ok (results : list ServerResult) (win : Window) :
  window_ok win -> window_ok (benchmark_done results win).
Proof.
  intros (Hc & Hit & _). unfold benchmark_done. cbv zeta.
  match goal with |- context [apply_filter ?w1] =>
    pose proof (apply_filter_ok w1 Hc Hit) as Hok;
    set (win2 := apply_filter w1) in * end.
  clearbody win2. exact Hok.
Qed.

(** A change of the sort combo that keeps its items and its index. *)
Lemma with_filter_combo_ok (c : SimpleCombo) (win : Window) :
  window_ok win -> combo_ok c ->
  items c = items (filter_combo win) ->
  _index c = _index (filter_combo win) ->
  window_ok (with_filter_combo c win).
Proof.
  intros (_ & Hit & Hshow) Hc Hitems Hidx.
  unfold window_ok, shows_sorted, with_filter_combo, currentIndex in *.
  cbn [filter_combo win_results win_filtered_results win_chart].
  rewrite Hidx. split; [exact Hc|]. split; [congruence | exact Hshow].
Qed.

Lemma select_sort_ok (idx : Z) (win : Window) :
  window_ok win ->
  exists win', select_sort idx win = Some win' /\ window_ok win'.
Proof.
  intros Hok. pose proof Hok as (Hc & Hit & Hshow). unfold select_sort.
  destruct (setCurrentIndex_ok idx (filter_combo win) Hc)
    as (c' & sent & Hs & Hok' & Hitems & _ & Hcase).
  rewrite Hs. eexists. split; [reflexivity|].
  destruct Hcase as [(-> & _) | (-> & -> & _)].
  - apply apply_filter_ok; cbn [filter_combo]; congruence.
  - apply (with_filter_combo_ok (filter_combo win) win); auto.
Qed.

Lemma popup_click_ok (pos_y : Z) (c : SimpleCombo) :
  combo_ok c ->
  exists c' sent,
    popup_click pos_y c = Some (c', sent) /\ combo_ok c' /\
    items c' = items c /\
    (sent = None -> _index c' = _index c).
Proof.
  intros Hok. pose proof Hok as (H0 & Hlt & Hp & Hv).
  unfold popup_click, mousePressEvent.
  destruct (index_at_pos_range pos_y (_popup c)) as [Hm|Hr].
  - rewrite Hm. cbn [Z.eqb]. eexists. eexists. split; [reflexivity|].
    cbn [items _index]. split; [|auto].
    destruct c; exact Hok.
  - replace (_index_at_pos pos_y (_popup c) =? -1)%Z with false
      by (symmetry; apply Z.eqb_neq; lia).
    match goal with |- context [setCurrentIndex ?i ?c1] =>
      assert (Hok1 : combo_ok c1)
        by (repeat split; cbn; auto);
      destruct (setCurrentIndex_ok i c1 Hok1)
        as (c' & sent & Hs & Hok' & Hitems & _ & Hcase)
    end.
    rewrite Hs. exists c', sent. split; [reflexivity|].
    split; [exact Hok'|]. split; [exact Hitems|].
    intros ->. destruct Hcase as [(Hsome & _) | (_ & -> & _)];
      [discriminate | reflexivity].
Qed.

Lemma click_sort_ok (pos_y : Z) (win : Window) :
  window_ok win ->
  exists win', click_sort pos_y win = Some win' /\ window_ok win'.
Proof.
  intros Hok. pose proof Hok as (Hc & Hit & Hshow). unfold click_sort.
  destruct (popup_click_ok pos_y (filter_combo win) Hc)
    as (c' & sent & Hs & Hok' & Hitems & Hidx).
  rewrite Hs. eexists. split; [reflexivity|].
  destruct sent as [i|].
  - apply apply_filter_ok; cbn [filter_combo with_filter_combo]; congruence.
  - apply with_filter_combo_ok; auto.
Qed.

Lemma window_step_ok (op : WindowOp) (win : Window) :
  window_ok win ->
  exists win', window_step op win = Some win' /\ window_ok win'.
Proof.
  intros Hok. pose proof Hok as (Hc & Hit & Hshow).
  pose proof Hc as (H0 & Hlt & Hp & Hv).
  destruct op; cbn [window_step]; cbv zeta.
  - eexists. split; [reflexivity|]. unfold start_benchmark_window.
    destruct (selection checked); [exact Hok|].
    split; [exact Hc|]. split; [exact Hit|]. left. reflexivity.
  - eexists. split; [reflexivity | exact Hok].
  - eexists. split; [reflexivity | apply benchmark_done_ok, Hok].
  - eexists. split; [reflexivity | exact Hok].
  - apply select_sort_ok, Hok.
  - eexists. split; [reflexivity|].
    apply with_filter_combo_ok; [exact Hok | | reflexivity | reflexivity].
    unfold _toggle_popup.
    destruct (popup_visible (_popup (filter_combo win)));
      repeat split; cbn; try assumption; try reflexivity; lia.
  - apply click_sort_ok, Hok.
  - eexists. split; [reflexivity|].
    apply with_filter_combo_ok; [exact Hok | | reflexivity | reflexivity].
    apply with_popup_ok; auto. unfold wheelEvent. cbn [_vscroll]. lia.
  - eexists. split; [reflexivity|].
    apply with_filter_combo_ok; [exact Hok | | reflexivity | reflexivity].
    apply with_popup_ok; auto.
  - eexists. split; [reflexivity|].
    apply with_filter_combo_ok; [exact Hok | | reflexivity | reflexivity].
    apply with_popup_ok; auto.
  - eexists. split; [reflexivity|].
    apply with_filter_combo_ok; [exact Hok | | reflexivity | reflexivity].
    apply with_popup_ok; auto.
  - eexists. split; [reflexivity|]. unfold select_tab.
    destruct ((0 <=? idx) && (idx <? 3))%Z; exact Hok.
Qed.

Lemma window_run_ok (ops : list WindowOp) :
  forall win, window_ok win ->
              exists win', window_run ops win = Some win' /\ window_ok win'.
Proof.
  induction ops as [|op ops IH]; intros win Hok.
  - exists win. auto.
  - cbn [window_run].
    destruct (window_step_ok op win Hok) as (win1 & Hs & Hok1).
    rewrite Hs. apply IH, Hok1.
Qed.

Lemma new_window_ok :
  exists win, new_window = Some win /\ window_ok win.
Proof.
  eexists. split; [reflexivity|].
  unfold window_ok. cbn.
  split; [repeat split; cbn; try lia; right; lia|].
  split; [reflexivity | left; reflexivity].
Qed.

(** X22.  From the start of the program on, whatever the benchmark
    thread signals and whatever is done to the start button, the sort
    combo, its popup and the tabs, no handler fails and the sort mode
    stays one of the five; and whenever the window holds results (from
    the end of a benchmark until the next one starts), the list on
    display is those results, each once, in the order of the sort mode,
    and the chart shows that list. *)
Theorem window_shows_all_results (ops : list WindowOp) :
  exists w0 win,
    new_window = Some w0 /\
    window_run ops w0 = Some win /\
    (0 <= currentIndex (filter_combo win) <= 4)%Z /\
    (win_results win <> [] ->
     shows_sorted win /\
     Permutation (win_filtered_results win) (win_results win)).
Proof.
  destruct new_window_ok as (w0 & Hnew & Hok0).
  destruct (window_run_ok ops w0 Hok0) as (win & Hrun & Hok).
  exists w0, win. split; [exact Hnew|]. split; [exact Hrun|].
  split; [apply window_ok_mode, Hok|].
  destruct Hok as (_ & _ & [Hempty | Hshow]); intros Hne; [congruence|].
  split; [exact Hshow|]. destruct Hshow as [Hf _]. rewrite Hf.
  apply sorted_perm.
Qed.

(** * Concrete cases of the further properties *)

(** A campaign of two queries per phase that nobody stops. *)
Lemma unstopped_campaign_queries_witness :
  cancel_at steady_env = None /\
  (trace (snd (test_single_server "Google" "8.8.8.8" 2 steady_env
                 init_world)) =
     trace init_world
     ++ repeat (EvQuery "8.8.8.8" "google.com" rdatatype.A false) 2
     ++ map (fun j => EvQuery "8.8.8.8"
                        (drawn_name steady_env (draws init_world + 8 * j))
                        rdatatype.A false)
            (seq 0 2) /\
   queries (snd (test_single_server "Google" "8.8.8.8" 2 steady_env
                   init_world)) =
     (queries init_world
      + total_queries (campaign_result "Google" "8.8.8.8" 2 steady_env
                         init_world))%nat).
Proof.
  split; [reflexivity|].
  apply (unstopped_campaign_queries steady_env init_world
           "Google" "8.8.8.8" 2).
  reflexivity.
Defined.

Lemma unstopped_campaign_samples_witness :
  cancel_at steady_env = None /\
  (cached_samples "8.8.8.8" 2 steady_env init_world =
     flat_map (sample steady_env) (seq (queries init_world) 2) /\
   uncached_samples "8.8.8.8" 2 steady_env init_world =
     flat_map (sample steady_env) (seq (queries init_world + 2) 2) /\
   successful (campaign_result "Google" "8.8.8.8" 2 steady_env init_world) =
     List.length (flat_map (sample steady_env)
                    (seq (queries init_world) (2 * 2)))).
Proof.
  split; [reflexivity|].
  apply (unstopped_campaign_samples steady_env init_world
           "Google" "8.8.8.8" 2).
  reflexivity.
Defined.

Lemma answering_server_full_reliability_witness :
  let r := campaign_result "Google" "8.8.8.8" 2 steady_env init_world in
  cancel_at steady_env = None /\
  (0 < 2)%nat /\
  (forall i, (queries init_world <= i < queries init_world + 2 * 2)%nat ->
             udp steady_env i <> None /\ 0 < elapsed steady_env i) /\
  (successful r = (2 * 2)%nat /\
   successful r = total_queries r /\
   reliability r == 100).
Proof.
  assert (H : forall i,
             (queries init_world <= i < queries init_world + 2 * 2)%nat ->
             udp steady_env i <> None /\ 0 < elapsed steady_env i).
  { intros i _. split; [discriminate|].
    unfold steady_env, elapsed, Qlt. cbn [Qnum Qden inject_Z]. lia. }
  split; [reflexivity|]. split; [lia|]. split; [exact H|].
  apply (answering_server_full_reliability steady_env init_world
           "Google" "8.8.8.8" 2).
  - reflexivity.
  - lia.
  - exact H.
Defined.

(** A resolver that answers every query after 20 milliseconds. *)
Lemma constant_latency_result_witness :
  let r := campaign_result "Google" "8.8.8.8" 2 repeating_env init_world in
  cancel_at repeating_env = None /\
  (0 < 2)%nat /\
  0 < 20 /\
  (forall i, (queries init_world <= i < queries init_world + 2 * 2)%nat ->
             udp repeating_env i <> None /\ elapsed repeating_env i == 20) /\
  (cached_avg r == 20 /\ uncached_avg r == 20 /\ overall_avg r == 20 /\
   min_time r == 20 /\ max_time r == 20).
Proof.
  assert (H : forall i,
             (queries init_world <= i < queries init_world + 2 * 2)%nat ->
             udp repeating_env i <> None /\ elapsed repeating_env i == 20).
  { intros i _. split; [discriminate | reflexivity]. }
  split; [reflexivity|]. split; [lia|]. split; [reflexivity|].
  split; [exact H|].
  apply (constant_latency_result repeating_env init_world
           "Google" "8.8.8.8" 2 20).
  - reflexivity.
  - lia.
  - reflexivity.
  - exact H.
Defined.

(** A campaign stopped after one read of the flag. *)
Lemma stopped_campaign_query_bound_witness :
  cancel_at (stopped_env 1) = Some 1%nat /\
  ((queries (snd (test_single_server "Google" "8.8.8.8" 3 (stopped_env 1)
                    init_world))
    <= queries init_world + (1 - polls init_world))%nat /\
   ((1 <= polls init_world)%nat ->
    queries (snd (test_single_server "Google" "8.8.8.8" 3 (stopped_env 1)
                    init_world))
      = queries init_world /\
    successful (campaign_result "Google" "8.8.8.8" 3 (stopped_env 1)
                  init_world) = 0%nat)).
Proof.
  split; [reflexivity|].
  apply (stopped_campaign_query_bound (stopped_env 1) 1 init_world
           "Google" "8.8.8.8" 3).
  reflexivity.
Defined.

(** A run over two servers stopped during the second campaign. *)
Lemma stop_before_last_read_delivers_nothing_witness :
  cancel_at (stopped_env 5) = Some 5%nat /\
  (5 <= List.length two_servers * (1 + 2 * 1))%nat /\
  (filter is_delivery
     (trace (snd (run two_servers 1 (stopped_env 5) init_world))) = [] /\
   (forall p,
      ~ In (EvProgress p "Complete!")
           (trace (snd (run two_servers 1 (stopped_env 5) init_world))))).
Proof.
  split; [reflexivity|]. split; [cbn; lia|].
  apply (stop_before_last_read_delivers_nothing (stopped_env 5) 5
           two_servers 1).
  - reflexivity.
  - cbn. lia.
Defined.

(** The same run stopped after its last read of the flag. *)
Lemma stop_after_last_read_changes_nothing_witness :
  cancel_at (stopped_env 7) = Some 7%nat /\
  (List.length two_servers * (1 + 2 * 1) < 7)%nat /\
  (run two_servers 1 (stopped_env 7) init_world =
     run two_servers 1 (never_cancelled (stopped_env 7)) init_world /\
   exists tr,
     trace (snd (run two_servers 1 (stopped_env 7) init_world)) =
     tr ++ [EvProgress 100%Z "Complete!";
            EvFinished (fst (run two_servers 1 (stopped_env 7)
                               init_world))]).
Proof.
  split; [reflexivity|]. split; [cbn; lia|].
  apply (stop_after_last_read_changes_nothing (stopped_env 7) 7
           two_servers 1).
  - reflexivity.
  - cbn. lia.
Defined.

(** A check cycle over two servers. *)
Lemma security_progress_reaches_100_witness :
  let ps := sec_progress_values
              (trace (snd (security_run two_servers steady_env
                             init_world))) in
  cancel_at steady_env = None /\
  (1 <= List.length two_servers <= 99)%nat /\
  (List.length ps = List.length two_servers /\
   StronglySorted Z.lt ps /\
   Forall (fun p => (1 <= p <= 100)%Z) ps /\
   last ps 0%Z = 100%Z).
Proof.
  split; [reflexivity|]. split; [cbn; lia|].
  apply (security_progress_reaches_100 steady_env two_servers).
  - reflexivity.
  - cbn. lia.
Defined.

(** The three sample results sorted on the overall average. *)
Lemma apply_filter_permutation_witness :
  win_results (sample_window 2) <> [] /\
  (0 <= currentIndex (filter_combo (sample_window 2)) <= 4)%Z /\
  (Permutation (win_filtered_results (apply_filter (sample_window 2)))
     (win_results (sample_window 2)) /\
   chart_results (win_chart (apply_filter (sample_window 2)))
     = win_filtered_results (apply_filter (sample_window 2)) /\
   win_results (apply_filter (sample_window 2))
     = win_results (sample_window 2)).
Proof.
  split; [discriminate|]. split; [cbn; lia|].
  apply (apply_filter_permutation (sample_window 2)).
  - discriminate.
  - cbn. lia.
Defined.

Lemma fastest_first_order_witness :
  win_results (sample_window 0) <> [] /\
  ((currentIndex (filter_combo (sample_window 0)) = 0%Z ->
    StronglySorted (not_slower cached_avg)
      (win_filtered_results (apply_filter (sample_window 0)))) /\
   (currentIndex (filter_combo (sample_window 0)) = 1%Z ->
    StronglySorted (not_slower uncached_avg)
      (win_filtered_results (apply_filter (sample_window 0)))) /\
   (currentIndex (filter_combo (sample_window 0)) = 2%Z ->
    StronglySorted (not_slower overall_avg)
      (win_filtered_results (apply_filter (sample_window 0))))).
Proof.
  split; [discriminate|].
  apply (fastest_first_order (sample_window 0)). discriminate.
Defined.

Lemma slowest_and_reliable_order_witness :
  win_results (sample_window 3) <> [] /\
  ((currentIndex (filter_combo (sample_window 3)) = 3%Z ->
    StronglySorted (fun a b => slowest_value b <= slowest_value a)
      (win_filtered_results (apply_filter (sample_window 3)))) /\
   (currentIndex (filter_combo (sample_window 3)) = 4%Z ->
    StronglySorted (fun a b => reliability b <= reliability a)
      (win_filtered_results (apply_filter (sample_window 3))))).
Proof.
  split; [discriminate|].
  apply (slowest_and_reliable_order (sample_window 3)). discriminate.
Defined.

(** Sorted on reliability, the two servers of reliability 100 keep their
    order. *)
Lemma apply_filter_stable_witness :
  win_results (sample_window 4) <> [] /\
  (0 <= currentIndex (filter_combo (sample_window 4)) <= 4)%Z /\
  filter (same_key (mode_key (currentIndex (filter_combo (sample_window 4))))
            (Fin 100))
    (win_filtered_results (apply_filter (sample_window 4))) =
  filter (same_key (mode_key (currentIndex (filter_combo (sample_window 4))))
            (Fin 100))
    (win_results (sample_window 4)).
Proof.
  split; [discriminate|]. split; [cbn; lia|].
  apply (apply_filter_stable (sample_window 4) (Fin 100)).
  - discriminate.
  - cbn. lia.
Defined.

(** A server with averages of 57 ms on a chart 600 pixels wide, with a
    rounding that cuts the product 57 * 1.2. *)
Lemma chart_scale_covers_results_witness :
  let fl := round_down_1024 in
  (forall x y, x <= y -> fl x <= fl y) /\
  fl 1 == 1 /\
  fl (inject_Z 600) == inject_Z 600 /\
  (forall x, In x (all_vals [slow_result]) -> fl x == x) /\
  In 57 (all_vals [slow_result]) /\
  (0 <= 600)%Z /\
  (50 <= max_val_after fl [slow_result] 100 /\
   57 <= max_val_after fl [slow_result] 100 /\
   bar_width fl 57 (max_val_after fl [slow_result] 100) 600 ==
     fl (fl (57 / max_val_after fl [slow_result] 100) * inject_Z 600) /\
   bar_width fl 57 (max_val_after fl [slow_result] 100) 600
     <= inject_Z 600).
Proof.
  assert (Hmono : forall x y, x <= y ->
                              round_down_1024 x <= round_down_1024 y).
  { intros x y H. unfold round_down_1024, Qdiv.
    apply Qmult_le_compat_r; [|discriminate].
    rewrite <- Zle_Qle. apply Qfloor_resp_le.
    apply Qmult_le_compat_r; [exact H | discriminate]. }
  assert (Hvals : forall x, In x (all_vals [slow_result]) ->
                            round_down_1024 x == x).
  { intros x Hx. vm_compute in Hx.
    destruct Hx as [<-|[<-|[<-|[]]]]; vm_compute; reflexivity. }
  assert (Hin : In 57 (all_vals [slow_result])) by (vm_compute; auto).
  cbv zeta.
  split; [exact Hmono|]. split; [vm_compute; reflexivity|].
  split; [vm_compute; reflexivity|].
  split; [exact Hvals|]. split; [exact Hin|]. split; [lia|].
  apply (chart_scale_covers_results round_down_1024 [slow_result] 100 57
           600 Hmono).
  - vm_compute. reflexivity.
  - vm_compute. reflexivity.
  - exact Hvals.
  - exact Hin.
  - lia.
Defined.

(** With that rounding the scale falls below 57 * 12 / 10, as it does
    in binary64. *)
Example rounded_scale_below_exact :
  max_val_after round_down_1024 [slow_result] 100 == 70041 # 1024 /\
  max_val_after round_down_1024 [slow_result] 100 < 57 * (12 # 10).
Proof. split; vm_compute; reflexivity. Qed.

(** The fourth row of the sample popup. *)
Lemma hit_test_matches_painted_rows_witness :
  (0 <= _vscroll sample_popup)%Z /\
  (first_index sample_popup <= 3
   < Z.of_nat (List.length (_items sample_popup)))%Z /\
  ((row_top sample_popup 3 <= 80 < row_top sample_popup 3 + _item_height)%Z
   <-> _index_at_pos 80 sample_popup = 3%Z).
Proof.
  split; [cbn; lia|]. split; [vm_compute; split; congruence|].
  apply (hit_test_matches_painted_rows sample_popup 3 80).
  - cbn. lia.
  - vm_compute. split; congruence.
Defined.

(** A click on "Fastest (Overall)" in the popup of the sort modes. *)
Lemma click_selects_painted_row_witness :
  let c := new_combo sort_labels in
  combo_ok c /\
  (first_index (_popup c) <= 2 < Z.of_nat (List.length (items c)))%Z /\
  (row_top (_popup c) 2 <= 83 < row_top (_popup c) 2 + _item_height)%Z /\
  exists c' text,
    popup_click 83 c = Some (c', Some 2%Z) /\
    currentIndex c' = 2%Z /\
    nth_error (items c) (Z.to_nat 2) = Some text /\
    currentText c' = Some text /\
    button_text c' = text /\
    items c' = items c /\
    popup_visible (_popup c') = false.
Proof.
  assert (Hok : combo_ok (new_combo sort_labels)).
  { exact (new_combo_ok sort_labels). }
  assert (Hi : (first_index (_popup (new_combo sort_labels)) <= 2
                < Z.of_nat (List.length (items (new_combo sort_labels))))%Z).
  { vm_compute. split; congruence. }
  assert (Hy : (row_top (_popup (new_combo sort_labels)) 2 <= 83
                < row_top (_popup (new_combo sort_labels)) 2
                  + _item_height)%Z).
  { vm_compute. split; congruence. }
  split; [exact Hok|]. split; [exact Hi|]. split; [exact Hy|].
  apply (click_selects_painted_row (new_combo sort_labels) 2 83 Hok Hi Hy).
Defined.
